(** * SnnDL: a shallow embedding of the simulator core and its specification

    The development follows the C++ sources of the SnnDL element library:
    the LIF neuron update of [SnnPE] and [SnnPESubComponent], the
    [SpikeEvent] serialization order, the [OptimizedInternalRing] on-tile
    ring, the [SnnNIC] send path, the [SpikeSource] text loader and the
    parameter validation of [MultiCorePE].

    Conventions.  Fixed-width C++ integers are values of [Z] with the
    wrap-around written out ([u32], [u64]).  [std::vector] and [std::queue]
    are lists (a queue pushes at the back and pops at the front).  A pointer
    that may be null is an option, or a boolean where only its being set
    matters.  Floating-point arithmetic is taken through the interface
    [FloatOps]: nothing below depends on rounding. *)

From Stdlib Require Import ZArith Zdiv List Lia Bool QArith String Ascii Sorted.
From stdpp Require Import base option list gmap.

Local Open Scope Z_scope.

(** ** Machine integers *)

Definition u32 (x : Z) : Z := x mod 2 ^ 32.
Definition u64 (x : Z) : Z := x mod 2 ^ 64.
Definition INT_MAX : Z := 2 ^ 31 - 1.
Definition is_int (x : Z) : Prop := - 2 ^ 31 <= x < 2 ^ 31.
Definition is_u32 (x : Z) : Prop := 0 <= x < 2 ^ 32.
Definition is_u64 (x : Z) : Prop := 0 <= x < 2 ^ 64.

(** ** Floating point, as an interface

    [fleb a b] is the C++ comparison [a <= b], [fltb a b] is [a < b],
    [feqb a b] is [a == b]; [fexp] is [exp] of <cmath>. *)

Class FloatOps (F : Type) : Type := {
  fzero : F;
  fone : F;
  fneg : F -> F;
  fadd : F -> F -> F;
  fsub : F -> F -> F;
  fmul : F -> F -> F;
  fdiv : F -> F -> F;
  fexp : F -> F;
  feqb : F -> F -> bool;
  fleb : F -> F -> bool;
  fltb : F -> F -> bool
}.

(** Exact rationals give an instance on which the models can be run; its
    [fexp] is the degree-3 Taylor polynomial of the exponential. *)
Definition Q_exp (x : Q) : Q :=
  Qred (1 + x + x * x * (1 # 2) + x * x * x * (1 # 6))%Q.

#[global] Instance Q_FloatOps : FloatOps Q := {|
  fzero := 0%Q;
  fone := 1%Q;
  fneg := fun a => Qred (- a)%Q;
  fadd := fun a b => Qred (a + b)%Q;
  fsub := fun a b => Qred (a - b)%Q;
  fmul := fun a b => Qred (a * b)%Q;
  fdiv := fun a b => Qred (a / b)%Q;
  fexp := Q_exp;
  feqb := Qeq_bool;
  fleb := Qle_bool;
  fltb := fun a b => Qle_bool a b && negb (Qeq_bool a b)
|}.

(** ** SpikeEvent (SpikeEvent.h) *)

Module SpikeEvent.

Definition MAX_HOPS : Z := 10.

(** [weight] is a C++ [double]; the record keeps it in the carrier [W]
    (the float interface for the neuron models, the 64-bit pattern for
    serialization). *)
Record t (W : Type) : Type := mk {
  neuron_id : Z;      (* uint32_t *)
  timestamp : Z;      (* uint64_t *)
  hop_count : Z;      (* uint32_t, default member initializer 0 *)
  dest_neuron : Z;    (* uint32_t *)
  dest_node : Z;      (* uint32_t *)
  weight : W
}.
Arguments mk {W}.
Arguments neuron_id {W}.
Arguments timestamp {W}.
Arguments hop_count {W}.
Arguments dest_neuron {W}.
Arguments dest_node {W}.
Arguments weight {W}.

(** SpikeEvent(id, dest_n, dest_node_id, w, ts) *)
Definition make {W} (id dest_n dest_node_id : Z) (w : W) (ts : Z) : t W :=
  mk id ts 0 dest_n dest_node_id w.

Definition isExpired {W} (s : t W) : bool := MAX_HOPS <=? hop_count s.

End SpikeEvent.

(** ** SnnPE: the single-core processing element (SnnPE.cc) *)

Module SnnPE.
Section WithFloat.
Context {F : Type} `{FloatOps F}.

Record NeuronState : Type := mkNeuron {
  v_mem : F;
  refractory_timer : Z      (* uint32_t *)
}.

Record t : Type := mk {
  num_neurons : Z;          (* uint32_t *)
  neuron_id_start : Z;      (* uint32_t *)
  v_thresh : F;
  v_reset : F;
  v_rest : F;
  tau_mem : F;
  t_ref : Z;                (* uint32_t *)
  leak_factor : F;
  neurons : list NeuronState;
  csr_row_ptr : list Z;     (* uint64_t *)
  csr_col_indices : list Z; (* uint32_t *)
  csr_weights : list F;
  use_interface_mode : bool;
  snn_interface : bool;     (* pointer: set or null *)
  spike_output_link : bool; (* pointer: set or null *)
  spikes_received_count : Z;
  spikes_generated_count : Z;
  neurons_fired_count : Z;
  synaptic_ops_count : Z;
  (* effects *)
  fire_log : list Z;                       (* "neuron %u fires" lines *)
  sent_interface : list (SpikeEvent.t F);  (* snn_interface->sendSpike *)
  sent_link : list (SpikeEvent.t F)        (* spike_output_link->send *)
}.

Definition MAX_RECURSION_DEPTH : nat := 10.

Definition set_neurons (pe : t) (ns : list NeuronState) : t :=
  mk (num_neurons pe) (neuron_id_start pe) (v_thresh pe) (v_reset pe)
     (v_rest pe) (tau_mem pe) (t_ref pe) (leak_factor pe) ns
     (csr_row_ptr pe) (csr_col_indices pe) (csr_weights pe)
     (use_interface_mode pe) (snn_interface pe) (spike_output_link pe)
     (spikes_received_count pe) (spikes_generated_count pe)
     (neurons_fired_count pe) (synaptic_ops_count pe)
     (fire_log pe) (sent_interface pe) (sent_link pe).

Definition set_leak_factor (pe : t) (lf : F) : t :=
  mk (num_neurons pe) (neuron_id_start pe) (v_thresh pe) (v_reset pe)
     (v_rest pe) (tau_mem pe) (t_ref pe) lf (neurons pe)
     (csr_row_ptr pe) (csr_col_indices pe) (csr_weights pe)
     (use_interface_mode pe) (snn_interface pe) (spike_output_link pe)
     (spikes_received_count pe) (spikes_generated_count pe)
     (neurons_fired_count pe) (synaptic_ops_count pe)
     (fire_log pe) (sent_interface pe) (sent_link pe).

Definition set_counts (pe : t) (recv gen fired ops : Z) : t :=
  mk (num_neurons pe) (neuron_id_start pe) (v_thresh pe) (v_reset pe)
     (v_rest pe) (tau_mem pe) (t_ref pe) (leak_factor pe) (neurons pe)
     (csr_row_ptr pe) (csr_col_indices pe) (csr_weights pe)
     (use_interface_mode pe) (snn_interface pe) (spike_output_link pe)
     recv gen fired ops
     (fire_log pe) (sent_interface pe) (sent_link pe).

Definition set_effects (pe : t) (fl : list Z)
    (si sl : list (SpikeEvent.t F)) : t :=
  mk (num_neurons pe) (neuron_id_start pe) (v_thresh pe) (v_reset pe)
     (v_rest pe) (tau_mem pe) (t_ref pe) (leak_factor pe) (neurons pe)
     (csr_row_ptr pe) (csr_col_indices pe) (csr_weights pe)
     (use_interface_mode pe) (snn_interface pe) (spike_output_link pe)
     (spikes_received_count pe) (spikes_generated_count pe)
     (neurons_fired_count pe) (synaptic_ops_count pe)
     fl si sl.

(** The part of setup() that recomputes the leak factor:
    [float dt_ms = 1.0f; leak_factor = exp(-dt_ms / tau_mem);] *)
Definition dt_ms : F := fone.
Definition setup_leak (pe : t) : t :=
  set_leak_factor pe (fexp (fdiv (fneg dt_ms) (tau_mem pe))).

(** neurons[i] for reading; an index past the end is outside the
    behaviour the C++ defines and reads as [None]. *)
Definition neuron_at (pe : t) (i : Z) : option NeuronState :=
  if i <? 0 then None else neurons pe !! Z.to_nat i.

Definition update_neuron (pe : t) (i : Z)
    (f : NeuronState -> NeuronState) : t :=
  set_neurons pe (alter f (Z.to_nat i) (neurons pe)).

(** applyLeak: [v_mem = v_rest + (v_mem - v_rest) * leak_factor] *)
Definition leak_value (pe : t) (v : F) : F :=
  fadd (v_rest pe) (fmul (fsub v (v_rest pe)) (leak_factor pe)).

Definition applyLeak (pe : t) (neuron_idx : Z) : t :=
  update_neuron pe neuron_idx
    (fun n => mkNeuron (leak_value pe (v_mem n)) (refractory_timer n)).

(** What one iteration of the neuron loop of clockTick does to the
    neuron it visits. *)
Definition neuron_after_tick (pe : t) (n : NeuronState) : NeuronState :=
  if 0 <? refractory_timer n
  then mkNeuron (v_mem n) (refractory_timer n - 1)
  else mkNeuron (leak_value pe (v_mem n)) (refractory_timer n).

(** The neuron loop that opens clockTick. *)
Definition clockTick_neuron (pe : t) (i : Z) : t :=
  match neuron_at pe i with
  | None => pe
  | Some n =>
      if 0 <? refractory_timer n
      then update_neuron pe i
             (fun n => mkNeuron (v_mem n) (refractory_timer n - 1))
      else applyLeak pe i
  end.

Definition clockTick_neurons (pe : t) : t :=
  fold_left clockTick_neuron
    (map Z.of_nat (seq 0 (Z.to_nat (num_neurons pe)))) pe.

(** The reset at the head of the firing branch of checkAndFireSpike. *)
Definition fire_reset (pe : t) (neuron_idx : Z) : t :=
  let pe := set_effects pe (fire_log pe ++ [neuron_idx])
              (sent_interface pe) (sent_link pe) in
  let pe := update_neuron pe neuron_idx
              (fun _ => mkNeuron (v_reset pe) (t_ref pe)) in
  set_counts pe (spikes_received_count pe)
    (u64 (spikes_generated_count pe + 1))
    (u64 (neurons_fired_count pe + 1)) (synaptic_ops_count pe).

(** Cross-core branch of the fan-out loop: build the event and pick the
    output channel. *)
Definition emit_cross_core (pe : t) (neuron_idx tgt : Z) (w : F) : t :=
  let dest_node_id := tgt / num_neurons pe in
  let local_target_neuron := tgt mod num_neurons pe in
  let ev := SpikeEvent.mk (u32 (neuron_id_start pe + neuron_idx)) 0 0
              local_target_neuron dest_node_id w in
  if use_interface_mode pe && snn_interface pe
  then set_effects pe (fire_log pe) (sent_interface pe ++ [ev]) (sent_link pe)
  else if spike_output_link pe
  then set_effects pe (fire_log pe) (sent_interface pe) (sent_link pe ++ [ev])
  else pe.

Definition integrate (pe : t) (i : Z) (w : F) : t :=
  let pe := update_neuron pe i
              (fun n => mkNeuron (fadd (v_mem n) w) (refractory_timer n)) in
  set_counts pe (spikes_received_count pe) (spikes_generated_count pe)
    (neurons_fired_count pe) (u64 (synaptic_ops_count pe + 1)).

(** The loop [for (i = row_start; i < row_end; i++)] over one CSR row;
    [check] is the recursive call, [None]/corrupt entries break. *)
Fixpoint fan_out (check : t -> Z -> t) (neuron_idx : Z)
    (row : list nat) (pe : t) : t :=
  match row with
  | [] => pe
  | i :: rest =>
      match csr_col_indices pe !! i, csr_weights pe !! i with
      | Some global_target_neuron, Some weight =>
          if 1000 <? global_target_neuron then pe
          else if feqb weight fzero then fan_out check neuron_idx rest pe
          else if (neuron_id_start pe <=? global_target_neuron)
                  && (global_target_neuron
                        <? u32 (neuron_id_start pe + num_neurons pe))
          then
            let true_local_target :=
              u32 (global_target_neuron - neuron_id_start pe) in
            match neuron_at pe true_local_target with
            | Some n =>
                if refractory_timer n =? 0
                then fan_out check neuron_idx rest
                       (check (integrate pe true_local_target weight)
                              true_local_target)
                else fan_out check neuron_idx rest pe
            | None => pe
            end
          else fan_out check neuron_idx rest
                 (emit_cross_core pe neuron_idx global_target_neuron weight)
      | _, _ => pe
      end
  end.

(** After the reset: bounds checks on the CSR arrays, then the row. *)
Definition propagate (check : t -> Z -> t) (neuron_idx : Z) (pe : t) : t :=
  if u64 (Z.of_nat (length (csr_row_ptr pe)) - 1) <=? neuron_idx then pe
  else
    match csr_row_ptr pe !! Z.to_nat neuron_idx,
          csr_row_ptr pe !! Z.to_nat (neuron_idx + 1) with
    | Some row_start, Some row_end =>
        if (Z.of_nat (length (csr_col_indices pe)) <? row_end)
           || (Z.of_nat (length (csr_weights pe)) <? row_end)
        then pe
        else fan_out check neuron_idx
               (seq (Z.to_nat row_start) (Z.to_nat (row_end - row_start))) pe
    | _, _ => pe
    end.

(** checkAndFireSpike with [remaining = MAX_RECURSION_DEPTH -
    recursion_depth]: the static counter is incremented on entry to the
    firing branch and decremented on each of its exits, so a call at
    depth [d] runs its nested calls at depth [d + 1]. *)
Fixpoint checkAndFireSpike_at (remaining : nat) (pe : t) (neuron_idx : Z)
    : t :=
  match remaining with
  | O => pe
  | S remaining' =>
      match neuron_at pe neuron_idx with
      | None => pe
      | Some n =>
          if fleb (v_thresh pe) (v_mem n)
          then propagate (checkAndFireSpike_at remaining') neuron_idx
                 (fire_reset pe neuron_idx)
          else pe
      end
  end.

Definition remaining_at (recursion_depth : nat) : nat :=
  (MAX_RECURSION_DEPTH - recursion_depth)%nat.

(** A call from an event handler enters with recursion_depth = 0. *)
Definition checkAndFireSpike (pe : t) (neuron_idx : Z) : t :=
  checkAndFireSpike_at (remaining_at 0) pe neuron_idx.

(** processLocalSpike *)
Definition processLocalSpike (pe : t) (ev : SpikeEvent.t F) : t :=
  let target_neuron := SpikeEvent.dest_neuron ev in
  if target_neuron <? num_neurons pe
  then
    let pe := update_neuron pe target_neuron
                (fun n => mkNeuron (fadd (v_mem n) (SpikeEvent.weight ev))
                            (refractory_timer n)) in
    let pe := set_counts pe (u64 (spikes_received_count pe + 1))
                (spikes_generated_count pe) (neurons_fired_count pe)
                (u64 (synaptic_ops_count pe + 1)) in
    checkAndFireSpike pe target_neuron
  else pe.

End WithFloat.
Arguments NeuronState F : clear implicits.
Arguments t F : clear implicits.
End SnnPE.

(** ** SnnPESubComponent: the core of a multi-core tile
    (SnnPESubComponent.cc) *)

Module SnnPESubComponent.
Section WithFloat.
Context {F : Type} `{FloatOps F}.

Record NeuronState : Type := mkNeuron {
  v_mem : F;
  refractory_timer : Z;     (* uint32_t *)
  last_spike_time : Z       (* uint64_t *)
}.

Record t : Type := mk {
  core_id_ : Z;
  node_id_ : Z;
  global_neuron_base_ : Z;  (* uint64_t *)
  num_neurons_ : Z;         (* uint32_t *)
  v_thresh_ : F;
  v_reset_ : F;
  v_rest_ : F;
  tau_mem_ : F;
  t_ref_ : Z;               (* uint32_t *)
  total_cycles_ : Z;        (* uint64_t *)
  neuron_states_ : list NeuronState;
  parent_ : bool;           (* pointer: set or null *)
  count_neurons_fired_ : Z;
  count_spikes_generated_ : Z;
  (* effects *)
  fire_log : list Z;
  sent_parent : list (SpikeEvent.t F)   (* parent_->sendSpike *)
}.

Definition set_neuron_states (c : t) (ns : list NeuronState) : t :=
  mk (core_id_ c) (node_id_ c) (global_neuron_base_ c) (num_neurons_ c)
     (v_thresh_ c) (v_reset_ c) (v_rest_ c) (tau_mem_ c) (t_ref_ c)
     (total_cycles_ c) ns (parent_ c)
     (count_neurons_fired_ c) (count_spikes_generated_ c)
     (fire_log c) (sent_parent c).

Definition set_fired (c : t) (fired gen : Z) (fl : list Z) : t :=
  mk (core_id_ c) (node_id_ c) (global_neuron_base_ c) (num_neurons_ c)
     (v_thresh_ c) (v_reset_ c) (v_rest_ c) (tau_mem_ c) (t_ref_ c)
     (total_cycles_ c) (neuron_states_ c) (parent_ c)
     fired gen fl (sent_parent c).

Definition set_sent_parent (c : t) (sp : list (SpikeEvent.t F)) : t :=
  mk (core_id_ c) (node_id_ c) (global_neuron_base_ c) (num_neurons_ c)
     (v_thresh_ c) (v_reset_ c) (v_rest_ c) (tau_mem_ c) (t_ref_ c)
     (total_cycles_ c) (neuron_states_ c) (parent_ c)
     (count_neurons_fired_ c) (count_spikes_generated_ c)
     (fire_log c) sp.

Definition neuron_at (c : t) (i : Z) : option NeuronState :=
  if i <? 0 then None else neuron_states_ c !! Z.to_nat i.

Definition update_neuron (c : t) (i : Z)
    (f : NeuronState -> NeuronState) : t :=
  set_neuron_states c (alter f (Z.to_nat i) (neuron_states_ c)).

(** applyLeak:
    [if (v_mem > v_rest_)
       v_mem = v_rest_ + (v_mem - v_rest_) * exp(-1.0f / tau_mem_);] *)
Definition leak_value (c : t) (v : F) : F :=
  fadd (v_rest_ c)
       (fmul (fsub v (v_rest_ c)) (fexp (fdiv (fneg fone) (tau_mem_ c)))).

Definition applyLeak (c : t) (neuron_idx : Z) : t :=
  if num_neurons_ c <=? neuron_idx then c
  else
    match neuron_at c neuron_idx with
    | None => c
    | Some n =>
        if fltb (v_rest_ c) (v_mem n)
        then update_neuron c neuron_idx
               (fun n => mkNeuron (leak_value c (v_mem n))
                           (refractory_timer n) (last_spike_time n))
        else c
    end.

(** What one iteration of the loop of updateNeuronStates does to the
    neuron it visits. *)
Definition neuron_after_update (c : t) (n : NeuronState) : NeuronState :=
  if 0 <? refractory_timer n
  then mkNeuron (v_mem n) (refractory_timer n - 1) (last_spike_time n)
  else if fltb (v_rest_ c) (v_mem n)
  then mkNeuron (leak_value c (v_mem n)) (refractory_timer n)
         (last_spike_time n)
  else n.

(** One iteration of the loop of updateNeuronStates. *)
Definition updateNeuronState (c : t) (i : Z) : t :=
  match neuron_at c i with
  | None => c
  | Some n =>
      if 0 <? refractory_timer n
      then update_neuron c i
             (fun n => mkNeuron (v_mem n) (refractory_timer n - 1)
                         (last_spike_time n))
      else applyLeak c i
  end.

Definition updateNeuronStates (c : t) : t :=
  fold_left updateNeuronState
    (map Z.of_nat (seq 0 (Z.to_nat (num_neurons_ c)))) c.

(** The reset at the head of the firing branch. *)
Definition fire_reset (c : t) (neuron_idx : Z) : t :=
  let c := update_neuron c neuron_idx
             (fun _ => mkNeuron (v_reset_ c) (t_ref_ c) (total_cycles_ c)) in
  set_fired c (u64 (count_neurons_fired_ c + 1))
    (u64 (count_spikes_generated_ c + 1)) (fire_log c ++ [neuron_idx]).

(** The hard-wired layered fan-out: input nodes 0-3 feed hidden nodes
    4-11, which feed output nodes 12-15; [None] for an output node. *)
Definition fan_out_target (c : t) (neuron_idx : Z) : option (Z * Z) :=
  let node := node_id_ c in
  if (0 <=? node) && (node <=? 3) then
    let target_hidden_base := if node <? 2 then 4 else 8 in
    let target_hidden_node :=
      u32 (target_hidden_base + (node mod 2) * 2 + neuron_idx mod 2) in
    Some (target_hidden_node,
          u32 (8 + (target_hidden_node - 4) * 4 + neuron_idx))
  else if (4 <=? node) && (node <=? 11) then
    let target_output_node := u32 (12 + (node - 4) / 2) in
    Some (target_output_node,
          u32 (40 + (target_output_node - 12) * 2 + neuron_idx mod 2))
  else None.

Definition emit_output (c : t) (neuron_idx : Z) : t :=
  match fan_out_target c neuron_idx with
  | None => c
  | Some (target_node, target_neuron) =>
      let source_global := u32 (global_neuron_base_ c + neuron_idx) in
      let output_spike :=
        SpikeEvent.make source_global target_neuron target_node fzero
          (total_cycles_ c) in
      if parent_ c then set_sent_parent c (sent_parent c ++ [output_spike])
      else c
  end.

Definition checkAndFireSpike (c : t) (neuron_idx : Z) : t :=
  if num_neurons_ c <=? neuron_idx then c
  else
    match neuron_at c neuron_idx with
    | None => c
    | Some n =>
        if fleb (v_thresh_ c) (v_mem n) && (refractory_timer n =? 0)
        then emit_output (fire_reset c neuron_idx) neuron_idx
        else c
    end.

End WithFloat.
Arguments NeuronState F : clear implicits.
Arguments t F : clear implicits.
End SnnPESubComponent.

(** ** The serializer and SpikeEvent::serialize_order

    The SST serializer copies the object representation of a fundamental
    type: it appends [sizeof] bytes when packing and reads them back when
    unpacking (little-endian here).  One [serialize_order] serves both
    directions, as in the source.  The base class part
    [Event::serialize_order] belongs to the simulator core and carries
    none of the spike fields; it is left out. *)

Module Serializer.

Inductive mode : Type := PACK | UNPACK.

Record t : Type := mk { ser_mode : mode; buffer : list Z }.

Fixpoint le_bytes (n : nat) (x : Z) : list Z :=
  match n with
  | O => []
  | S n' => x mod 256 :: le_bytes n' (x / 256)
  end.

Fixpoint le_value (bs : list Z) : Z :=
  match bs with
  | [] => 0
  | b :: bs' => b + 256 * le_value bs'
  end.

(** SST_SER on a fundamental type of [n] bytes. *)
Definition ser_prim (n : nat) (ser : t) (x : Z) : option (t * Z) :=
  match ser_mode ser with
  | PACK => Some (mk PACK (buffer ser ++ le_bytes n x), x)
  | UNPACK =>
      if (n <=? length (buffer ser))%nat
      then Some (mk UNPACK (drop n (buffer ser)),
                 le_value (take n (buffer ser)))
      else None
  end.

Definition ser_u32 := ser_prim 4.
Definition ser_u64 := ser_prim 8.
Definition ser_f64 := ser_prim 8.

End Serializer.

Module SpikeEventSer.
Import SpikeEvent.

(** The default constructor [SpikeEvent()] ([hop_count] takes its default
    member initializer). *)
Definition default : SpikeEvent.t Z := SpikeEvent.mk 0 0 0 0 0 0.

(** SpikeEvent::serialize_order *)
Definition serialize_order (ser : Serializer.t) (ev : SpikeEvent.t Z)
    : option (Serializer.t * SpikeEvent.t Z) :=
  '(ser, neuron_id') ← Serializer.ser_u32 ser (neuron_id ev);
  '(ser, timestamp') ← Serializer.ser_u64 ser (timestamp ev);
  '(ser, dest_neuron') ← Serializer.ser_u32 ser (dest_neuron ev);
  '(ser, dest_node') ← Serializer.ser_u32 ser (dest_node ev);
  '(ser, weight') ← Serializer.ser_f64 ser (weight ev);
  Some (ser, SpikeEvent.mk neuron_id' timestamp' (hop_count ev)
               dest_neuron' dest_node' weight').

Definition serialize (ev : SpikeEvent.t Z) : option (list Z) :=
  '(ser, _) ← serialize_order (Serializer.mk Serializer.PACK []) ev;
  Some (Serializer.buffer ser).

Definition deserialize (bytes : list Z) : option (SpikeEvent.t Z) :=
  '(_, ev) ← serialize_order (Serializer.mk Serializer.UNPACK bytes) default;
  Some ev.

Definition well_formed (ev : SpikeEvent.t Z) : Prop :=
  is_u32 (neuron_id ev) /\ is_u64 (timestamp ev) /\ is_u32 (hop_count ev) /\
  is_u32 (dest_neuron ev) /\ is_u32 (dest_node ev) /\ is_u64 (weight ev).

End SpikeEventSer.

(** ** OptimizedInternalRing: the on-tile virtual-channel ring
    (OptimizedInternalRing.h, OptimizedInternalRing.cc)

    Nodes live in [nodes_] and the neighbour pointers of a node are indices
    into it.  A function that returns a pointer to a virtual channel
    returns its index in the vector of its direction. *)

Module OptimizedInternalRing.

Inductive RingMessageType : Type :=
  SPIKE_MESSAGE | MEMORY_REQUEST | MEMORY_RESPONSE | CONTROL_MESSAGE.

Record RingMessage : Type := mkMsg {
  msg_type : RingMessageType;
  src_unit : Z;          (* int *)
  dst_unit : Z;          (* int *)
  timestamp : Z;         (* uint64_t *)
  msg_priority : Z;      (* int *)
  payload : Z            (* the pointer held by the union *)
}.

Inductive RouteDirection : Type :=
  CLOCKWISE | COUNTER_CLOCKWISE | LOCAL | INVALID.

#[global] Instance RouteDirection_eq_dec : EqDecision RouteDirection.
Proof. solve_decision. Defined.

Inductive VCState : Type := IDLE | ROUTING | BLOCKED | ACTIVE.

Record VirtualChannel : Type := mkVC {
  vc_id : Z;
  priority : Z;
  state : VCState;
  buffer : list RingMessage;
  credits : Z;               (* uint32_t *)
  max_credits : Z;           (* uint32_t *)
  last_activity_cycle : Z    (* uint64_t *)
}.

(** VirtualChannel(id, prio, max_cred) *)
Definition newVC (id prio max_cred : Z) : VirtualChannel :=
  mkVC id prio IDLE [] max_cred max_cred 0.

Definition hasSpace (vc : VirtualChannel) : bool :=
  (0 <? credits vc) && (Z.of_nat (length (buffer vc)) <? max_credits vc).
Definition hasData (vc : VirtualChannel) : bool :=
  match buffer vc with [] => false | _ => true end.
Definition consumeCredit (vc : VirtualChannel) : VirtualChannel :=
  mkVC (vc_id vc) (priority vc) (state vc) (buffer vc)
       (if 0 <? credits vc then credits vc - 1 else credits vc)
       (max_credits vc) (last_activity_cycle vc).
Definition returnCredit (vc : VirtualChannel) : VirtualChannel :=
  mkVC (vc_id vc) (priority vc) (state vc) (buffer vc)
       (if credits vc <? max_credits vc then credits vc + 1 else credits vc)
       (max_credits vc) (last_activity_cycle vc).

(** [buffer.push(msg); consumeCredit(); state = ACTIVE;
    last_activity_cycle = now] *)
Definition vc_enqueue (msg : RingMessage) (now : Z) (vc : VirtualChannel)
    : VirtualChannel :=
  let vc := mkVC (vc_id vc) (priority vc) (state vc) (buffer vc ++ [msg])
                 (credits vc) (max_credits vc) (last_activity_cycle vc) in
  let vc := consumeCredit vc in
  mkVC (vc_id vc) (priority vc) ACTIVE (buffer vc) (credits vc)
       (max_credits vc) now.

(** [buffer.pop(); returnCredit()] *)
Definition vc_dequeue (vc : VirtualChannel) : VirtualChannel :=
  returnCredit
    (mkVC (vc_id vc) (priority vc) (state vc) (tail (buffer vc))
          (credits vc) (max_credits vc) (last_activity_cycle vc)).

Record RingNode : Type := mkNode {
  node_id : Z;
  next_cw : option nat;
  prev_cw : option nat;
  next_ccw : option nat;
  prev_ccw : option nat;
  cw_vcs : list VirtualChannel;
  ccw_vcs : list VirtualChannel;
  local_vcs : list VirtualChannel;
  injection_queue : list RingMessage;
  ejection_queue : list RingMessage;
  messages_forwarded : Z;
  messages_injected : Z;
  messages_ejected : Z;
  total_latency_cycles : Z
}.

(** RingNode(id) followed by initializeVCs *)
Definition initVCs (num_vcs_per_direction : Z) (credits_per_vc : Z)
    : list VirtualChannel :=
  map (fun i => newVC (Z.of_nat i) (Z.of_nat i) credits_per_vc)
      (seq 0 (Z.to_nat num_vcs_per_direction)).

Definition newNode (id : Z) (num_vcs credits_per_vc : Z) : RingNode :=
  mkNode id None None None None
         (initVCs num_vcs credits_per_vc) (initVCs num_vcs credits_per_vc)
         (initVCs num_vcs credits_per_vc) [] [] 0 0 0 0.

Definition set_links (n : RingNode) (ncw pcw nccw pccw : option nat)
    : RingNode :=
  mkNode (node_id n) ncw pcw nccw pccw (cw_vcs n) (ccw_vcs n) (local_vcs n)
         (injection_queue n) (ejection_queue n) (messages_forwarded n)
         (messages_injected n) (messages_ejected n) (total_latency_cycles n).

Definition set_vcs (n : RingNode) (cw ccw loc : list VirtualChannel)
    : RingNode :=
  mkNode (node_id n) (next_cw n) (prev_cw n) (next_ccw n) (prev_ccw n)
         cw ccw loc
         (injection_queue n) (ejection_queue n) (messages_forwarded n)
         (messages_injected n) (messages_ejected n) (total_latency_cycles n).

Definition set_ejection (n : RingNode) (q : list RingMessage) : RingNode :=
  mkNode (node_id n) (next_cw n) (prev_cw n) (next_ccw n) (prev_ccw n)
         (cw_vcs n) (ccw_vcs n) (local_vcs n)
         (injection_queue n) q (messages_forwarded n)
         (messages_injected n) (messages_ejected n) (total_latency_cycles n).

Definition set_stats (n : RingNode) (fwd inj ej lat : Z) : RingNode :=
  mkNode (node_id n) (next_cw n) (prev_cw n) (next_ccw n) (prev_ccw n)
         (cw_vcs n) (ccw_vcs n) (local_vcs n)
         (injection_queue n) (ejection_queue n) fwd inj ej lat.

(** getVCs *)
Definition getVCs (n : RingNode) (direction : RouteDirection)
    : list VirtualChannel :=
  match direction with
  | CLOCKWISE => cw_vcs n
  | COUNTER_CLOCKWISE => ccw_vcs n
  | LOCAL => local_vcs n
  | INVALID => []
  end.

(** A write through the reference returned by getVCs. *)
Definition update_vcs (direction : RouteDirection)
    (f : list VirtualChannel -> list VirtualChannel) (n : RingNode)
    : RingNode :=
  match direction with
  | CLOCKWISE => set_vcs n (f (cw_vcs n)) (ccw_vcs n) (local_vcs n)
  | COUNTER_CLOCKWISE => set_vcs n (cw_vcs n) (f (ccw_vcs n)) (local_vcs n)
  | LOCAL => set_vcs n (cw_vcs n) (ccw_vcs n) (f (local_vcs n))
  | INVALID => n
  end.

(** Index of the first element that satisfies [p]. *)
Fixpoint find_index {A} (p : A -> bool) (l : list A) : option nat :=
  match l with
  | [] => None
  | x :: l' => if p x then Some O else S <$> find_index p l'
  end.

(** RingNode::selectOutputVC *)
Definition selectOutputVC (n : RingNode) (direction : RouteDirection)
    (prio : Z) : option nat :=
  match direction with
  | INVALID => None
  | _ =>
      let vcs := getVCs n direction in
      match find_index (fun vc => (priority vc =? prio) && hasSpace vc) vcs
      with
      | Some i => Some i
      | None => find_index hasSpace vcs
      end
  end.

(** RingNode::canAcceptMessage *)
Definition canAcceptMessage (n : RingNode) (direction : RouteDirection)
    (prio : Z) : bool :=
  match direction with
  | INVALID => false
  | _ => existsb (fun vc => (priority vc <=? prio) && hasSpace vc)
           (getVCs n direction)
  end.

Record t : Type := mk {
  num_nodes_ : Z;              (* int *)
  num_vcs_ : Z;                (* int *)
  credits_per_vc_ : Z;         (* uint32_t *)
  output_ : bool;              (* pointer: set or null *)
  nodes_ : list RingNode;
  total_messages_routed_ : Z;
  total_latency_cycles_ : Z;
  total_cycles_ : Z;
  last_stats_cycle_ : Z;
  route_cache_ : list Z;
  route_lookup_cache_ : gmap Z RouteDirection
}.

Definition set_nodes (r : t) (ns : list RingNode) : t :=
  mk (num_nodes_ r) (num_vcs_ r) (credits_per_vc_ r) (output_ r) ns
     (total_messages_routed_ r) (total_latency_cycles_ r) (total_cycles_ r)
     (last_stats_cycle_ r) (route_cache_ r) (route_lookup_cache_ r).

Definition set_cache (r : t) (c : gmap Z RouteDirection) : t :=
  mk (num_nodes_ r) (num_vcs_ r) (credits_per_vc_ r) (output_ r) (nodes_ r)
     (total_messages_routed_ r) (total_latency_cycles_ r) (total_cycles_ r)
     (last_stats_cycle_ r) (route_cache_ r) c.

Definition set_clock (r : t) (routed latency cycles last_stats : Z) : t :=
  mk (num_nodes_ r) (num_vcs_ r) (credits_per_vc_ r) (output_ r) (nodes_ r)
     routed latency cycles last_stats (route_cache_ r)
     (route_lookup_cache_ r).

Definition update_node (r : t) (i : nat) (f : RingNode -> RingNode) : t :=
  set_nodes r (alter f i (nodes_ r)).

(** getNode, with its bounds check *)
Definition getNode (r : t) (id : Z) : option RingNode :=
  if (0 <=? id) && (id <? num_nodes_ r) then nodes_ r !! Z.to_nat id
  else None.

(** initializeTopology: the links of node [i] on a ring of [k] nodes *)
Definition link_node (k : nat) (i : nat) (n : RingNode) : RingNode :=
  set_links n (Some ((i + 1) mod k)%nat) (Some ((i + k - 1) mod k)%nat)
              (Some ((i + k - 1) mod k)%nat) (Some ((i + 1) mod k)%nat).

(** verifyTopology *)
Definition verify_node (ns : list RingNode) (i : nat) : bool :=
  match ns !! i with
  | None => false
  | Some n =>
      match next_cw n, prev_cw n, next_ccw n, prev_ccw n with
      | Some ncw, Some pcw, Some _, Some _ =>
          match ns !! ncw, ns !! pcw with
          | Some a, Some b =>
              bool_decide (prev_cw a = Some i)
              && bool_decide (next_cw b = Some i)
          | _, _ => false
          end
      | _, _, _, _ => false
      end
  end.

Definition verifyTopology (num_nodes : Z) (ns : list RingNode) : bool :=
  forallb (verify_node ns) (seq 0 (Z.to_nat num_nodes)).

(** The constructor.  [None] is the fatal exit (taken only when a logger
    is attached) or the length error of [reserve] on a negative count.
    The size of the route cache is the product [num_nodes_ * num_nodes_],
    which the code computes in [int]: the model follows the code for
    rings of at most 46340 nodes, where that product does not overflow. *)
Definition new (num_nodes num_vcs credits_per_vc : Z) (output : bool)
    : option t :=
  if (num_nodes <? 2) && output then None
  else if (num_vcs <? 1) && output then None
  else if (num_nodes <? 0) || ((0 <? num_nodes) && (num_vcs <? 0)) then None
  else
    let k := Z.to_nat num_nodes in
    let ns := map (fun i => newNode (Z.of_nat i) num_vcs credits_per_vc)
                  (seq 0 k) in
    let ns := if num_nodes <? 2 then ns else imap (link_node k) ns in
    if negb (num_nodes <? 2) && negb (verifyTopology num_nodes ns) && output
    then None
    else Some (mk num_nodes num_vcs credits_per_vc output ns 0 0 0 0
                  (replicate (Z.to_nat (num_nodes * num_nodes)) 0) ∅).

(** generateRouteCacheKey:
    [(static_cast<uint64_t>(src) << 32) | static_cast<uint64_t>(dst)] *)
Definition generateRouteCacheKey (src dst : Z) : Z :=
  Z.lor (u64 (Z.shiftl (u64 src) 32)) (u64 dst).

(** calculateHops.  For node ids in [0, num_nodes_) every intermediate
    value lies in [0, num_nodes_], so no [int] operation wraps. *)
Definition calculateHops (r : t) (src dst : Z) (direction : RouteDirection)
    : Z :=
  if src =? dst then 0
  else match direction with
       | CLOCKWISE =>
           if src <? dst then dst - src else num_nodes_ r - src + dst
       | COUNTER_CLOCKWISE =>
           if dst <? src then src - dst else num_nodes_ r - dst + src
       | _ => 0
       end.

(** selectRoute (a const method that fills the mutable lookup cache) *)
Definition selectRoute (r : t) (src dst : Z) : RouteDirection * t :=
  if src =? dst then (LOCAL, r)
  else
    let cache_key := generateRouteCacheKey src dst in
    match route_lookup_cache_ r !! cache_key with
    | Some d => (d, r)
    | None =>
        let cw_hops := calculateHops r src dst CLOCKWISE in
        let ccw_hops := calculateHops r src dst COUNTER_CLOCKWISE in
        let selected :=
          if cw_hops <=? ccw_hops then CLOCKWISE else COUNTER_CLOCKWISE in
        (selected,
         set_cache r (<[cache_key := selected]> (route_lookup_cache_ r)))
    end.

(** sendMessage *)
Definition sendMessage (r : t) (src_node dst_node : Z) (message : RingMessage)
    (prio : Z) : bool * t :=
  if (src_node <? 0) || (num_nodes_ r <=? src_node)
     || (dst_node <? 0) || (num_nodes_ r <=? dst_node)
  then (false, r)
  else
    match getNode r src_node with
    | None => (false, r)
    | Some src =>
        if src_node =? dst_node
        then (true,
              update_node r (Z.to_nat src_node) (fun n =>
                let n := set_ejection n (ejection_queue n ++ [message]) in
                set_stats n (messages_forwarded n) (messages_injected n)
                  (u64 (messages_ejected n + 1)) (total_latency_cycles n)))
        else
          let '(route_dir, r) := selectRoute r src_node dst_node in
          if bool_decide (route_dir = INVALID) then (false, r)
          else
            match selectOutputVC src route_dir prio with
            | None => (false, r)
            | Some vc =>
                let routed_msg :=
                  mkMsg (msg_type message) src_node dst_node
                        (total_cycles_ r) (msg_priority message)
                        (payload message) in
                (true,
                 update_node r (Z.to_nat src_node) (fun n =>
                   let n := update_vcs route_dir
                              (alter (vc_enqueue routed_msg (total_cycles_ r))
                                     vc) n in
                   set_stats n (messages_forwarded n)
                     (u64 (messages_injected n + 1)) (messages_ejected n)
                     (total_latency_cycles n)))
            end
    end.

(** receiveMessage *)
Definition receiveMessage (r : t) (id : Z) : option RingMessage * t :=
  match getNode r id with
  | None => (None, r)
  | Some node =>
      match ejection_queue node with
      | [] => (None, r)
      | message :: rest =>
          let current_cycle := total_cycles_ r in
          let latency :=
            if timestamp message <=? current_cycle
            then u64 (current_cycle - timestamp message) else 0 in
          let r := update_node r (Z.to_nat id) (fun n =>
                     let n := set_ejection n rest in
                     set_stats n (messages_forwarded n) (messages_injected n)
                       (messages_ejected n)
                       (u64 (total_latency_cycles n + latency))) in
          (Some message,
           set_clock r (total_messages_routed_ r)
             (u64 (total_latency_cycles_ r + latency))
             (total_cycles_ r) (last_stats_cycle_ r))
      end
  end.

(** vcArbitration: the lowest priority number among the channels that
    hold data, the first such channel on ties. *)
Fixpoint vcArbitration_from (i : nat) (vcs : list VirtualChannel)
    (best_vc : option nat) (highest_priority : Z) : option nat :=
  match vcs with
  | [] => best_vc
  | vc :: rest =>
      if hasData vc && (priority vc <? highest_priority)
      then vcArbitration_from (S i) rest (Some i) (priority vc)
      else vcArbitration_from (S i) rest best_vc highest_priority
  end.

Definition vcArbitration (vcs : list VirtualChannel) : option nat :=
  vcArbitration_from 0 vcs None INT_MAX.

(** forwardMessage, from the node at index [i] *)
Definition forwardMessage (r : t) (i : nat) (message : RingMessage)
    (direction : RouteDirection) : bool * t :=
  match nodes_ r !! i with
  | None => (false, r)
  | Some node =>
      let hop (next : option nat) :=
        match next with
        | None => (false, r)
        | Some j =>
            match nodes_ r !! j with
            | None => (false, r)
            | Some next_node =>
                if negb (canAcceptMessage next_node direction
                           (msg_priority message))
                then (false, r)
                else
                  match selectOutputVC next_node direction
                          (msg_priority message) with
                  | None => (false, r)
                  | Some next_vc =>
                      (true,
                       update_node r j
                         (update_vcs direction
                            (alter (vc_enqueue message (total_cycles_ r))
                                   next_vc)))
                  end
            end
        end in
      match direction with
      | CLOCKWISE => hop (next_cw node)
      | COUNTER_CLOCKWISE => hop (next_ccw node)
      | LOCAL =>
          (true,
           update_node r i
             (fun n => set_ejection n (ejection_queue n ++ [message])))
      | INVALID => (false, r)
      end
  end.

(** processDirectionVCs, on the node at index [i] *)
Definition processDirectionVCs (r : t) (i : nat)
    (direction : RouteDirection) : t :=
  match nodes_ r !! i with
  | None => r
  | Some node =>
      let vcs := getVCs node direction in
      match vcArbitration vcs with
      | None => r
      | Some selected_vc =>
          match vcs !! selected_vc with
          | None => r
          | Some vc =>
              match buffer vc with
              | [] => r
              | msg :: _ =>
                  let pop := update_vcs direction
                               (alter vc_dequeue selected_vc) in
                  if dst_unit msg =? node_id node
                  then update_node r i (fun n =>
                         let n :=
                           set_ejection n (ejection_queue n ++ [msg]) in
                         let n := pop n in
                         set_stats n (messages_forwarded n)
                           (messages_injected n)
                           (u64 (messages_ejected n + 1))
                           (total_latency_cycles n))
                  else
                    let '(next_dir, r) :=
                      selectRoute r (node_id node) (dst_unit msg) in
                    if bool_decide (next_dir = INVALID)
                    then update_node r i pop
                    else
                      let '(ok, r) := forwardMessage r i msg next_dir in
                      if ok
                      then update_node r i (fun n =>
                             let n := pop n in
                             set_stats n (u64 (messages_forwarded n + 1))
                               (messages_injected n) (messages_ejected n)
                               (total_latency_cycles n))
                      else r
              end
          end
      end
  end.

(** processInjectionQueue is a placeholder in the source. *)
Definition processInjectionQueue (r : t) (i : nat) : t := r.

(** processNodeRouting *)
Definition processNodeRouting (r : t) (id : Z) : t :=
  match getNode r id with
  | None => r
  | Some _ =>
      let i := Z.to_nat id in
      let r := processDirectionVCs r i CLOCKWISE in
      let r := processDirectionVCs r i COUNTER_CLOCKWISE in
      processInjectionQueue r i
  end.

(** updateStatistics *)
Definition updateStatistics (r : t) : t :=
  let total_routed :=
    fold_left (fun acc n =>
                 u64 (acc + u64 (messages_forwarded n + messages_ejected n)))
              (nodes_ r) 0 in
  set_clock r total_routed (total_latency_cycles_ r) (total_cycles_ r)
    (last_stats_cycle_ r).

(** tick *)
Definition tick (r : t) (current_cycle : Z) : t :=
  let r := set_clock r (total_messages_routed_ r) (total_latency_cycles_ r)
             current_cycle (last_stats_cycle_ r) in
  let r := fold_left processNodeRouting
             (map Z.of_nat (seq 0 (Z.to_nat (num_nodes_ r)))) r in
  if 1000 <=? u64 (current_cycle - last_stats_cycle_ r)
  then
    let r := updateStatistics r in
    set_clock r (total_messages_routed_ r) (total_latency_cycles_ r)
      (total_cycles_ r) current_cycle
  else r.

(** Credit conservation, per channel, per node and for the ring. *)
Definition vc_conserves (vc : VirtualChannel) : Prop :=
  Z.of_nat (length (buffer vc)) + credits vc = max_credits vc.

Definition node_conserves (n : RingNode) : Prop :=
  Forall vc_conserves (cw_vcs n) /\ Forall vc_conserves (ccw_vcs n)
  /\ Forall vc_conserves (local_vcs n).

Definition credit_conservation (r : t) : Prop :=
  Forall node_conserves (nodes_ r).

(** The direction selectRoute computes when the cache has no entry. *)
Definition shortest_direction (r : t) (src dst : Z) : RouteDirection :=
  if calculateHops r src dst CLOCKWISE
     <=? calculateHops r src dst COUNTER_CLOCKWISE
  then CLOCKWISE else COUNTER_CLOCKWISE.

(** Well-formedness of a ring state: the [int] fields hold [int] values,
    every channel conserves its credits, and the lookup cache agrees
    with the computation on the node pairs of the ring. *)
Definition vc_ok (vc : VirtualChannel) : Prop :=
  vc_conserves vc /\ Forall (fun m => is_int (dst_unit m)) (buffer vc).

Definition node_ok (n : RingNode) : Prop :=
  is_int (node_id n) /\ Forall vc_ok (cw_vcs n) /\ Forall vc_ok (ccw_vcs n)
  /\ Forall vc_ok (local_vcs n).

Definition cache_sound (r : t) : Prop :=
  forall src dst d,
    0 <= src < num_nodes_ r -> 0 <= dst < num_nodes_ r -> src <> dst ->
    route_lookup_cache_ r !! generateRouteCacheKey src dst = Some d ->
    d = shortest_direction r src dst.

Definition ring_ok (r : t) : Prop :=
  is_int (num_nodes_ r) /\ Forall node_ok (nodes_ r) /\ cache_sound r.

(** The states a ring can be in: built by the constructor, then driven
    through its public operations. *)
Inductive reachable : t -> Prop :=
| reach_new num_nodes num_vcs credits_per_vc output r :
    is_int num_nodes -> is_u32 credits_per_vc ->
    new num_nodes num_vcs credits_per_vc output = Some r ->
    reachable r
| reach_send r src dst message prio :
    reachable r -> is_int src -> is_int dst ->
    reachable (sendMessage r src dst message prio).2
| reach_receive r id :
    reachable r -> reachable (receiveMessage r id).2
| reach_tick r current_cycle :
    reachable r -> reachable (tick r current_cycle)
| reach_route r src dst :
    reachable r -> is_int src -> is_int dst ->
    reachable (selectRoute r src dst).2.

(** hasTrafficForNode *)
Definition hasTrafficForNode (r : t) (id : Z) : bool :=
  match getNode r id with
  | None => false
  | Some node => negb (bool_decide (ejection_queue node = []))
  end.

(** getPendingMessageCount.  The [int] total is the mathematical sum as
    long as fewer than [2^31] messages are in the ring. *)
Definition count_vcs (vcs : list VirtualChannel) (total : Z) : Z :=
  fold_left (fun total vc => total + Z.of_nat (length (buffer vc))) vcs total.

Definition count_node (total : Z) (node : RingNode) : Z :=
  let total := count_vcs (cw_vcs node) total in
  let total := count_vcs (ccw_vcs node) total in
  let total := count_vcs (local_vcs node) total in
  let total := total + Z.of_nat (length (injection_queue node)) in
  total + Z.of_nat (length (ejection_queue node)).

Definition getPendingMessageCount (r : t) : Z :=
  fold_left count_node (nodes_ r) 0.

(** detectDeadlock: a clockwise channel that holds data and has no space
    starts a scan of every clockwise channel of the ring. *)
Definition vc_blocked (vc : VirtualChannel) : bool :=
  hasData vc && negb (hasSpace vc).

Definition detectDeadlock (r : t) : bool :=
  existsb (fun node =>
             existsb (fun vc =>
                        vc_blocked vc
                        && forallb (fun other_node =>
                                      forallb vc_blocked (cw_vcs other_node))
                             (nodes_ r))
                     (cw_vcs node))
          (nodes_ r).

(** checkCredit and updateCredit *)
Definition checkCredit (r : t) (id : Z) (direction : RouteDirection)
    (vc : Z) : bool :=
  match getNode r id with
  | None => false
  | Some node =>
      let vcs := getVCs node direction in
      if (vc <? 0) || (Z.of_nat (length vcs) <=? vc) then false
      else match vcs !! Z.to_nat vc with
           | Some c => 0 <? credits c
           | None => false
           end
  end.

Definition updateCredit (r : t) (id : Z) (direction : RouteDirection)
    (vc : Z) (increment : bool) : t :=
  match getNode r id with
  | None => r
  | Some node =>
      let vcs := getVCs node direction in
      if (vc <? 0) || (Z.of_nat (length vcs) <=? vc) then r
      else update_node r (Z.to_nat id)
             (update_vcs direction
                (alter (if increment then returnCredit else consumeCredit)
                       (Z.to_nat vc)))
  end.

(** Every cached direction is a ring direction. *)
Definition cache_directed (r : t) : Prop :=
  forall key d, route_lookup_cache_ r !! key = Some d ->
                d = CLOCKWISE \/ d = COUNTER_CLOCKWISE.

End OptimizedInternalRing.

(** ** SnnNIC: the network interface controller (SnnNIC.cc)

    The link control block behind [network] belongs to the simulator core.
    It is taken through the interface [SimpleNetwork]: a state with the two
    calls the NIC makes on it. *)

Module SnnNIC.

Record SpikePayload (W : Type) : Type := mkPayload {
  src_neuron_id : Z;
  dest_neuron_id : Z;
  payload_timestamp : Z;
  payload_weight : W
}.
Arguments mkPayload {W}.

Record Request (W : Type) : Type := mkReq {
  dest : Z;
  src : Z;
  vn : Z;
  size_in_bits : Z;
  head : bool;
  tail : bool;
  allow_adaptive : bool;
  payload : SpikePayload W
}.
Arguments mkReq {W}.
Arguments size_in_bits {W}.

Class SimpleNetwork (W N : Type) : Type := {
  spaceToSend : N -> Z -> Z -> bool;
  send : N -> Request W -> Z -> bool * N
}.

Section WithNetwork.
Context {W N : Type} `{SimpleNetwork W N}.
(** [sizeof(SpikePayload)] and the narrowing of the [double] weight to
    the [float] field of the payload. *)
Variable sizeof_SpikePayload : Z.
Variable float_of_double : W -> W.

Record t : Type := mk {
  node_id : Z;                   (* uint32_t *)
  output_buf_size : Z;           (* bytes of the configured size string *)
  use_direct_link : bool;
  direct_link : bool;            (* pointer: set or null *)
  network : option N;            (* pointer: set or null *)
  spike_handler : bool;          (* std::function: set or empty *)
  spikes_sent_count : Z;
  packets_sent_count : Z;
  stat_spikes_sent : Z;
  stat_packets_sent : Z;
  pending_spikes : list (SpikeEvent.t W);
  (* effects *)
  delivered : list (SpikeEvent.t W);   (* spike_handler(spike) *)
  link_sent : list (SpikeEvent.t W);   (* direct_link->send *)
  net_sent : list (Request W)          (* accepted by network->send *)
}.

Definition set_network (nic : t) (net : option N) : t :=
  mk (node_id nic) (output_buf_size nic) (use_direct_link nic)
     (direct_link nic) net (spike_handler nic)
     (spikes_sent_count nic) (packets_sent_count nic)
     (stat_spikes_sent nic) (stat_packets_sent nic) (pending_spikes nic)
     (delivered nic) (link_sent nic) (net_sent nic).

Definition set_sent_counts (nic : t) (ss ps sss sps : Z) : t :=
  mk (node_id nic) (output_buf_size nic) (use_direct_link nic)
     (direct_link nic) (network nic) (spike_handler nic)
     ss ps sss sps (pending_spikes nic)
     (delivered nic) (link_sent nic) (net_sent nic).

Definition set_pending (nic : t) (q : list (SpikeEvent.t W)) : t :=
  mk (node_id nic) (output_buf_size nic) (use_direct_link nic)
     (direct_link nic) (network nic) (spike_handler nic)
     (spikes_sent_count nic) (packets_sent_count nic)
     (stat_spikes_sent nic) (stat_packets_sent nic) q
     (delivered nic) (link_sent nic) (net_sent nic).

Definition set_effects (nic : t) (d l : list (SpikeEvent.t W))
    (n : list (Request W)) : t :=
  mk (node_id nic) (output_buf_size nic) (use_direct_link nic)
     (direct_link nic) (network nic) (spike_handler nic)
     (spikes_sent_count nic) (packets_sent_count nic)
     (stat_spikes_sent nic) (stat_packets_sent nic) (pending_spikes nic)
     d l n.

(** createNetworkRequest, for a non-null event *)
Definition createNetworkRequest (nic : t) (spike_event : SpikeEvent.t W)
    (dest_node : Z) : Request W :=
  mkReq dest_node (node_id nic) 0 (sizeof_SpikePayload * 8) true true true
    (mkPayload (SpikeEvent.neuron_id spike_event)
       (SpikeEvent.dest_neuron spike_event)
       (SpikeEvent.timestamp spike_event)
       (float_of_double (SpikeEvent.weight spike_event))).

(** The test "local message" at the head of sendSpike. *)
Definition is_local (nic : t) (spike_event : SpikeEvent.t W) : bool :=
  (SpikeEvent.dest_node spike_event =? node_id nic)
  && (SpikeEvent.neuron_id spike_event =? SpikeEvent.dest_neuron spike_event).

Definition count_sent (nic : t) : t :=
  set_sent_counts nic (u64 (spikes_sent_count nic + 1))
    (u64 (packets_sent_count nic + 1))
    (u64 (stat_spikes_sent nic + 1)) (u64 (stat_packets_sent nic + 1)).

(** sendSpike; the argument is a pointer, [None] for null *)
Definition sendSpike (nic : t) (spike_event : option (SpikeEvent.t W)) : t :=
  match spike_event with
  | None => nic
  | Some ev =>
      let dest_node := SpikeEvent.dest_node ev in
      if is_local nic ev then
        if spike_handler nic
        then set_effects nic (delivered nic ++ [ev]) (link_sent nic)
               (net_sent nic)
        else nic
      else if use_direct_link nic && direct_link nic then
        count_sent
          (set_effects nic (delivered nic) (link_sent nic ++ [ev])
             (net_sent nic))
      else
        match network nic with
        | Some net =>
            if use_direct_link nic then nic
            else
              let req := createNetworkRequest nic ev dest_node in
              if spaceToSend net 0 (size_in_bits req) then
                let '(ok, net') := send net req 0 in
                let nic := set_network nic (Some net') in
                if ok
                then count_sent
                       (set_effects nic (delivered nic) (link_sent nic)
                          (net_sent nic ++ [req]))
                else set_pending nic (pending_spikes nic ++ [ev])
              else set_pending nic (pending_spikes nic ++ [ev])
        | None => nic
        end
  end.

(** The while loop of spaceAvailable over the queue [q]; it returns the
    network, the queue that is left and the requests that went out. *)
Fixpoint drain (nic : t) (vn : Z) (net : N) (q : list (SpikeEvent.t W))
    : N * list (SpikeEvent.t W) * list (Request W) :=
  match q with
  | [] => (net, [], [])
  | spike :: rest =>
      if spaceToSend net vn 1 then
        let req := createNetworkRequest nic spike (SpikeEvent.dest_node spike) in
        if spaceToSend net vn (size_in_bits req) then
          let '(ok, net') := send net req vn in
          if ok then
            let '(net'', q', out) := drain nic vn net' rest in
            (net'', q', req :: out)
          else (net', rest ++ [spike], [])
        else (net, rest ++ [spike], [])
      else (net, q, [])
  end.

(** spaceAvailable *)
Definition spaceAvailable (nic : t) (vn : Z) : t :=
  match network nic with
  | None => nic
  | Some net =>
      let '(net', q', out) := drain nic vn net (pending_spikes nic) in
      let k := Z.of_nat (length out) in
      let nic := set_network nic (Some net') in
      let nic := set_pending nic q' in
      let nic := set_effects nic (delivered nic) (link_sent nic)
                   (net_sent nic ++ out) in
      set_sent_counts nic (spikes_sent_count nic) (packets_sent_count nic)
        (u64 (stat_spikes_sent nic + k)) (u64 (stat_packets_sent nic + k))
  end.

(** The answer of the network to the guard of sendSpike,
    [spaceToSend(0, bits) && send(req, 0)], negated. *)
Definition refuses (net : N) (req : Request W) : bool :=
  negb (spaceToSend net 0 (size_in_bits req)) || negb (send net req 0).1.

(** The answer of the network to the guard of the retry in
    spaceAvailable, [spaceToSend(vn, bits) && send(req, vn)]. *)
Definition accepts (vn : Z) (net : N) (req : Request W) : bool :=
  spaceToSend net vn (size_in_bits req) && (send net req vn).1.

(** The link control block after [send(req, vn)] was called on it for each
    of the requests [reqs], in order. *)
Definition after_sends (vn : Z) (net : N) (reqs : list (Request W)) : N :=
  fold_left (fun n req => (send n req vn).2) reqs net.

(** extractSpikeEvent; the argument is a pointer, [None] for null.  The
    event is built by [SpikeEvent()], so [hop_count] has its default 0;
    the [float] weight of the payload widens to [double] unchanged. *)
Definition extractSpikeEvent (req : option (Request W))
    : option (SpikeEvent.t W) :=
  match req with
  | None => None
  | Some req =>
      Some (SpikeEvent.mk (src_neuron_id _ (payload _ req))
              (payload_timestamp _ (payload _ req)) 0
              (dest_neuron_id _ (payload _ req)) (u32 (dest _ req))
              (payload_weight _ (payload _ req)))
  end.

End WithNetwork.
Arguments t W N : clear implicits.

(** A link control block with a number of free send slots, to run the
    model on. *)
Record SlotNet : Type := mkSlotNet { free_slots : nat }.

#[global] Instance SlotNet_network {W} : SimpleNetwork W SlotNet := {|
  spaceToSend := fun n _ _ => (0 <? free_slots n)%nat;
  send := fun n _ _ =>
    match free_slots n with
    | O => (false, n)
    | S k => (true, mkSlotNet k)
    end
|}.

End SnnNIC.

(** ** SpikeSource: the text trace loader (SpikeSource.cc)

    The file is the list of the lines that [std::getline] yields.  The
    extraction [iss >> neuron_id >> timestamp] follows the standard
    library: leading white space is skipped, a sign is accepted, at least
    one decimal digit is required, and a magnitude beyond the range of
    the type fails the extraction. *)

Module SpikeSource.

Record SpikeData : Type := mkSpikeData {
  neuron_id : Z;     (* uint32_t *)
  timestamp : Z      (* uint64_t *)
}.

Record t : Type := mk {
  time_scale : Q;            (* float *)
  neuron_offset : Z;         (* uint32_t *)
  max_events : Z;            (* uint32_t *)
  neurons_per_core : Z;      (* uint32_t *)
  spike_queue : list SpikeData;  (* contents, in the order of the pushes *)
  events_loaded_count : Z;   (* uint64_t *)
  format_errors : list Z     (* line numbers reported as malformed *)
}.

Definition push_event (s : t) (d : SpikeData) : t :=
  mk (time_scale s) (neuron_offset s) (max_events s) (neurons_per_core s)
     (spike_queue s ++ [d]) (u64 (events_loaded_count s + 1))
     (format_errors s).

Definition report_error (s : t) (line_count : Z) : t :=
  mk (time_scale s) (neuron_offset s) (max_events s) (neurons_per_core s)
     (spike_queue s) (events_loaded_count s)
     (format_errors s ++ [line_count]).

Definition code (c : ascii) : Z := Z.of_nat (nat_of_ascii c).

Definition is_space (c : ascii) : bool :=
  (code c =? 32) || ((9 <=? code c) && (code c <=? 13)).

Definition digit_of (c : ascii) : option Z :=
  if (48 <=? code c) && (code c <=? 57) then Some (code c - 48) else None.

Fixpoint skip_ws (s : list ascii) : list ascii :=
  match s with
  | c :: r => if is_space c then skip_ws r else s
  | [] => []
  end.

Fixpoint read_digits (s : list ascii) (acc : Z) (any : bool)
    : Z * bool * list ascii :=
  match s with
  | c :: r =>
      match digit_of c with
      | Some d => read_digits r (10 * acc + d) true
      | None => (acc, any, s)
      end
  | [] => (acc, any, [])
  end.

(** operator>> on an unsigned integer of [bits] bits *)
Definition extract_unsigned (bits : Z) (s : list ascii)
    : option (Z * list ascii) :=
  let s := skip_ws s in
  let '(negative, s) :=
    match s with
    | c :: r => if code c =? 43 then (false, r)
                else if code c =? 45 then (true, r)
                else (false, s)
    | [] => (false, s)
    end in
  let '(v, any, rest) := read_digits s 0 false in
  if negb any then None
  else if 2 ^ bits <=? v then None
  else Some (if negative then (- v) mod 2 ^ bits else v, rest).

(** [iss >> neuron_id >> timestamp] *)
Definition parse_record (line : string) : option (Z * Z) :=
  '(neuron_id, rest) ← extract_unsigned 32 (list_ascii_of_string line);
  '(timestamp, _) ← extract_unsigned 64 rest;
  Some (neuron_id, timestamp).

Definition is_skipped (line : string) : bool :=
  match line with
  | EmptyString => true
  | String c _ => code c =? 35
  end.

(** The neuron-id filter of loadTextFormat. *)
Definition should_load_event (s : t) (neuron_id : Z) : bool :=
  if neuron_offset s =? 0 then true
  else
    let neurons_per_node := 2 in
    let start_neuron := neuron_offset s in
    let end_neuron := u32 (start_neuron + neurons_per_node) in
    (start_neuron <=? neuron_id) && (neuron_id <? end_neuron).

(** The loop of loadTextFormat. *)
Fixpoint load_lines (s : t) (lines : list string)
    (line_count events_count : Z) : t :=
  match lines with
  | [] => s
  | line :: rest =>
      if (max_events s =? 0) || (events_count <? max_events s) then
        let line_count := u32 (line_count + 1) in
        if is_skipped line then load_lines s rest line_count events_count
        else
          match parse_record line with
          | None =>
              load_lines (report_error s line_count) rest line_count
                events_count
          | Some (neuron_id, timestamp) =>
              if should_load_event s neuron_id then
                let adjusted_timestamp := timestamp in
                load_lines
                  (push_event s (mkSpikeData neuron_id adjusted_timestamp))
                  rest line_count (u32 (events_count + 1))
              else load_lines s rest line_count events_count
          end
      else s
  end.

(** What one line contributes to the queue. *)
Definition accepted_record (s : t) (line : string) : option SpikeData :=
  if is_skipped line then None
  else
    match parse_record line with
    | Some (neuron_id, timestamp) =>
        if should_load_event s neuron_id
        then Some (mkSpikeData neuron_id timestamp)
        else None
    | None => None
    end.

(** loadTextFormat; [None] is a file that cannot be opened *)
Definition loadTextFormat (s : t) (file : option (list string)) : bool * t :=
  match file with
  | None => (false, s)
  | Some lines => (true, load_lines s lines 0 0)
  end.

(** convertToSimTime: [static_cast<uint64_t>(data_timestamp * time_scale)],
    on exact rationals.  The code multiplies in single precision, so the
    two agree where the product is exact in [float] (operands and product
    below [2 ^ 24], as where it is used below) and may differ beyond. *)
Definition convertToSimTime (s : t) (data_timestamp : Z) : Z :=
  let p := (inject_Z data_timestamp * time_scale s)%Q in
  u64 (Z.quot (Qnum p) (Z.pos (Qden p))).

End SpikeSource.

(** ** MultiCorePE: the constructor's parameter validation
    (MultiCorePE.cc) *)

Module MultiCorePE.

(** The two entries of [Params] the validation reads; [None] is an
    absent key, for which [find] returns the default. *)
Record Params : Type := mkParams {
  p_num_cores : option Z;
  p_neurons_per_core : option Z
}.

Record ProcessingUnitState : Type := mkUnit {
  unit_id : Z;
  neuron_id_start : Z;
  neuron_count : Z;
  is_active : bool;
  spikes_processed : Z;
  neurons_fired : Z
}.

Record t : Type := mk {
  num_cores_ : Z;            (* int *)
  neurons_per_core_ : Z;     (* int *)
  total_neurons_ : Z;        (* int *)
  unit_states_ : list ProcessingUnitState
}.

Inductive fatal : Type :=
| BadNumCores (value : Z)
| BadNeuronsPerCore (value : Z).

Definition wrap_int (x : Z) : Z := (x + 2 ^ 31) mod 2 ^ 32 - 2 ^ 31.

Definition find_int (o : option Z) (default : Z) : Z :=
  match o with Some v => v | None => default end.

(** The constructor up to the initialisation of [unit_states_];
    [output_->fatal] ends the process. *)
Definition construct (params : Params) : fatal + t :=
  let num_cores := find_int (p_num_cores params) 4 in
  let neurons_per_core := find_int (p_neurons_per_core params) 64 in
  let total_neurons := wrap_int (num_cores * neurons_per_core) in
  if (num_cores <=? 0) || (64 <? num_cores)
  then inl (BadNumCores num_cores)
  else if (neurons_per_core <=? 0) || (1024 <? neurons_per_core)
  then inl (BadNeuronsPerCore neurons_per_core)
  else
    inr (mk num_cores neurons_per_core total_neurons
           (map (fun i =>
                   mkUnit (Z.of_nat i) (Z.of_nat i * neurons_per_core)
                     neurons_per_core false 0 0)
                (seq 0 (Z.to_nat num_cores)))).

Definition aborts (params : Params) : Prop :=
  exists e, construct params = inl e.

End MultiCorePE.

(** ** MultiCorePE: spike routing of the running component (MultiCorePE.cc)

    The fields the routing functions read and write; [config] is the
    part the constructor validates.  Links, the NIC and the cores are
    pointers (set or null) whose calls are logged. *)

Module MultiCorePERouting.

Record t (W : Type) : Type := mk {
  config : MultiCorePE.t;
  node_id_ : Z;                          (* int *)
  global_neuron_base_ : Z;               (* uint64_t *)
  cores_ : list bool;
  external_nic_ : bool;
  external_spike_output_link_ : bool;
  external_spike_queue_ : list (SpikeEvent.t W);
  current_cycle_ : Z;                    (* uint64_t *)
  test_target_node_ : Z;                 (* int *)
  test_period_ : Z;                      (* int *)
  test_spikes_per_burst_ : Z;            (* int *)
  test_weight_ : W;
  test_max_spikes_ : Z;                  (* int *)
  test_cycle_counter_ : Z;               (* uint64_t *)
  test_spikes_sent_ : Z;                 (* int *)
  stat_external_spikes_received_ : Z;
  stat_external_spikes_sent_ : Z;
  stat_spikes_processed_ : Z;
  (* effects *)
  core_delivered : list (Z * SpikeEvent.t W);  (* cores_[i]->deliverSpike *)
  nic_sent : list (SpikeEvent.t W);            (* external_nic_->sendSpike *)
  link_sent : list (SpikeEvent.t W)            (* output link ->send *)
}.
Arguments mk {W}.
Arguments config {W}.
Arguments node_id_ {W}.
Arguments global_neuron_base_ {W}.
Arguments cores_ {W}.
Arguments external_nic_ {W}.
Arguments external_spike_output_link_ {W}.
Arguments external_spike_queue_ {W}.
Arguments current_cycle_ {W}.
Arguments test_target_node_ {W}.
Arguments test_period_ {W}.
Arguments test_spikes_per_burst_ {W}.
Arguments test_weight_ {W}.
Arguments test_max_spikes_ {W}.
Arguments test_cycle_counter_ {W}.
Arguments test_spikes_sent_ {W}.
Arguments stat_external_spikes_received_ {W}.
Arguments stat_external_spikes_sent_ {W}.
Arguments stat_spikes_processed_ {W}.
Arguments core_delivered {W}.
Arguments nic_sent {W}.
Arguments link_sent {W}.

Section WithWeight.
Context {W : Type}.

Definition num_cores (pe : t W) : Z := MultiCorePE.num_cores_ (config pe).
Definition neurons_per_core (pe : t W) : Z := MultiCorePE.neurons_per_core_ (config pe).
Definition total_neurons (pe : t W) : Z := MultiCorePE.total_neurons_ (config pe).

(** SpikeEvent::incrementHopCount *)
Definition incrementHopCount (s : SpikeEvent.t W) : SpikeEvent.t W :=
  SpikeEvent.mk (SpikeEvent.neuron_id s) (SpikeEvent.timestamp s)
    (u32 (SpikeEvent.hop_count s + 1)) (SpikeEvent.dest_neuron s)
    (SpikeEvent.dest_node s) (SpikeEvent.weight s).

(** determineTargetUnit *)
Definition determineTargetUnit (pe : t W) (neuron_id : Z) : Z :=
  let local_neuron_id :=
    MultiCorePE.wrap_int (neuron_id - MultiCorePE.wrap_int (global_neuron_base_ pe)) in
  if (local_neuron_id <? 0) || (total_neurons pe <=? local_neuron_id)
  then -1
  else
    let target_unit := Z.quot local_neuron_id (neurons_per_core pe) in
    if (0 <=? target_unit) && (target_unit <? num_cores pe)
    then target_unit else -1.


Definition set_units (pe : t W) (units : list MultiCorePE.ProcessingUnitState)
    (processed : Z) (delivered : list (Z * SpikeEvent.t W)) : t W :=
  mk (MultiCorePE.mk (num_cores pe) (neurons_per_core pe) (total_neurons pe)
        units)
     (node_id_ pe) (global_neuron_base_ pe) (cores_ pe) (external_nic_ pe)
     (external_spike_output_link_ pe) (external_spike_queue_ pe)
     (current_cycle_ pe) (test_target_node_ pe) (test_period_ pe)
     (test_spikes_per_burst_ pe) (test_weight_ pe) (test_max_spikes_ pe)
     (test_cycle_counter_ pe) (test_spikes_sent_ pe)
     (stat_external_spikes_received_ pe) (stat_external_spikes_sent_ pe)
     processed delivered (nic_sent pe) (link_sent pe).

Definition set_external (pe : t W) (queue : list (SpikeEvent.t W))
    (received sent : Z) (nic link : list (SpikeEvent.t W)) : t W :=
  mk (config pe) (node_id_ pe) (global_neuron_base_ pe) (cores_ pe)
     (external_nic_ pe) (external_spike_output_link_ pe) queue
     (current_cycle_ pe) (test_target_node_ pe) (test_period_ pe)
     (test_spikes_per_burst_ pe) (test_weight_ pe) (test_max_spikes_ pe)
     (test_cycle_counter_ pe) (test_spikes_sent_ pe)
     received sent (stat_spikes_processed_ pe)
     (core_delivered pe) nic link.

Definition set_test (pe : t W) (counter sent : Z) : t W :=
  mk (config pe) (node_id_ pe) (global_neuron_base_ pe) (cores_ pe)
     (external_nic_ pe) (external_spike_output_link_ pe)
     (external_spike_queue_ pe)
     (current_cycle_ pe) (test_target_node_ pe) (test_period_ pe)
     (test_spikes_per_burst_ pe) (test_weight_ pe) (test_max_spikes_ pe)
     counter sent
     (stat_external_spikes_received_ pe) (stat_external_spikes_sent_ pe)
     (stat_spikes_processed_ pe)
     (core_delivered pe) (nic_sent pe) (link_sent pe).

(** deliverSpikeToCore; [cores_] and [MultiCorePE.unit_states_] have [MultiCorePE.num_cores_]
    entries. *)
Definition deliverSpikeToCore (pe : t W) (core_id : Z)
    (spike : option (SpikeEvent.t W)) : t W :=
  match spike with
  | None => pe
  | Some spike =>
      if (core_id <? 0) || (num_cores pe <=? core_id) then pe
      else if negb (default false (cores_ pe !! Z.to_nat core_id)) then pe
      else
        set_units pe
          (alter (fun u =>
                    MultiCorePE.mkUnit (MultiCorePE.unit_id u) (MultiCorePE.neuron_id_start u) (MultiCorePE.neuron_count u)
                      (MultiCorePE.is_active u) (u64 (MultiCorePE.spikes_processed u + 1))
                      (MultiCorePE.neurons_fired u))
                 (Z.to_nat core_id) (MultiCorePE.unit_states_ (config pe)))
          (u64 (stat_spikes_processed_ pe + 1))
          (core_delivered pe ++ [(core_id, spike)])
  end.

(** sendExternalSpike *)
Definition sendExternalSpike (pe : t W) (spike : option (SpikeEvent.t W))
    : t W :=
  match spike with
  | None => pe
  | Some spike =>
      let target_node := MultiCorePE.wrap_int (SpikeEvent.dest_node spike) in
      if target_node =? node_id_ pe then pe
      else if external_nic_ pe then
        set_external pe (external_spike_queue_ pe)
          (stat_external_spikes_received_ pe)
          (u64 (stat_external_spikes_sent_ pe + 1))
          (nic_sent pe ++ [spike]) (link_sent pe)
      else if external_spike_output_link_ pe then
        set_external pe (external_spike_queue_ pe)
          (stat_external_spikes_received_ pe)
          (u64 (stat_external_spikes_sent_ pe + 1))
          (nic_sent pe) (link_sent pe ++ [spike])
      else pe
  end.

(** handleExternalSpikeEvent; [None] is an event that is not a
    SpikeEvent. *)
Definition handleExternalSpikeEvent (pe : t W)
    (ev : option (SpikeEvent.t W)) : t W :=
  match ev with
  | None => pe
  | Some spike =>
      if SpikeEvent.isExpired spike then pe
      else
        let spike := incrementHopCount spike in
        let pe :=
          set_external pe (external_spike_queue_ pe)
            (u64 (stat_external_spikes_received_ pe + 1))
            (stat_external_spikes_sent_ pe) (nic_sent pe) (link_sent pe) in
        let dest_node := SpikeEvent.dest_node spike in
        if dest_node =? u32 (node_id_ pe) then
          set_external pe (external_spike_queue_ pe ++ [spike])
            (stat_external_spikes_received_ pe)
            (stat_external_spikes_sent_ pe) (nic_sent pe) (link_sent pe)
        else
          let target_unit :=
            determineTargetUnit pe (MultiCorePE.wrap_int (SpikeEvent.dest_neuron spike)) in
          if (0 <=? target_unit) && (target_unit <? num_cores pe) then
            let cross_core_spike :=
              SpikeEvent.mk (SpikeEvent.neuron_id spike)
                (SpikeEvent.timestamp spike) (SpikeEvent.hop_count spike)
                (SpikeEvent.dest_neuron spike) (SpikeEvent.dest_node spike)
                (SpikeEvent.weight spike) in
            deliverSpikeToCore pe target_unit (Some cross_core_spike)
          else if external_nic_ pe then sendExternalSpike pe (Some spike)
          else pe
  end.

(** The body of the for loop of generateTestTraffic. *)
Definition send_test_spike (pe : t W) (i : Z) : t W :=
  let src_neuron :=
    MultiCorePE.wrap_int (MultiCorePE.wrap_int (node_id_ pe * total_neurons pe)
              + Z.rem i (total_neurons pe)) in
  let dst_neuron :=
    MultiCorePE.wrap_int (MultiCorePE.wrap_int (test_target_node_ pe * total_neurons pe)
              + Z.rem i (total_neurons pe)) in
  let test_spike :=
    SpikeEvent.make (u32 src_neuron) (u32 dst_neuron)
      (u32 (test_target_node_ pe)) (test_weight_ pe) (current_cycle_ pe) in
  let pe := sendExternalSpike pe (Some test_spike) in
  set_test pe (test_cycle_counter_ pe) (MultiCorePE.wrap_int (test_spikes_sent_ pe + 1)).

(** generateTestTraffic *)
Definition generateTestTraffic (pe : t W) : t W :=
  if (0 <? test_max_spikes_ pe)
     && (test_max_spikes_ pe <=? test_spikes_sent_ pe)
  then pe
  else
    let pe := set_test pe (u64 (test_cycle_counter_ pe + 1))
                (test_spikes_sent_ pe) in
    if u64 (test_period_ pe) <=? test_cycle_counter_ pe then
      let pe := set_test pe 0 (test_spikes_sent_ pe) in
      let spikes_to_send :=
        if 0 <? test_max_spikes_ pe
        then Z.min (test_spikes_per_burst_ pe)
               (MultiCorePE.wrap_int (test_max_spikes_ pe - test_spikes_sent_ pe))
        else test_spikes_per_burst_ pe in
      if 0 <? spikes_to_send
      then fold_left send_test_spike
             (map Z.of_nat (seq 0 (Z.to_nat spikes_to_send))) pe
      else pe
    else pe.

End WithWeight.
End MultiCorePERouting.

(** ** SpikeMUX: forwarding between processing elements (SpikeMUX.cc) *)

Module SpikeMUX.

Record Pending (W : Type) : Type := mkPending {
  ev : SpikeEvent.t W;
  ready_cycle : Z;      (* uint64_t *)
  out_port : Z          (* int *)
}.
Arguments mkPending {W}.
Arguments ev {W}.
Arguments ready_cycle {W}.
Arguments out_port {W}.

Record t (W : Type) : Type := mk {
  num_ports_ : Z;                       (* int *)
  per_pe_neurons_ : Z;                  (* uint64_t *)
  max_queue_depth_ : Z;                 (* uint32_t *)
  fwd_latency_cycles_ : Z;              (* uint32_t *)
  use_dest_node_first_ : bool;
  out_links_ : list bool;               (* pointers: set or null *)
  out_queues_ : list (list (Pending W));
  current_cycle_ : Z;                   (* uint64_t *)
  queue_peak_ : Z;                      (* uint32_t *)
  stat_forwarded_ : Z;
  stat_dropped_ : Z;
  (* effects: out_links_[p]->send(ev) *)
  sent : list (Z * SpikeEvent.t W)
}.
Arguments mk {W}.
Arguments num_ports_ {W}.
Arguments per_pe_neurons_ {W}.
Arguments max_queue_depth_ {W}.
Arguments fwd_latency_cycles_ {W}.
Arguments use_dest_node_first_ {W}.
Arguments out_links_ {W}.
Arguments out_queues_ {W}.
Arguments current_cycle_ {W}.
Arguments queue_peak_ {W}.
Arguments stat_forwarded_ {W}.
Arguments stat_dropped_ {W}.
Arguments sent {W}.

Section WithWeight.
Context {W : Type}.

Definition drop_spike (m : t W) : t W :=
  mk (num_ports_ m) (per_pe_neurons_ m) (max_queue_depth_ m)
     (fwd_latency_cycles_ m) (use_dest_node_first_ m) (out_links_ m)
     (out_queues_ m) (current_cycle_ m) (queue_peak_ m) (stat_forwarded_ m)
     (u64 (stat_dropped_ m + 1)) (sent m).

Definition forward_spike (m : t W) (port : Z) (e : SpikeEvent.t W) : t W :=
  mk (num_ports_ m) (per_pe_neurons_ m) (max_queue_depth_ m)
     (fwd_latency_cycles_ m) (use_dest_node_first_ m) (out_links_ m)
     (out_queues_ m) (current_cycle_ m) (queue_peak_ m)
     (u64 (stat_forwarded_ m + 1)) (stat_dropped_ m) (sent m ++ [(port, e)]).

Definition set_queues (m : t W) (qs : list (list (Pending W))) (peak : Z)
    : t W :=
  mk (num_ports_ m) (per_pe_neurons_ m) (max_queue_depth_ m)
     (fwd_latency_cycles_ m) (use_dest_node_first_ m) (out_links_ m)
     qs (current_cycle_ m) peak (stat_forwarded_ m) (stat_dropped_ m)
     (sent m).

Definition set_cycle (m : t W) (cycle : Z) : t W :=
  mk (num_ports_ m) (per_pe_neurons_ m) (max_queue_depth_ m)
     (fwd_latency_cycles_ m) (use_dest_node_first_ m) (out_links_ m)
     (out_queues_ m) cycle (queue_peak_ m) (stat_forwarded_ m)
     (stat_dropped_ m) (sent m).

(** selectPortForDestination *)
Definition selectPortForDestination (m : t W) (dest_global dest_node : Z)
    : Z :=
  if (per_pe_neurons_ m =? 0) || (num_ports_ m <=? 0) then -1
  else
    let calc_index64 := dest_global / per_pe_neurons_ m in
    let calc_index :=
      if calc_index64 <? u64 (num_ports_ m) then calc_index64 else -1 in
    if use_dest_node_first_ m then
      if dest_node <? u32 (num_ports_ m) then
        let node_index := dest_node in
        if (0 <=? calc_index) && (node_index =? calc_index) then node_index
        else calc_index
      else calc_index
    else calc_index.

(** handleInbound; [None] is an event that is not a SpikeEvent.  The
    vectors have [num_ports_] entries, so the lookups below are in
    range. *)
Definition handleInbound (m : t W) (sev : option (SpikeEvent.t W)) : t W :=
  match sev with
  | None => m
  | Some sev =>
      let dest := SpikeEvent.dest_neuron sev in
      let dest_node := SpikeEvent.dest_node sev in
      let out_port := selectPortForDestination m dest dest_node in
      if (out_port <? 0) || (num_ports_ m <=? out_port)
         || negb (default false (out_links_ m !! Z.to_nat out_port))
      then drop_spike m
      else if fwd_latency_cycles_ m =? 0
      then forward_spike m out_port sev
      else
        let q := default [] (out_queues_ m !! Z.to_nat out_port) in
        if (0 <? max_queue_depth_ m)
           && (max_queue_depth_ m <=? Z.of_nat (length q))
        then drop_spike m
        else
          let p := mkPending sev
                     (u64 (current_cycle_ m + fwd_latency_cycles_ m))
                     out_port in
          let q := q ++ [p] in
          set_queues m (<[Z.to_nat out_port := q]> (out_queues_ m))
            (if queue_peak_ m <? Z.of_nat (length q)
             then u32 (Z.of_nat (length q)) else queue_peak_ m)
  end.

(** The while loop of onClockTick on one queue: the entries that leave
    and the queue that stays. *)
Fixpoint release (cycle : Z) (q : list (Pending W))
    : list (Pending W) * list (Pending W) :=
  match q with
  | [] => ([], [])
  | item :: rest =>
      if ready_cycle item <=? cycle
      then let '(out, q') := release cycle rest in (item :: out, q')
      else ([], q)
  end.

(** One iteration of the for loop of onClockTick. *)
Definition tick_port (m : t W) (p : nat) : t W :=
  let '(out, q') := release (current_cycle_ m)
                      (default [] (out_queues_ m !! p)) in
  let m := set_queues m (<[p := q']> (out_queues_ m)) (queue_peak_ m) in
  if default false (out_links_ m !! p)
  then fold_left (fun m item => forward_spike m (Z.of_nat p) (ev item)) out m
  else m.

(** onClockTick *)
Definition onClockTick (m : t W) (cycle : Z) : t W :=
  fold_left tick_port (seq 0 (Z.to_nat (num_ports_ m))) (set_cycle m cycle).

(** The state the constructor leaves: one link slot and one queue per
    port. *)
Definition ports_ok (m : t W) : Prop :=
  is_int (num_ports_ m) /\
  length (out_links_ m) = Z.to_nat (num_ports_ m) /\
  length (out_queues_ m) = Z.to_nat (num_ports_ m).

(** Every queue respects the configured depth. *)
Definition queues_bounded (m : t W) : Prop :=
  Forall (fun q => Z.of_nat (length q) <= max_queue_depth_ m) (out_queues_ m).

(** Spikes wait only on ports that have a link. *)
Definition queued_on_links (m : t W) : Prop :=
  forall p q, out_queues_ m !! p = Some q -> q <> [] ->
              out_links_ m !! p = Some true.

Definition queued (m : t W) : Z :=
  fold_left (fun n q => n + Z.of_nat (length q)) (out_queues_ m) 0.

End WithWeight.
End SpikeMUX.

(** ** Topology handlers of the network adapter (SnnNetworkAdapter.cc)

    [width], [height], the coordinates and the node ids are [uint32_t];
    ports and distances are [int].  [static_cast<int>] of a [uint32_t]
    is the two's-complement wrap.  The shape string of [initialize] is
    taken as already parsed into [width] and [height]. *)

Module Mesh2DHandler.

Record t : Type := mk {
  width : Z;
  height : Z;
  my_x : Z;
  my_y : Z;
  node_id : Z
}.

(** nodeToCoord and coordToNode read only [width]. *)
Definition nodeToCoord (width node_id : Z) : Z * Z :=
  (node_id mod width, node_id / width).

Definition coordToNode (width x y : Z) : Z := u32 (u32 (y * width) + x).

Definition initialize (width height node_id : Z) : t :=
  let coord := nodeToCoord width node_id in
  mk width height coord.1 coord.2 node_id.

(** calculateRoute: 0 West, 1 East, 2 South, 3 North, -1 local *)
Definition calculateRoute (h : t) (dest_node : Z) : Z :=
  let dest_coord := nodeToCoord (width h) dest_node in
  let dest_x := dest_coord.1 in
  let dest_y := dest_coord.2 in
  if dest_x <? my_x h then 0
  else if my_x h <? dest_x then 1
  else if dest_y <? my_y h then 2
  else if my_y h <? dest_y then 3
  else -1.

Definition calculateHopDistance (h : t) (dest_node : Z) : Z :=
  let dest_coord := nodeToCoord (width h) dest_node in
  let dest_x := dest_coord.1 in
  let dest_y := dest_coord.2 in
  let x_distance :=
    Z.abs (MultiCorePE.wrap_int
             (MultiCorePE.wrap_int dest_x - MultiCorePE.wrap_int (my_x h))) in
  let y_distance :=
    Z.abs (MultiCorePE.wrap_int
             (MultiCorePE.wrap_int dest_y - MultiCorePE.wrap_int (my_y h))) in
  MultiCorePE.wrap_int (x_distance + y_distance).

Definition getNeighbors (h : t) : list Z :=
  (if 0 <? my_x h
   then [coordToNode (width h) (u32 (my_x h - 1)) (my_y h)] else [])
  ++ (if my_x h <? u32 (width h - 1)
      then [coordToNode (width h) (u32 (my_x h + 1)) (my_y h)] else [])
  ++ (if 0 <? my_y h
      then [coordToNode (width h) (my_x h) (u32 (my_y h - 1))] else [])
  ++ (if my_y h <? u32 (height h - 1)
      then [coordToNode (width h) (my_x h) (u32 (my_y h + 1))] else []).

End Mesh2DHandler.

Module Torus2DHandler.

Record t : Type := mk {
  width : Z;
  height : Z;
  my_x : Z;
  my_y : Z;
  node_id : Z
}.

Definition nodeToCoord (width node_id : Z) : Z * Z :=
  (node_id mod width, node_id / width).

Definition coordToNode (width x y : Z) : Z := u32 (u32 (y * width) + x).

Definition initialize (width height node_id : Z) : t :=
  let coord := nodeToCoord width node_id in
  mk width height coord.1 coord.2 node_id.

(** calculateTorusDistance: the signed shortest distance *)
Definition calculateTorusDistance (coord1 coord2 dimension_size : Z) : Z :=
  let forward_dist :=
    MultiCorePE.wrap_int
      (u32 (u32 (coord2 - coord1) + dimension_size) mod dimension_size) in
  let backward_dist :=
    MultiCorePE.wrap_int
      (u32 (u32 (coord1 - coord2) + dimension_size) mod dimension_size) in
  if forward_dist <=? backward_dist then forward_dist
  else MultiCorePE.wrap_int (- backward_dist).

Definition calculateRoute (h : t) (dest_node : Z) : Z :=
  let dest_coord := nodeToCoord (width h) dest_node in
  let dest_x := dest_coord.1 in
  let dest_y := dest_coord.2 in
  let x_dist := calculateTorusDistance (my_x h) dest_x (width h) in
  let y_dist := calculateTorusDistance (my_y h) dest_y (height h) in
  if negb (x_dist =? 0) then (if 0 <? x_dist then 1 else 0)
  else if negb (y_dist =? 0) then (if 0 <? y_dist then 3 else 2)
  else -1.

Definition calculateHopDistance (h : t) (dest_node : Z) : Z :=
  let dest_coord := nodeToCoord (width h) dest_node in
  let dest_x := dest_coord.1 in
  let dest_y := dest_coord.2 in
  let x_dist := Z.abs (calculateTorusDistance (my_x h) dest_x (width h)) in
  let y_dist := Z.abs (calculateTorusDistance (my_y h) dest_y (height h)) in
  MultiCorePE.wrap_int (x_dist + y_dist).

(** getNeighbors: West, East, South, North *)
Definition getNeighbors (h : t) : list Z :=
  [coordToNode (width h)
     (u32 (u32 (my_x h + width h) - 1) mod width h) (my_y h);
   coordToNode (width h) (u32 (my_x h + 1) mod width h) (my_y h);
   coordToNode (width h) (my_x h)
     (u32 (u32 (my_y h + height h) - 1) mod height h);
   coordToNode (width h) (my_x h) (u32 (my_y h + 1) mod height h)].

End Torus2DHandler.

(** ** InternalRing: the fallback ring of the tile (MultiCorePE.cc) *)

Module InternalRing.

Definition RingMessage := OptimizedInternalRing.RingMessage.
Definition src_unit := OptimizedInternalRing.src_unit.
Definition dst_unit := OptimizedInternalRing.dst_unit.
Definition timestamp := OptimizedInternalRing.timestamp.

Record t : Type := mk {
  num_nodes_ : Z;                              (* int *)
  latency_cycles_ : Z;                         (* int *)
  node_input_queues_ : list (list RingMessage);
  node_output_queues_ : list (list RingMessage);
  ring_buffer_ : list RingMessage;
  total_messages_routed_ : Z;                  (* uint64_t *)
  total_latency_cycles_ : Z                    (* uint64_t *)
}.

Definition set_outputs (r : t) (outs : list (list RingMessage)) : t :=
  mk (num_nodes_ r) (latency_cycles_ r) (node_input_queues_ r) outs
     (ring_buffer_ r) (total_messages_routed_ r) (total_latency_cycles_ r).

Definition set_inputs (r : t) (ins : list (list RingMessage)) : t :=
  mk (num_nodes_ r) (latency_cycles_ r) ins (node_output_queues_ r)
     (ring_buffer_ r) (total_messages_routed_ r) (total_latency_cycles_ r).

Definition set_buffer (r : t) (buf : list RingMessage) : t :=
  mk (num_nodes_ r) (latency_cycles_ r) (node_input_queues_ r)
     (node_output_queues_ r) buf (total_messages_routed_ r)
     (total_latency_cycles_ r).

Definition set_totals (r : t) (routed latency : Z) : t :=
  mk (num_nodes_ r) (latency_cycles_ r) (node_input_queues_ r)
     (node_output_queues_ r) (ring_buffer_ r) routed latency.

(** [q.push(msg)] on the queue at index [i] of a vector of queues *)
Definition push_at (qs : list (list RingMessage)) (i : Z) (msg : RingMessage)
    : list (list RingMessage) :=
  alter (fun q => q ++ [msg]) (Z.to_nat i) qs.

(** sendMessage *)
Definition sendMessage (r : t) (msg : RingMessage) : bool * t :=
  if (src_unit msg <? 0) || (num_nodes_ r <=? src_unit msg)
     || (dst_unit msg <? 0) || (num_nodes_ r <=? dst_unit msg)
  then (false, r)
  else if 100 <=? Z.of_nat (length (default []
                      (node_output_queues_ r !! Z.to_nat (src_unit msg))))
  then (false, r)
  else (true, set_outputs r (push_at (node_output_queues_ r) (src_unit msg)
                               msg)).

(** routeMessage *)
Definition routeMessage (r : t) (msg : RingMessage) : t :=
  if latency_cycles_ r <=? 0
  then set_inputs r (push_at (node_input_queues_ r) (dst_unit msg) msg)
  else set_buffer r (ring_buffer_ r ++ [msg]).

(** The while loop of tick over the output queue of node [src]. *)
Definition drain_node (r : t) (src : nat) : t :=
  let q := default [] (node_output_queues_ r !! src) in
  let r := set_outputs r (<[src := []]> (node_output_queues_ r)) in
  fold_left
    (fun r msg =>
       let r := routeMessage r msg in
       set_totals r (u64 (total_messages_routed_ r + 1))
         (total_latency_cycles_ r))
    q r.

(** The test of tick on a buffered message, with its [current_time = 0]:
    [current_time - msg.timestamp >= static_cast<uint64_t>(latency)]. *)
Definition latency_met (r : t) (msg : RingMessage) : bool :=
  u64 (latency_cycles_ r) <=? u64 (0 - timestamp msg).

(** The second loop of tick: the state and the queue [delayed_messages]. *)
Definition settle (acc : t * list RingMessage) (msg : RingMessage)
    : t * list RingMessage :=
  let '(r, delayed_messages) := acc in
  if latency_met r msg
  then
    let r := set_inputs r (push_at (node_input_queues_ r) (dst_unit msg) msg) in
    (set_totals r (total_messages_routed_ r)
       (u64 (total_latency_cycles_ r + u64 (0 - timestamp msg))),
     delayed_messages)
  else (r, delayed_messages ++ [msg]).

(** tick *)
Definition tick (r : t) : t :=
  let r := fold_left drain_node (seq 0 (Z.to_nat (num_nodes_ r))) r in
  let '(r, delayed_messages) := fold_left settle (ring_buffer_ r) (r, []) in
  set_buffer r delayed_messages.

(** One queue per node, and at most 100 messages in an output queue. *)
Definition queues_ok (r : t) : Prop :=
  0 <= num_nodes_ r /\
  length (node_input_queues_ r) = Z.to_nat (num_nodes_ r) /\
  length (node_output_queues_ r) = Z.to_nat (num_nodes_ r) /\
  Forall (fun q => (length q <= 100)%nat) (node_output_queues_ r).

End InternalRing.

(** ** SpikeSource: the clock handler (SpikeSource.cc)

    The running source: the loaded data of [SpikeSource.t] with the
    fields the clock handler reads and writes.  [spike_queue] is a
    [std::priority_queue] ordered by [operator>] on the timestamp, so
    [top()] is an entry with the least timestamp; among equal
    timestamps the model takes the one pushed first. *)

Module SpikeSourceClock.

Record t : Type := mk {
  source : SpikeSource.t;
  spike_output_link : bool;        (* pointer: set or null *)
  data_loaded : bool;
  finished_sending : bool;
  current_sim_time : Z;            (* uint64_t *)
  events_sent_count : Z;           (* uint64_t *)
  (* effects: spike_output_link->send *)
  sent : list (SpikeEvent.t Q)
}.

(** [top()] and the queue after [pop()]: an entry of least timestamp.
    Among entries of the same timestamp the order of a
    [std::priority_queue] is that of its heap; the model takes the first
    in the list, and nothing below depends on which one it is. *)
Fixpoint take_min (q : list SpikeSource.SpikeData)
    : option (SpikeSource.SpikeData * list SpikeSource.SpikeData) :=
  match q with
  | [] => None
  | d :: rest =>
      match take_min rest with
      | None => Some (d, [])
      | Some (m, rest') =>
          if SpikeSource.timestamp d <=? SpikeSource.timestamp m
          then Some (d, rest) else Some (m, d :: rest')
      end
  end.

Definition set_queue (s : SpikeSource.t) (q : list SpikeSource.SpikeData)
    : SpikeSource.t :=
  SpikeSource.mk (SpikeSource.time_scale s) (SpikeSource.neuron_offset s)
    (SpikeSource.max_events s) (SpikeSource.neurons_per_core s) q
    (SpikeSource.events_loaded_count s) (SpikeSource.format_errors s).

(** The event the loop body builds for a queue entry.  [neurons_per_pe]
    is the [uint32_t] product [neurons_per_core * 4], which is 0 for a
    [neurons_per_core] of 0 (the constructor accepts any value) or a
    multiple of [2 ^ 30]; the unsigned division by it then has no value
    and the program is stopped by the division trap: [None]. *)
Definition event_of (s : t) (spike_data : SpikeSource.SpikeData)
    : option (SpikeEvent.t Q) :=
  let neurons_per_pe := u32 (SpikeSource.neurons_per_core (source s) * 4) in
  if neurons_per_pe =? 0 then None
  else
    let dest_node_id := SpikeSource.neuron_id spike_data / neurons_per_pe in
    Some (SpikeEvent.make (SpikeSource.neuron_id spike_data)
            (SpikeSource.neuron_id spike_data) dest_node_id 1%Q
            (SpikeSource.timestamp spike_data)).

(** The while loop of clockTick; one unit of [fuel] per iteration.  The
    event is built before the link is tested, so the division is made
    for every due entry, with or without a link. *)
Fixpoint send_due (fuel : nat) (s : t) : option t :=
  match fuel with
  | O => Some s
  | S fuel' =>
      match take_min (SpikeSource.spike_queue (source s)) with
      | None => Some s
      | Some (spike_data, rest) =>
          if SpikeSource.timestamp spike_data <=? current_sim_time s then
            match event_of s spike_data with
            | None => None
            | Some spike_event =>
                let s :=
                  if spike_output_link s
                  then mk (source s) (spike_output_link s) (data_loaded s)
                         (finished_sending s) (current_sim_time s)
                         (u64 (events_sent_count s + 1))
                         (sent s ++ [spike_event])
                  else s in
                send_due fuel'
                  (mk (set_queue (source s) rest) (spike_output_link s)
                     (data_loaded s) (finished_sending s)
                     (current_sim_time s) (events_sent_count s) (sent s))
            end
          else Some s
      end
  end.

(** clockTick; every iteration of the loop pops an entry, so the length
    of the queue is fuel enough.  [None] is the division trap. *)
Definition clockTick (s : t) (current_cycle : Z) : option t :=
  if negb (data_loaded s) || finished_sending s then Some s
  else
    let s := mk (source s) (spike_output_link s) (data_loaded s)
               (finished_sending s) current_cycle (events_sent_count s)
               (sent s) in
    match send_due (length (SpikeSource.spike_queue (source s))) s with
    | None => None
    | Some s =>
        Some match SpikeSource.spike_queue (source s) with
             | [] => mk (source s) (spike_output_link s) (data_loaded s) true
                       (current_sim_time s) (events_sent_count s) (sent s)
             | _ => s
             end
    end.

End SpikeSourceClock.

(** ** SpikeEventWrapper (SpikeEventWrapper.cc)

    The wrapper holds a pointer to a spike, [None] for null.  [ser &
    has_spike] moves one byte.  The base class part is left out as for
    the spike itself. *)

Module SpikeEventWrapper.

Definition t : Type := option (SpikeEvent.t Z).

(** clone *)
Definition clone (w : t) : t :=
  match w with
  | Some spike_data =>
      Some (SpikeEvent.make (SpikeEvent.neuron_id spike_data)
              (SpikeEvent.dest_neuron spike_data)
              (SpikeEvent.dest_node spike_data)
              (SpikeEvent.weight spike_data)
              (SpikeEvent.timestamp spike_data))
  | None => None
  end.

(** serialize_order *)
Definition serialize_order (ser : Serializer.t) (w : t)
    : option (Serializer.t * t) :=
  let has_spike := match w with Some _ => 1 | None => 0 end in
  '(ser, has_spike) ← Serializer.ser_prim 1 ser has_spike;
  if negb (has_spike =? 0) then
    match Serializer.ser_mode ser with
    | Serializer.PACK =>
        match w with
        | Some spike_data =>
            '(ser, _) ← Serializer.ser_u32 ser
                          (SpikeEvent.neuron_id spike_data);
            '(ser, _) ← Serializer.ser_u32 ser
                          (SpikeEvent.dest_neuron spike_data);
            '(ser, _) ← Serializer.ser_u32 ser
                          (SpikeEvent.dest_node spike_data);
            '(ser, _) ← Serializer.ser_f64 ser (SpikeEvent.weight spike_data);
            '(ser, _) ← Serializer.ser_u64 ser
                          (SpikeEvent.timestamp spike_data);
            Some (ser, w)
        | None => None
        end
    | Serializer.UNPACK =>
        '(ser, neuron_id) ← Serializer.ser_u32 ser 0;
        '(ser, dest_neuron) ← Serializer.ser_u32 ser 0;
        '(ser, dest_node) ← Serializer.ser_u32 ser 0;
        '(ser, weight) ← Serializer.ser_f64 ser 0;
        '(ser, timestamp) ← Serializer.ser_u64 ser 0;
        Some (ser, Some (SpikeEvent.make neuron_id dest_neuron dest_node
                           weight timestamp))
    end
  else
    match Serializer.ser_mode ser with
    | Serializer.UNPACK => Some (ser, None)
    | Serializer.PACK => Some (ser, w)
    end.

Definition serialize (w : t) : option (list Z) :=
  '(ser, _) ← serialize_order (Serializer.mk Serializer.PACK []) w;
  Some (Serializer.buffer ser).

(** Deserialization unpacks into a wrapper made by the default
    constructor. *)
Definition deserialize (bytes : list Z) : option t :=
  '(_, w) ← serialize_order (Serializer.mk Serializer.UNPACK bytes) None;
  Some w.

End SpikeEventWrapper.

(** * Fixtures

    Concrete components on which the models are run. *)

(** A spike that has made three hops. *)
Definition spike_with_hops : SpikeEvent.t Z := SpikeEvent.mk 7 100 3 5 2 0.

(** A trace source with [time_scale = 2], [neuron_offset = 3] and
    [max_events = 1]. *)
Definition trace_source : SpikeSource.t :=
  SpikeSource.mk (2 # 1) 3 1 4 [] 0 [].

(** A NIC on node 2 with the default 1KiB output buffer, a handler, and a
    link control block with [free] send slots. *)
Definition slot_nic (free : nat) (direct : bool) : SnnNIC.t Z SnnNIC.SlotNet :=
  SnnNIC.mk 2 1024 direct direct (Some (SnnNIC.mkSlotNet free)) true
    0 0 0 0 [] [] [] [].

(** A spike node 2 sends to itself, and one for node 3. *)
Definition echo_spike : SpikeEvent.t Z := SpikeEvent.mk 5 0 0 5 2 0.
Definition remote_spike : SpikeEvent.t Z := SpikeEvent.mk 5 0 0 9 3 0.

(** The NIC on node 2 as its constructor leaves it in network mode: no
    handler installed yet.  And one in the default direct-link mode whose
    link could not be configured. *)
Definition bare_nic : SnnNIC.t Z SnnNIC.SlotNet :=
  SnnNIC.mk 2 1024 false false (Some (SnnNIC.mkSlotNet 1)) false
    0 0 0 0 [] [] [] [].
Definition unlinked_nic : SnnNIC.t Z SnnNIC.SlotNet :=
  SnnNIC.mk 2 1024 true false None true 0 0 0 0 [] [] [] [].

(** A spike from neuron 5 of node 2 to neuron 9 of the same node. *)
Definition neighbour_spike : SpikeEvent.t Z := SpikeEvent.mk 5 0 0 9 2 0.

(** A one-neuron core with threshold 1, reset 0, rest 0, tau 20, t_ref 2. *)
Definition demo_core (v : Q) (timer : Z) : SnnPESubComponent.t Q :=
  SnnPESubComponent.mk 0 0 0 1 1%Q 0%Q 0%Q 20%Q 2 7
    [SnnPESubComponent.mkNeuron v timer 0] true 0 0 [] [].

(** An SnnPE with eleven neurons at rest, neuron [i] driving neuron
    [i + 1] with weight 1 (the threshold): CSR rows [i, i+1) for
    [i < 10] and an empty row for neuron 10. *)
Definition chain_pe : SnnPE.t Q :=
  SnnPE.mk 11 0 1%Q 0%Q 0%Q 20%Q 2 (19 # 20)%Q
    (replicate 11 (SnnPE.mkNeuron 0%Q 0))
    (map Z.of_nat (seq 0 11) ++ [10])
    (map Z.of_nat (seq 1 10))
    (replicate 10 1%Q)
    false false false 0 0 0 0 [] [] [].

(** Rings as the constructor builds them. *)
Definition built (o : option OptimizedInternalRing.t) : OptimizedInternalRing.t :=
  match o with
  | Some r => r
  | None => OptimizedInternalRing.mk 0 0 0 false [] 0 0 0 0 [] ∅
  end.

Definition ring2 : OptimizedInternalRing.t :=
  built (OptimizedInternalRing.new 2 2 1 true).

Definition ring4 : OptimizedInternalRing.t :=
  built (OptimizedInternalRing.new 4 2 8 true).

Definition ping : OptimizedInternalRing.RingMessage :=
  OptimizedInternalRing.mkMsg OptimizedInternalRing.SPIKE_MESSAGE (-1) (-1) 0 1 0.

(** Two sends from node 0 to node 1 on [ring2], then a tick. *)
Definition ring2_busy : OptimizedInternalRing.t :=
  OptimizedInternalRing.tick
    (OptimizedInternalRing.sendMessage
       (OptimizedInternalRing.sendMessage ring2 0 1 ping 1).2 0 1 ping 1).2 5.

(** A two-port multiplexer over blocks of four neurons, with links on
    both ports, queues of depth one and a forwarding latency of three
    cycles; and the same after [echo_spike] (for neuron 5) has arrived. *)
Definition demo_mux : SpikeMUX.t Z :=
  SpikeMUX.mk 2 4 1 3 true [true; true] [[]; []] 0 0 0 0 [].

Definition busy_mux : SpikeMUX.t Z :=
  SpikeMUX.handleInbound demo_mux (Some echo_spike).

(** The tile of node 1 with the default four cores of 64 neurons, whose
    neurons are the global ids 256..511, with a NIC and all cores
    present; test traffic of bursts of three spikes for node 2, five
    spikes at most. *)
Definition default_config : MultiCorePE.t :=
  match MultiCorePE.construct (MultiCorePE.mkParams None None) with
  | inr c => c
  | inl _ => MultiCorePE.mk 0 0 0 []
  end.

Definition demo_pe : MultiCorePERouting.t Z :=
  MultiCorePERouting.mk default_config 1 256 [true; true; true; true]
    true false [] 0 2 1 3 0 5 0 0 0 0 0 [] [] [].

(** A fallback ring of two nodes with a latency of three cycles, in
    which node 0 has sent node 1 a message stamped with cycle 0 and one
    stamped with cycle 7. *)
Definition stamped (cycle : Z) : InternalRing.RingMessage :=
  OptimizedInternalRing.mkMsg OptimizedInternalRing.SPIKE_MESSAGE 0 1 cycle 1 0.

Definition fallback_ring : InternalRing.t :=
  (InternalRing.sendMessage
     (InternalRing.sendMessage (InternalRing.mk 2 3 [[]; []] [[]; []] [] 0 0)
        (stamped 0)).2
     (stamped 7)).2.

(** A loaded source with an output link and three events, for neurons
    20, 3 and 7 at times 5, 2 and 9. *)
Definition clock_source : SpikeSourceClock.t :=
  SpikeSourceClock.mk
    (SpikeSource.mk 1 0 0 4
       [SpikeSource.mkSpikeData 20 5; SpikeSource.mkSpikeData 3 2;
        SpikeSource.mkSpikeData 7 9] 3 [])
    true true false 0 0 [].

(** * Properties *)

(** ** MultiCorePE *)

(** C9: the constructor of the multi-core tile ends in a fatal
    configuration error exactly when [num_cores] lies outside 1..64 or
    [neurons_per_core] lies outside 1..1024; for a pair in range it goes on
    and builds one unit state per core. *)
Theorem C9_construct_aborts_iff_out_of_range (params : MultiCorePE.Params) :
  let num_cores := MultiCorePE.find_int (MultiCorePE.p_num_cores params) 4 in
  let neurons_per_core :=
    MultiCorePE.find_int (MultiCorePE.p_neurons_per_core params) 64 in
  (MultiCorePE.aborts params <->
     ~ (1 <= num_cores <= 64) \/ ~ (1 <= neurons_per_core <= 1024)) /\
  (1 <= num_cores <= 64 /\ 1 <= neurons_per_core <= 1024 <->
     exists pe, MultiCorePE.construct params = inr pe /\
       MultiCorePE.num_cores_ pe = num_cores /\
       MultiCorePE.neurons_per_core_ pe = neurons_per_core /\
       length (MultiCorePE.unit_states_ pe) = Z.to_nat num_cores).
Proof.
  intros nc npc. unfold MultiCorePE.aborts, MultiCorePE.construct.
  fold nc npc.
  destruct (nc <=? 0) eqn:E1; destruct (64 <? nc) eqn:E2;
    destruct (npc <=? 0) eqn:E3; destruct (1024 <? npc) eqn:E4; simpl;
    (split; [split; [intros [e He]; try discriminate; lia
                    | intros Hr; try (exfalso; lia); eauto]
            | split; [intros Hr; try (exfalso; lia)
                     | intros (pe & He & _); try discriminate; lia]]).
  eexists; split; [reflexivity|]. simpl.
  rewrite length_map, length_seq. auto.
Qed.

(** ** SpikeEvent serialization *)

Lemma le_bytes_length (n : nat) (x : Z) :
  length (Serializer.le_bytes n x) = n.
Proof. revert x. induction n as [|n IH]; intros x; simpl; auto. Qed.

Lemma le_value_le_bytes (n : nat) (x : Z) :
  0 <= x < 256 ^ Z.of_nat n ->
  Serializer.le_value (Serializer.le_bytes n x) = x.
Proof.
  revert x. induction n as [|n IH]; intros x Hx.
  - simpl in *. lia.
  - cbn [Serializer.le_bytes Serializer.le_value].
    rewrite IH.
    + pose proof (Z.div_mod x 256). lia.
    + rewrite Nat2Z.inj_succ, Z.pow_succ_r in Hx by lia.
      split; [apply Z.div_pos; lia | apply Z.div_lt_upper_bound; lia].
Qed.

Lemma ser_prim_pack (n : nat) (buf : list Z) (x : Z) :
  Serializer.ser_prim n (Serializer.mk Serializer.PACK buf) x
  = Some (Serializer.mk Serializer.PACK (buf ++ Serializer.le_bytes n x), x).
Proof. reflexivity. Qed.

Lemma ser_prim_unpack (n : nat) (rest : list Z) (x d : Z) :
  0 <= x < 256 ^ Z.of_nat n ->
  Serializer.ser_prim n
    (Serializer.mk Serializer.UNPACK (Serializer.le_bytes n x ++ rest)) d
  = Some (Serializer.mk Serializer.UNPACK rest, x).
Proof.
  intros Hx. unfold Serializer.ser_prim. cbn [Serializer.ser_mode Serializer.buffer].
  rewrite length_app, le_bytes_length.
  destruct (Nat.leb_spec n (n + length rest)) as [_|]; [|lia].
  rewrite drop_app_length' by (symmetry; apply le_bytes_length).
  rewrite take_app_length' by (symmetry; apply le_bytes_length).
  by rewrite le_value_le_bytes.
Qed.

Lemma serialize_bytes (ev : SpikeEvent.t Z) :
  SpikeEventSer.serialize ev
  = Some (Serializer.le_bytes 4 (SpikeEvent.neuron_id ev)
          ++ Serializer.le_bytes 8 (SpikeEvent.timestamp ev)
          ++ Serializer.le_bytes 4 (SpikeEvent.dest_neuron ev)
          ++ Serializer.le_bytes 4 (SpikeEvent.dest_node ev)
          ++ Serializer.le_bytes 8 (SpikeEvent.weight ev) ++ []).
Proof. reflexivity. Qed.

(** What the round trip does keep: [neuron_id], [timestamp], [dest_neuron],
    [dest_node] and [weight] of every spike; [hop_count] is not in the
    serialization order and comes back as 0, the value of a freshly
    constructed event. *)
Lemma roundtrip_keeps_five_fields (ev : SpikeEvent.t Z) :
  SpikeEventSer.well_formed ev ->
  SpikeEventSer.serialize ev ≫= SpikeEventSer.deserialize
  = Some (SpikeEvent.mk (SpikeEvent.neuron_id ev) (SpikeEvent.timestamp ev) 0
            (SpikeEvent.dest_neuron ev) (SpikeEvent.dest_node ev)
            (SpikeEvent.weight ev)).
Proof.
  intros (H1 & H2 & _ & H4 & H5 & H6).
  unfold is_u32, is_u64 in *.
  rewrite serialize_bytes. cbn [mbind option_bind].
  unfold SpikeEventSer.deserialize, SpikeEventSer.serialize_order,
    Serializer.ser_u32, Serializer.ser_u64, Serializer.ser_f64.
  do 5 (rewrite ser_prim_unpack by (simpl; lia); cbn [mbind option_bind]).
  reflexivity.
Qed.

Lemma roundtrip_of_spike_with_hops :
  SpikeEventSer.well_formed spike_with_hops /\
  SpikeEventSer.serialize spike_with_hops ≫= SpikeEventSer.deserialize
  = Some (SpikeEvent.mk 7 100 0 5 2 0).
Proof.
  assert (Hwf : SpikeEventSer.well_formed spike_with_hops)
    by (unfold SpikeEventSer.well_formed, is_u32, is_u64; simpl; lia).
  split; [exact Hwf|].
  exact (roundtrip_keeps_five_fields spike_with_hops Hwf).
Defined.

(** C4 fails on the code: serializing and then deserializing a spike that
    has made three hops gives a spike with [hop_count = 0], so not all six
    fields are preserved; the hop limit [MAX_HOPS] restarts at every
    serialization. *)
Theorem C4_hop_count_not_preserved :
  exists ev',
    SpikeEventSer.serialize spike_with_hops ≫= SpikeEventSer.deserialize
    = Some ev' /\
    SpikeEvent.hop_count spike_with_hops = 3 /\
    SpikeEvent.hop_count ev' = 0 /\
    ev' <> spike_with_hops.
Proof.
  eexists. split; [vm_compute; reflexivity|].
  repeat split; discriminate.
Qed.

(** ** SpikeSource *)

Lemma accepted_record_cases (s : SpikeSource.t) (line : string)
    (d : SpikeSource.SpikeData) :
  SpikeSource.accepted_record s line = Some d ->
  SpikeSource.is_skipped line = false /\
  SpikeSource.parse_record line
  = Some (SpikeSource.neuron_id d, SpikeSource.timestamp d) /\
  SpikeSource.should_load_event s (SpikeSource.neuron_id d) = true.
Proof.
  unfold SpikeSource.accepted_record.
  destruct (SpikeSource.is_skipped line); [discriminate|].
  destruct (SpikeSource.parse_record line) as [[n ts]|]; [|discriminate].
  destruct (SpikeSource.should_load_event s n) eqn:E; [|discriminate].
  intros [= <-]. auto.
Qed.

Lemma push_event_fields (s : SpikeSource.t) (d : SpikeSource.SpikeData) :
  SpikeSource.max_events (SpikeSource.push_event s d)
  = SpikeSource.max_events s /\
  SpikeSource.accepted_record (SpikeSource.push_event s d)
  = SpikeSource.accepted_record s /\
  SpikeSource.spike_queue (SpikeSource.push_event s d)
  = SpikeSource.spike_queue s ++ [d].
Proof. repeat split. Qed.

Lemma report_error_fields (s : SpikeSource.t) (n : Z) :
  SpikeSource.max_events (SpikeSource.report_error s n)
  = SpikeSource.max_events s /\
  SpikeSource.accepted_record (SpikeSource.report_error s n)
  = SpikeSource.accepted_record s /\
  SpikeSource.spike_queue (SpikeSource.report_error s n)
  = SpikeSource.spike_queue s.
Proof. repeat split. Qed.

Ltac source_fields :=
  repeat match goal with
  | |- context [SpikeSource.max_events (SpikeSource.push_event ?s ?d)] =>
      rewrite (proj1 (push_event_fields s d))
  | |- context [SpikeSource.accepted_record (SpikeSource.push_event ?s ?d)] =>
      rewrite (proj1 (proj2 (push_event_fields s d)))
  | |- context [SpikeSource.spike_queue (SpikeSource.push_event ?s ?d)] =>
      rewrite (proj2 (proj2 (push_event_fields s d)))
  | |- context [SpikeSource.max_events (SpikeSource.report_error ?s ?d)] =>
      rewrite (proj1 (report_error_fields s d))
  | |- context [SpikeSource.accepted_record (SpikeSource.report_error ?s ?d)] =>
      rewrite (proj1 (proj2 (report_error_fields s d)))
  | |- context [SpikeSource.spike_queue (SpikeSource.report_error ?s ?d)] =>
      rewrite (proj2 (proj2 (report_error_fields s d)))
  end.

Lemma load_lines_queue (lines : list string) :
  forall (s : SpikeSource.t) (line_count events_count : Z),
    is_u32 (SpikeSource.max_events s) ->
    SpikeSource.max_events s = 0
    \/ 0 <= events_count <= SpikeSource.max_events s ->
    SpikeSource.spike_queue
      (SpikeSource.load_lines s lines line_count events_count)
    = SpikeSource.spike_queue s ++
      (if SpikeSource.max_events s =? 0
       then omap (SpikeSource.accepted_record s) lines
       else take (Z.to_nat (SpikeSource.max_events s - events_count))
              (omap (SpikeSource.accepted_record s) lines)).
Proof.
  induction lines as [|line rest IH]; intros s lc ec Hmax Hec.
  - simpl. destruct (_ =? 0); by rewrite ?take_nil, app_nil_r.
  - cbn [SpikeSource.load_lines omap list_omap].
    assert (Hstep : forall s' ec',
      SpikeSource.max_events s' = SpikeSource.max_events s ->
      SpikeSource.max_events s = 0
      \/ 0 <= ec' <= SpikeSource.max_events s ->
      SpikeSource.spike_queue (SpikeSource.load_lines s' rest (u32 (lc + 1)) ec')
      = SpikeSource.spike_queue s' ++
        (if SpikeSource.max_events s' =? 0
         then omap (SpikeSource.accepted_record s') rest
         else take (Z.to_nat (SpikeSource.max_events s' - ec'))
                (omap (SpikeSource.accepted_record s') rest))).
    { intros s' ec' Hs' Hec'. apply IH; rewrite Hs'; auto. }
    destruct ((SpikeSource.max_events s =? 0)
              || (ec <? SpikeSource.max_events s)) eqn:Hguard.
    + destruct (SpikeSource.is_skipped line) eqn:Esk.
      { assert (Ha : SpikeSource.accepted_record s line = None)
          by (unfold SpikeSource.accepted_record; by rewrite Esk).
        by rewrite Ha, Hstep. }
      destruct (SpikeSource.parse_record line) as [[n ts]|] eqn:Ep.
      * destruct (SpikeSource.should_load_event s n) eqn:Es.
        -- assert (Ha : SpikeSource.accepted_record s line
                        = Some (SpikeSource.mkSpikeData n ts))
             by (unfold SpikeSource.accepted_record; by rewrite Esk, Ep, Es).
           rewrite Ha.
           destruct (SpikeSource.max_events s =? 0) eqn:E0.
           ++ rewrite Hstep by (auto; left; by apply Z.eqb_eq).
              source_fields. rewrite E0. by rewrite <- app_assoc.
           ++ apply Z.eqb_neq in E0. destruct Hec as [?|Hec]; [lia|].
              cbn [orb] in Hguard. apply Z.ltb_lt in Hguard.
              assert (Hw : u32 (ec + 1) = ec + 1).
              { unfold u32, is_u32 in *. apply Z.mod_small. lia. }
              rewrite Hw, Hstep by (auto; right; lia). source_fields.
              apply Z.eqb_neq in E0. rewrite E0, <- app_assoc.
              replace (Z.to_nat (SpikeSource.max_events s - ec))
                with (S (Z.to_nat (SpikeSource.max_events s - (ec + 1))))
                by lia.
              reflexivity.
        -- assert (Ha : SpikeSource.accepted_record s line = None)
             by (unfold SpikeSource.accepted_record; by rewrite Esk, Ep, Es).
           by rewrite Ha, Hstep.
      * assert (Ha : SpikeSource.accepted_record s line = None)
          by (unfold SpikeSource.accepted_record; by rewrite Esk, Ep).
        rewrite Ha, Hstep by auto. by source_fields.
    + apply orb_false_iff in Hguard as [E0 El]. rewrite E0.
      apply Z.eqb_neq in E0. apply Z.ltb_ge in El.
      destruct Hec as [?|Hec]; [lia|].
      replace (Z.to_nat (SpikeSource.max_events s - ec)) with O by lia.
      by rewrite take_0, app_nil_r.
Qed.

(** C8, as the code has it: loadTextFormat appends to the queue exactly the
    records of the lines it accepts, in file order, cut after [max_events]
    events when that limit is nonzero.  An accepted record keeps the
    neuron id and the timestamp written in the file ([time_scale] is not
    applied and [neuron_offset] is not added); empty lines, lines that
    begin with '#' and lines that do not parse contribute nothing; a
    nonzero [neuron_offset] only filters, keeping the ids in
    [neuron_offset, neuron_offset + 2). *)
Theorem C8_text_loader_stores_file_values
    (s : SpikeSource.t) (lines : list string) :
  is_u32 (SpikeSource.max_events s) ->
  let s' := (SpikeSource.loadTextFormat s (Some lines)).2 in
  let accepted := omap (SpikeSource.accepted_record s) lines in
  let added := if SpikeSource.max_events s =? 0 then accepted
               else take (Z.to_nat (SpikeSource.max_events s)) accepted in
  SpikeSource.spike_queue s' = SpikeSource.spike_queue s ++ added /\
  (forall d, d ∈ added ->
     exists line, line ∈ lines /\
       SpikeSource.is_skipped line = false /\
       SpikeSource.parse_record line
       = Some (SpikeSource.neuron_id d, SpikeSource.timestamp d) /\
       SpikeSource.should_load_event s (SpikeSource.neuron_id d) = true) /\
  (SpikeSource.max_events s <> 0 ->
     Z.of_nat (length added) <= SpikeSource.max_events s).
Proof.
  intros Hmax s' accepted added. subst s'. cbn [SpikeSource.loadTextFormat snd].
  split; [|split].
  - rewrite load_lines_queue by (auto; unfold is_u32 in Hmax; lia).
    subst added accepted. by rewrite Z.sub_0_r.
  - intros d Hd.
    assert (Hin : d ∈ accepted).
    { subst added. destruct (_ =? 0); [done|].
      eapply subseteq_take; eassumption. }
    apply list_elem_of_omap in Hin as (line & Hline & Hacc).
    exists line. split; [done|]. by apply accepted_record_cases.
  - intros Hne. subst added. apply Z.eqb_neq in Hne. rewrite Hne.
    rewrite length_take. unfold is_u32 in Hmax. lia.
Qed.

Lemma C8_text_loader_witness :
  is_u32 (SpikeSource.max_events trace_source) /\
  SpikeSource.spike_queue
    (SpikeSource.loadTextFormat trace_source
       (Some ["# neuron time"; ""; "oops"; "3 5"; "4 6"]%string)).2
  = [SpikeSource.mkSpikeData 3 5].
Proof.
  assert (Hmax : is_u32 (SpikeSource.max_events trace_source))
    by (unfold is_u32; simpl; lia).
  split; [exact Hmax|].
  exact (proj1 (C8_text_loader_stores_file_values trace_source
           ["# neuron time"; ""; "oops"; "3 5"; "4 6"]%string Hmax)).
Defined.

(** C8 as stated fails: with [time_scale = 2] and [neuron_offset = 3] the
    record "3 5" is stored as (3, 5), not as (3 + 3, 5 * 2). *)
Lemma C8_no_scale_no_offset :
  SpikeSource.spike_queue
    (SpikeSource.loadTextFormat trace_source (Some ["3 5"%string])).2
  = [SpikeSource.mkSpikeData 3 5] /\
  SpikeSource.parse_record "3 5" = Some (3, 5) /\
  u32 (3 + SpikeSource.neuron_offset trace_source) = 6 /\
  SpikeSource.convertToSimTime trace_source 5 = 10 /\
  SpikeSource.mkSpikeData 3 5 <> SpikeSource.mkSpikeData 6 10.
Proof. repeat split; try (vm_compute; reflexivity). discriminate. Qed.

(** ** SnnNIC *)

Section NIC.
Context {W N : Type} `{SnnNIC.SimpleNetwork W N}.
Variable sizeof_SpikePayload : Z.
Variable float_of_double : W -> W.

Local Abbreviation sendSpike := (SnnNIC.sendSpike sizeof_SpikePayload float_of_double).
Local Abbreviation spaceAvailable :=
  (SnnNIC.spaceAvailable sizeof_SpikePayload float_of_double).
Local Abbreviation drain := (SnnNIC.drain sizeof_SpikePayload float_of_double).
Local Abbreviation request_of nic ev :=
  (SnnNIC.createNetworkRequest sizeof_SpikePayload float_of_double nic ev
     (SpikeEvent.dest_node ev)).

Lemma is_local_iff (nic : SnnNIC.t W N) (ev : SpikeEvent.t W) :
  SnnNIC.is_local nic ev = true <->
  SpikeEvent.dest_node ev = SnnNIC.node_id nic /\
  SpikeEvent.neuron_id ev = SpikeEvent.dest_neuron ev.
Proof. unfold SnnNIC.is_local. rewrite andb_true_iff, !Z.eqb_eq. tauto. Qed.

(** C10, as the code has it.  The test at the head of sendSpike is the
    claim's: destination node = own node AND source neuron = destination
    neuron.  A spike that passes it never reaches the network, the link or
    the sent statistics; it is handed to the receive handler when one has
    been installed, and is discarded when none has (the state the
    constructor leaves).  So a spike is delivered if and only if it passes
    the test and a handler is installed.  A spike for the own node with
    different neuron ids is treated as any outgoing spike: it goes out on
    the direct link when that mode is set and the link exists; in network
    mode with an interface it goes to the network as a request, which is
    counted as sent when the network takes it and queued when the network
    refuses it; with no usable interface it is discarded. *)
Theorem C10_local_delivery_iff_same_node_same_neuron
    (nic : SnnNIC.t W N) (ev : SpikeEvent.t W) :
  let nic' := sendSpike nic (Some ev) in
  let local := SpikeEvent.dest_node ev = SnnNIC.node_id nic /\
               SpikeEvent.neuron_id ev = SpikeEvent.dest_neuron ev in
  (SnnNIC.delivered nic' = SnnNIC.delivered nic ++ [ev]
   <-> local /\ SnnNIC.spike_handler nic = true) /\
  (local ->
     nic' = if SnnNIC.spike_handler nic
            then SnnNIC.set_effects nic (SnnNIC.delivered nic ++ [ev])
                   (SnnNIC.link_sent nic) (SnnNIC.net_sent nic)
            else nic) /\
  (~ local ->
     SnnNIC.delivered nic' = SnnNIC.delivered nic /\
     (SnnNIC.use_direct_link nic = true -> SnnNIC.direct_link nic = true ->
        SnnNIC.link_sent nic' = SnnNIC.link_sent nic ++ [ev] /\
        SnnNIC.net_sent nic' = SnnNIC.net_sent nic /\
        SnnNIC.pending_spikes nic' = SnnNIC.pending_spikes nic /\
        SnnNIC.spikes_sent_count nic'
        = u64 (SnnNIC.spikes_sent_count nic + 1)) /\
     (forall net, SnnNIC.use_direct_link nic = false ->
        SnnNIC.network nic = Some net ->
        SnnNIC.link_sent nic' = SnnNIC.link_sent nic /\
        if SnnNIC.refuses net (request_of nic ev)
        then SnnNIC.pending_spikes nic' = SnnNIC.pending_spikes nic ++ [ev] /\
             SnnNIC.net_sent nic' = SnnNIC.net_sent nic /\
             SnnNIC.spikes_sent_count nic' = SnnNIC.spikes_sent_count nic
        else SnnNIC.net_sent nic'
             = SnnNIC.net_sent nic ++ [request_of nic ev] /\
             SnnNIC.pending_spikes nic' = SnnNIC.pending_spikes nic /\
             SnnNIC.spikes_sent_count nic'
             = u64 (SnnNIC.spikes_sent_count nic + 1)) /\
     ((SnnNIC.use_direct_link nic = true /\ SnnNIC.direct_link nic = false)
      \/ (SnnNIC.use_direct_link nic = false /\ SnnNIC.network nic = None)
      -> nic' = nic)).
Proof.
  intros nic' local. subst nic'.
  assert (Hl : SnnNIC.is_local nic ev = true <-> local)
    by apply is_local_iff.
  assert (Hdel : forall l : list (SpikeEvent.t W), l <> l ++ [ev]).
  { intros l E. apply (f_equal length) in E.
    rewrite length_app in E. simpl in E. lia. }
  unfold SnnNIC.sendSpike.
  destruct (SnnNIC.is_local nic ev) eqn:El.
  { assert (local) as Hloc by (by apply Hl).
    split; [|split; [done|intros Hn; by destruct Hn]].
    destruct (SnnNIC.spike_handler nic); cbn; [tauto|].
    split; [intros E; by apply Hdel in E|intros [_ [=]]]. }
  assert (~ local) as Hn by (intros Hloc; apply Hl in Hloc; discriminate).
  split; [|split; [tauto|intros _]].
  { split; [|tauto]. intros E. exfalso. revert E.
    destruct (SnnNIC.use_direct_link nic && SnnNIC.direct_link nic);
      [apply Hdel|].
    destruct (SnnNIC.network nic) as [net0|]; [|apply Hdel].
    destruct (SnnNIC.use_direct_link nic); [apply Hdel|].
    destruct (SnnNIC.spaceToSend net0 0 _); [|apply Hdel].
    destruct (SnnNIC.send net0 _ 0) as [[] net']; apply Hdel. }
  split; [|split; [|split]].
  - destruct (SnnNIC.use_direct_link nic && SnnNIC.direct_link nic); [done|].
    destruct (SnnNIC.network nic) as [net0|]; [|done].
    destruct (SnnNIC.use_direct_link nic); [done|].
    destruct (SnnNIC.spaceToSend net0 0 _); [|done].
    by destruct (SnnNIC.send net0 _ 0) as [[] net'].
  - intros -> ->. done.
  - intros net Hud Hnet. rewrite Hud, Hnet. cbn [andb].
    unfold SnnNIC.refuses.
    destruct (SnnNIC.spaceToSend net 0 _); cbn [negb orb].
    + by destruct (SnnNIC.send net _ 0) as [[] net']; cbn [fst negb].
    + done.
  - intros [[-> ->]|[-> ->]]; cbn [andb]; [|done].
    by destruct (SnnNIC.network nic).
Qed.

(** The requests of a NIC carry its node id and nothing else of it. *)
Lemma drain_node_id (a b : SnnNIC.t W N) (vn : Z)
    (q : list (SpikeEvent.t W)) :
  SnnNIC.node_id a = SnnNIC.node_id b ->
  forall net, drain a vn net q = drain b vn net q.
Proof.
  intros Hid. induction q as [|spike rest IH]; intros net; [done|].
  cbn [SnnNIC.drain]. unfold SnnNIC.createNetworkRequest. rewrite Hid.
  destruct (SnnNIC.spaceToSend net vn 1); [|done].
  destruct (SnnNIC.spaceToSend net vn _); [|done].
  destruct (SnnNIC.send net _ vn) as [[] net']; [|done].
  by rewrite IH.
Qed.

(** The loop of spaceAvailable: the spikes at the head of the queue go
    out for as long as the network takes them, each offered to the network
    as the ones before it left it; the loop stops at the end of the queue
    or at the first spike that is not taken, which stays where it is when
    the network has no room for a single bit, and goes to the tail when
    the network has no room for the request or refuses it. *)
Lemma drain_spec (nic : SnnNIC.t W N) (vn : Z) (q : list (SpikeEvent.t W)) :
  forall net,
    exists k : nat,
      let sent := map (fun ev => request_of nic ev) (take k q) in
      let netk := SnnNIC.after_sends vn net sent in
      (k <= length q)%nat /\
      (drain nic vn net q).2 = sent /\
      (forall i s, (i < k)%nat -> q !! i = Some s ->
         let neti := SnnNIC.after_sends vn net
                       (map (fun ev => request_of nic ev) (take i q)) in
         SnnNIC.spaceToSend neti vn 1 = true /\
         SnnNIC.accepts vn neti (request_of nic s) = true) /\
      match q !! k with
      | None =>
          (drain nic vn net q).1.2 = [] /\ (drain nic vn net q).1.1 = netk
      | Some s =>
          if SnnNIC.spaceToSend netk vn 1 then
            SnnNIC.accepts vn netk (request_of nic s) = false /\
            (drain nic vn net q).1.2 = drop (S k) q ++ [s] /\
            (drain nic vn net q).1.1
            = if SnnNIC.spaceToSend netk vn
                   (SnnNIC.size_in_bits (request_of nic s))
              then (SnnNIC.send netk (request_of nic s) vn).2 else netk
          else
            (drain nic vn net q).1.2 = drop k q /\
            (drain nic vn net q).1.1 = netk
      end.
Proof.
  induction q as [|spike rest IH]; intros net.
  - exists O. cbn. repeat split; first [lia | intros; lia | done].
  - cbn [SnnNIC.drain].
    destruct (SnnNIC.spaceToSend net vn 1) eqn:E1.
    + destruct (SnnNIC.spaceToSend net vn (SnnNIC.size_in_bits _)) eqn:E2.
      * destruct (SnnNIC.send net _ vn) as [ok net'] eqn:E3. destruct ok.
        -- destruct (IH net') as (k & Hk & Hout & Hpre & Hstop).
           destruct (drain nic vn net' rest) as [[net'' q'] out].
           cbn [fst snd] in *. exists (S k).
           cbn [firstn skipn map length SnnNIC.after_sends fold_left].
           rewrite E3. cbn [snd].
           split; [lia|]. split; [by rewrite Hout|]. split; [|exact Hstop].
           intros [|i] s Hi Hs.
           ++ cbn in Hs. injection Hs as <-. cbn.
              split; [exact E1|]. unfold SnnNIC.accepts.
              by rewrite E2, E3.
           ++ cbn [take map SnnNIC.after_sends fold_left]. rewrite E3.
              apply Hpre; [lia|exact Hs].
        -- exists O. unfold SnnNIC.accepts. cbn in *.
           rewrite E1, !E2, E3. cbn. rewrite drop_0.
           repeat split; first [lia | intros; lia | done].
      * exists O. unfold SnnNIC.accepts. cbn in *. rewrite E1, !E2.
        cbn. rewrite drop_0. repeat split; first [lia | intros; lia | done].
    + exists O. cbn. rewrite E1. repeat split; first [lia | intros; lia | done].
Qed.

(** C7, as the code has it: a spike that the network refuses is appended
    to the send queue and nothing is counted as sent; there is no bound
    on that queue and no spike is dropped, whatever [output_buf_size] is.
    On the space-available notification, which finds the link control
    block in some state [net1], the queue is retried from its head, in
    order: the first [k] spikes go out, where [k] is fixed by the network:
    each of them is offered to the network as the ones before left it and
    is taken, and the retry stops at the end of the queue or at the first
    spike that is not taken.  That spike stays at the head when the network
    has no room for a single bit, and is put back at the tail when the
    network has no room for its request or refuses it.  The spikes sent on
    retry are counted in the statistics only. *)
Theorem C7_refused_spike_is_queued_and_retried
    (nic : SnnNIC.t W N) (ev : SpikeEvent.t W) (net net1 : N) (vn : Z) :
  SnnNIC.network nic = Some net ->
  SnnNIC.use_direct_link nic = false ->
  SnnNIC.is_local nic ev = false ->
  SnnNIC.refuses net (request_of nic ev) = true ->
  let nic1 := sendSpike nic (Some ev) in
  let q := SnnNIC.pending_spikes nic1 in
  let nic2 := spaceAvailable (SnnNIC.set_network nic1 (Some net1)) vn in
  q = SnnNIC.pending_spikes nic ++ [ev] /\
  SnnNIC.net_sent nic1 = SnnNIC.net_sent nic /\
  SnnNIC.spikes_sent_count nic1 = SnnNIC.spikes_sent_count nic /\
  SnnNIC.stat_spikes_sent nic1 = SnnNIC.stat_spikes_sent nic /\
  exists k : nat,
    let sent := map (fun ev => request_of nic ev) (take k q) in
    let netk := SnnNIC.after_sends vn net1 sent in
    (k <= length q)%nat /\
    (forall i s, (i < k)%nat -> q !! i = Some s ->
       let neti := SnnNIC.after_sends vn net1
                     (map (fun ev => request_of nic ev) (take i q)) in
       SnnNIC.spaceToSend neti vn 1 = true /\
       SnnNIC.accepts vn neti (request_of nic s) = true) /\
    SnnNIC.net_sent nic2 = SnnNIC.net_sent nic1 ++ sent /\
    SnnNIC.stat_spikes_sent nic2
    = u64 (SnnNIC.stat_spikes_sent nic1 + Z.of_nat k) /\
    SnnNIC.stat_packets_sent nic2
    = u64 (SnnNIC.stat_packets_sent nic1 + Z.of_nat k) /\
    SnnNIC.spikes_sent_count nic2 = SnnNIC.spikes_sent_count nic1 /\
    SnnNIC.packets_sent_count nic2 = SnnNIC.packets_sent_count nic1 /\
    match q !! k with
    | None =>
        SnnNIC.pending_spikes nic2 = [] /\ SnnNIC.network nic2 = Some netk
    | Some s =>
        if SnnNIC.spaceToSend netk vn 1 then
          SnnNIC.accepts vn netk (request_of nic s) = false /\
          SnnNIC.pending_spikes nic2 = drop (S k) q ++ [s] /\
          SnnNIC.network nic2
          = Some (if SnnNIC.spaceToSend netk vn
                       (SnnNIC.size_in_bits (request_of nic s))
                  then (SnnNIC.send netk (request_of nic s) vn).2
                  else netk)
        else
          SnnNIC.pending_spikes nic2 = drop k q /\
          SnnNIC.network nic2 = Some netk
    end.
Proof.
  intros Hnet Hud Hloc Href nic1 q nic2.
  assert (Hsend :
    (nic1 = SnnNIC.set_pending nic (SnnNIC.pending_spikes nic ++ [ev])) \/
    (exists net', nic1 = SnnNIC.set_pending (SnnNIC.set_network nic (Some net'))
                           (SnnNIC.pending_spikes nic ++ [ev]))).
  { subst nic1. unfold SnnNIC.sendSpike. rewrite Hloc, Hud, Hnet. cbn [andb].
    unfold SnnNIC.refuses in Href.
    destruct (SnnNIC.spaceToSend net 0 _); [|by left].
    destruct (SnnNIC.send net _ 0) as [[] net']; cbn in Href;
      [discriminate|]. right. by exists net'. }
  assert (Hf : q = SnnNIC.pending_spikes nic ++ [ev]
               /\ SnnNIC.net_sent nic1 = SnnNIC.net_sent nic
               /\ SnnNIC.spikes_sent_count nic1 = SnnNIC.spikes_sent_count nic
               /\ SnnNIC.stat_spikes_sent nic1 = SnnNIC.stat_spikes_sent nic
               /\ SnnNIC.node_id nic1 = SnnNIC.node_id nic).
  { subst q. destruct Hsend as [->|[net' ->]]; cbn; repeat split; eauto. }
  destruct Hf as (Hp & Hs & Hc & Hst & Hid).
  repeat (split; [assumption|]).
  subst nic2. unfold SnnNIC.spaceAvailable.
  cbn [SnnNIC.set_network SnnNIC.network SnnNIC.pending_spikes].
  fold q.
  rewrite (drain_node_id (SnnNIC.set_network nic1 (Some net1)) nic vn q
             Hid net1).
  destruct (drain_spec nic vn q net1) as (k & Hk & Hout & Hpre & Hstop).
  destruct (drain nic vn net1 q) as [[net'' q'] out].
  cbn [fst snd] in *. exists k. cbn.
  split; [exact Hk|]. split; [exact Hpre|]. split; [by rewrite Hout|].
  split; [by rewrite Hout, length_map, length_take_le|].
  split; [by rewrite Hout, length_map, length_take_le|].
  split; [done|]. split; [done|].
  destruct (q !! k) as [s|].
  - destruct (SnnNIC.spaceToSend _ vn 1).
    + destruct Hstop as (Ha & Hq & Hn). by rewrite Hq, Hn.
    + destruct Hstop as (Hq & Hn). by rewrite Hq, Hn.
  - destruct Hstop as (Hq & Hn). by rewrite Hq, Hn.
Qed.

End NIC.

Lemma C10_local_delivery_witness :
  SnnNIC.sendSpike 64 id (slot_nic 1 false) (Some echo_spike)
  = SnnNIC.set_effects (slot_nic 1 false) [echo_spike] [] [].
Proof.
  refine (proj1 (proj2 (C10_local_delivery_iff_same_node_same_neuron
            64 id (slot_nic 1 false) echo_spike)) _).
  split; reflexivity.
Defined.

(** C10 as stated fails in both halves.  The NIC as its constructor leaves
    it has no handler: a spike for the same node and the same neuron is
    then delivered nowhere.  And a spike for the own node with different
    neuron ids is not sent over the network when the NIC has no usable
    interface (here the default direct-link mode with a link that could
    not be configured): it is discarded, nothing is sent and nothing is
    queued. *)
Lemma C10_no_handler_no_delivery :
  SnnNIC.spike_handler bare_nic = false /\
  SnnNIC.is_local bare_nic echo_spike = true /\
  SnnNIC.sendSpike 64 id bare_nic (Some echo_spike) = bare_nic /\
  SnnNIC.delivered (SnnNIC.sendSpike 64 id bare_nic (Some echo_spike)) = [] /\
  SpikeEvent.dest_node neighbour_spike = SnnNIC.node_id unlinked_nic /\
  SpikeEvent.neuron_id neighbour_spike
  <> SpikeEvent.dest_neuron neighbour_spike /\
  SnnNIC.sendSpike 64 id unlinked_nic (Some neighbour_spike) = unlinked_nic /\
  SnnNIC.net_sent (SnnNIC.sendSpike 64 id unlinked_nic (Some neighbour_spike))
  = [] /\
  SnnNIC.link_sent (SnnNIC.sendSpike 64 id unlinked_nic (Some neighbour_spike))
  = [].
Proof. vm_compute. repeat split. discriminate. Qed.

(** A link control block without room refuses [remote_spike]; when the
    notification finds it with one free slot, the retry sends the spike
    and the queue is empty again. *)
Lemma C7_refused_spike_witness :
  SnnNIC.refuses (SnnNIC.mkSlotNet 0)
    (SnnNIC.createNetworkRequest 64 id (slot_nic 0 false) remote_spike 3)
  = true /\
  let nic1 := SnnNIC.sendSpike 64 id (slot_nic 0 false) (Some remote_spike) in
  let nic2 := SnnNIC.spaceAvailable 64 id
                (SnnNIC.set_network nic1 (Some (SnnNIC.mkSlotNet 1))) 0 in
  SnnNIC.pending_spikes nic1 = [remote_spike] /\
  SnnNIC.net_sent nic2
  = [SnnNIC.createNetworkRequest 64 id (slot_nic 0 false) remote_spike 3] /\
  SnnNIC.pending_spikes nic2 = [].
Proof.
  assert (Href : SnnNIC.refuses (SnnNIC.mkSlotNet 0)
            (SnnNIC.createNetworkRequest 64 id (slot_nic 0 false)
               remote_spike 3) = true) by reflexivity.
  split; [exact Href|].
  destruct (C7_refused_spike_is_queued_and_retried 64 id
              (slot_nic 0 false) remote_spike (SnnNIC.mkSlotNet 0)
              (SnnNIC.mkSlotNet 1) 0 eq_refl eq_refl eq_refl Href)
    as (Hq & _ & _ & _ & k & _ & _ & Hsent & _ & _ & _ & _ & Hstop).
  cbv zeta in *. split; [exact Hq|].
  destruct k as [|k].
  - exfalso. cbn in Hstop. destruct Hstop as [Hacc _]. discriminate Hacc.
  - split.
    + rewrite Hsent, Hq. cbn. by rewrite take_nil.
    + assert (Hn : SnnNIC.pending_spikes
                     (SnnNIC.sendSpike 64 id (slot_nic 0 false)
                        (Some remote_spike)) !! S k = None)
        by (rewrite Hq; cbn; by destruct k).
      rewrite Hn in Hstop. exact (proj1 Hstop).
Defined.

(** C7 as stated fails: with the default 1KiB output buffer and a network
    that never has room, 1025 spikes are all queued: the queue is longer
    than [output_buf_size], nothing is dropped and nothing is counted. *)
Lemma C7_queue_grows_past_output_buf_size :
  let nic := fold_left (fun nic ev => SnnNIC.sendSpike 64 id nic (Some ev))
               (replicate 1025 remote_spike) (slot_nic 0 false) in
  SnnNIC.output_buf_size nic = 1024 /\
  length (SnnNIC.pending_spikes nic) = 1025%nat /\
  SnnNIC.pending_spikes nic = replicate 1025 remote_spike /\
  SnnNIC.net_sent nic = [] /\
  SnnNIC.spikes_sent_count nic = 0.
Proof. vm_compute. repeat split. Qed.


(** ** The LIF neuron update *)

(** A loop [for (i = start; i < start + len; i++)] whose iteration [i]
    rewrites element [i] of a vector with [g] touches each element of the
    range once. *)
Lemma fold_index_local {St A : Type} (get : St -> list A)
    (step : St -> Z -> St) (g : A -> A) (P : St -> Prop) (bound : nat) :
  (forall s i, P s -> (i < bound)%nat -> P (step s (Z.of_nat i))) ->
  (forall s i j, P s -> (i < bound)%nat ->
     get (step s (Z.of_nat i)) !! j
     = if decide (j = i) then g <$> get s !! j else get s !! j) ->
  forall len start s j,
    P s -> (start + len <= bound)%nat ->
    get (fold_left step (map Z.of_nat (seq start len)) s) !! j
    = if decide (start <= j < start + len)%nat
      then g <$> get s !! j else get s !! j.
Proof.
  intros HP Hstep. induction len as [|len IH]; intros start s j Hs Hb.
  - simpl. case_decide; [lia|done].
  - cbn [seq map fold_left].
    rewrite IH; [|apply HP; [done|lia]|lia].
    rewrite Hstep; [|done|lia].
    repeat case_decide; try lia; done.
Qed.

Section LIF.
Context {F : Type} `{FloatOps F}.

Lemma snnpe_tick_preserves (pe : SnnPE.t F) (i : Z) :
  SnnPE.v_rest (SnnPE.clockTick_neuron pe i) = SnnPE.v_rest pe /\
  SnnPE.leak_factor (SnnPE.clockTick_neuron pe i) = SnnPE.leak_factor pe.
Proof.
  unfold SnnPE.clockTick_neuron.
  destruct (SnnPE.neuron_at pe i) as [n|]; [|done].
  by destruct (0 <? SnnPE.refractory_timer n).
Qed.

Lemma snnpe_tick_lookup (pe : SnnPE.t F) (i j : nat) :
  SnnPE.neurons (SnnPE.clockTick_neuron pe (Z.of_nat i)) !! j
  = if decide (j = i)
    then SnnPE.neuron_after_tick pe <$> SnnPE.neurons pe !! j
    else SnnPE.neurons pe !! j.
Proof.
  unfold SnnPE.clockTick_neuron, SnnPE.neuron_at.
  destruct (Z.ltb_spec (Z.of_nat i) 0) as [?|_]; [lia|].
  rewrite Nat2Z.id.
  destruct (SnnPE.neurons pe !! i) as [n|] eqn:En.
  - unfold SnnPE.neuron_after_tick, SnnPE.applyLeak, SnnPE.update_neuron.
    rewrite Nat2Z.id. cbn [SnnPE.neurons SnnPE.set_neurons].
    case_decide as Hj.
    + subst j. rewrite En. cbn [fmap option_fmap option_map].
      destruct (0 <? SnnPE.refractory_timer n) eqn:Et;
        cbn [SnnPE.neurons SnnPE.set_neurons];
        rewrite list_lookup_alter_eq, En; cbn; by rewrite ?Et.
    + destruct (0 <? SnnPE.refractory_timer n);
        cbn [SnnPE.neurons SnnPE.set_neurons];
        by rewrite list_lookup_alter_ne.
  - case_decide; [subst j; by rewrite En|done].
Qed.

Lemma sub_update_preserves (c : SnnPESubComponent.t F) (i : Z) :
  SnnPESubComponent.v_rest_ (SnnPESubComponent.updateNeuronState c i)
  = SnnPESubComponent.v_rest_ c /\
  SnnPESubComponent.tau_mem_ (SnnPESubComponent.updateNeuronState c i)
  = SnnPESubComponent.tau_mem_ c /\
  SnnPESubComponent.num_neurons_ (SnnPESubComponent.updateNeuronState c i)
  = SnnPESubComponent.num_neurons_ c.
Proof.
  unfold SnnPESubComponent.updateNeuronState, SnnPESubComponent.applyLeak.
  destruct (SnnPESubComponent.neuron_at c i) as [n|]; [|done].
  destruct (0 <? SnnPESubComponent.refractory_timer n); [done|].
  destruct (SnnPESubComponent.num_neurons_ c <=? i); [done|].
  by destruct (fltb _ _).
Qed.

Lemma sub_update_lookup (c : SnnPESubComponent.t F) (i j : nat) :
  Z.of_nat i < SnnPESubComponent.num_neurons_ c ->
  SnnPESubComponent.neuron_states_
    (SnnPESubComponent.updateNeuronState c (Z.of_nat i)) !! j
  = if decide (j = i)
    then SnnPESubComponent.neuron_after_update c
           <$> SnnPESubComponent.neuron_states_ c !! j
    else SnnPESubComponent.neuron_states_ c !! j.
Proof.
  intros Hi.
  unfold SnnPESubComponent.updateNeuronState, SnnPESubComponent.applyLeak,
    SnnPESubComponent.neuron_at.
  destruct (Z.ltb_spec (Z.of_nat i) 0) as [?|_]; [lia|].
  destruct (Z.leb_spec (SnnPESubComponent.num_neurons_ c) (Z.of_nat i))
    as [?|_]; [lia|].
  rewrite Nat2Z.id.
  destruct (SnnPESubComponent.neuron_states_ c !! i) as [n|] eqn:En.
  - unfold SnnPESubComponent.neuron_after_update,
      SnnPESubComponent.update_neuron.
    rewrite Nat2Z.id.
    case_decide as Hj.
    + subst j. rewrite En. cbn [fmap option_fmap option_map].
      destruct (0 <? SnnPESubComponent.refractory_timer n) eqn:Et.
      * cbn. rewrite list_lookup_alter_eq, En. done.
      * destruct (fltb _ _) eqn:Ef.
        -- cbn. rewrite list_lookup_alter_eq, En. done.
        -- done.
    + destruct (0 <? SnnPESubComponent.refractory_timer n).
      * cbn. by rewrite list_lookup_alter_ne.
      * destruct (fltb _ _); [|done]. cbn. by rewrite list_lookup_alter_ne.
  - case_decide; [subst j; by rewrite En|done].
Qed.

(** C6, as the code has it.  In SnnPE every neuron whose
    [refractory_timer] is 0 is leaked on a tick as
    [v_mem := v_rest + (v_mem - v_rest) * exp(-dt/tau_mem)] with [dt = 1],
    above or below [v_rest] alike, and a refractory neuron only has its
    timer decremented.  In SnnPESubComponent the same holds with one
    difference: the leak is applied only when [v_mem > v_rest]; a
    non-refractory neuron at or below [v_rest] keeps its potential. *)
Theorem C6_leak_on_tick
    (pe : SnnPE.t F) (c : SnnPESubComponent.t F) (j : nat)
    (n : SnnPE.NeuronState F) (m : SnnPESubComponent.NeuronState F) :
  (j < Z.to_nat (SnnPE.num_neurons pe))%nat ->
  SnnPE.neurons pe !! j = Some n ->
  (j < Z.to_nat (SnnPESubComponent.num_neurons_ c))%nat ->
  SnnPESubComponent.neuron_states_ c !! j = Some m ->
  let leaked v_rest tau v :=
    fadd v_rest (fmul (fsub v v_rest) (fexp (fdiv (fneg fone) tau))) in
  SnnPE.neurons (SnnPE.clockTick_neurons (SnnPE.setup_leak pe)) !! j
  = Some (if 0 <? SnnPE.refractory_timer n
          then SnnPE.mkNeuron (SnnPE.v_mem n) (SnnPE.refractory_timer n - 1)
          else SnnPE.mkNeuron
                 (leaked (SnnPE.v_rest pe) (SnnPE.tau_mem pe) (SnnPE.v_mem n))
                 (SnnPE.refractory_timer n)) /\
  SnnPESubComponent.neuron_states_
    (SnnPESubComponent.updateNeuronStates c) !! j
  = Some (if 0 <? SnnPESubComponent.refractory_timer m
          then SnnPESubComponent.mkNeuron (SnnPESubComponent.v_mem m)
                 (SnnPESubComponent.refractory_timer m - 1)
                 (SnnPESubComponent.last_spike_time m)
          else if fltb (SnnPESubComponent.v_rest_ c)
                    (SnnPESubComponent.v_mem m)
          then SnnPESubComponent.mkNeuron
                 (leaked (SnnPESubComponent.v_rest_ c)
                    (SnnPESubComponent.tau_mem_ c)
                    (SnnPESubComponent.v_mem m))
                 (SnnPESubComponent.refractory_timer m)
                 (SnnPESubComponent.last_spike_time m)
          else m).
Proof.
  intros Hj Hn Hjc Hm leaked. split.
  - unfold SnnPE.clockTick_neurons.
    set (pe0 := SnnPE.setup_leak pe).
    rewrite (fold_index_local SnnPE.neurons SnnPE.clockTick_neuron
               (SnnPE.neuron_after_tick pe0)
               (fun s => SnnPE.v_rest s = SnnPE.v_rest pe0 /\
                         SnnPE.leak_factor s = SnnPE.leak_factor pe0)
               (Z.to_nat (SnnPE.num_neurons pe0))).
    + case_decide as Hr; [|cbn in Hr; lia].
      cbn [SnnPE.neurons pe0 SnnPE.setup_leak SnnPE.set_leak_factor].
      rewrite Hn. cbn [fmap option_fmap option_map].
      unfold SnnPE.neuron_after_tick.
      by destruct (0 <? SnnPE.refractory_timer n).
    + intros s i [Hs1 Hs2] _.
      destruct (snnpe_tick_preserves s (Z.of_nat i)) as [-> ->]. done.
    + intros s i k [Hs1 Hs2] _. rewrite snnpe_tick_lookup.
      case_decide; [|done]. f_equal.
      unfold SnnPE.neuron_after_tick, SnnPE.leak_value.
      by rewrite Hs1, Hs2.
    + done.
    + lia.
  - unfold SnnPESubComponent.updateNeuronStates.
    rewrite (fold_index_local SnnPESubComponent.neuron_states_
               SnnPESubComponent.updateNeuronState
               (SnnPESubComponent.neuron_after_update c)
               (fun s =>
                  SnnPESubComponent.v_rest_ s = SnnPESubComponent.v_rest_ c /\
                  SnnPESubComponent.tau_mem_ s = SnnPESubComponent.tau_mem_ c /\
                  SnnPESubComponent.num_neurons_ s
                  = SnnPESubComponent.num_neurons_ c)
               (Z.to_nat (SnnPESubComponent.num_neurons_ c))).
    + case_decide as Hr; [|lia].
      rewrite Hm. cbn [fmap option_fmap option_map].
      unfold SnnPESubComponent.neuron_after_update.
      destruct (0 <? SnnPESubComponent.refractory_timer m); [done|].
      by destruct (fltb _ _).
    + intros s i (Hs1 & Hs2 & Hs3) _.
      destruct (sub_update_preserves s (Z.of_nat i)) as (-> & -> & ->).
      done.
    + intros s i k (Hs1 & Hs2 & Hs3) Hi. rewrite sub_update_lookup by lia.
      case_decide; [|done]. f_equal.
      unfold SnnPESubComponent.neuron_after_update,
        SnnPESubComponent.leak_value.
      by rewrite Hs1, Hs2.
    + done.
    + lia.
Qed.

End LIF.

Section Firing.
Context {F : Type} `{FloatOps F}.

Lemma emit_cross_core_log (pe : SnnPE.t F) (idx tgt : Z) (w : F) :
  SnnPE.fire_log (SnnPE.emit_cross_core pe idx tgt w) = SnnPE.fire_log pe.
Proof.
  unfold SnnPE.emit_cross_core.
  destruct (_ && _); [done|]. by destruct (SnnPE.spike_output_link pe).
Qed.

Lemma fan_out_log (check : SnnPE.t F -> Z -> SnnPE.t F) (idx : Z) :
  (forall pe i, SnnPE.fire_log pe `prefix_of` SnnPE.fire_log (check pe i)) ->
  forall row pe,
    SnnPE.fire_log pe
      `prefix_of` SnnPE.fire_log (SnnPE.fan_out check idx row pe).
Proof.
  intros Hcheck. induction row as [|i row IH]; intros pe; [done|].
  cbn [SnnPE.fan_out].
  destruct (SnnPE.csr_col_indices pe !! i) as [tgt|]; [|done].
  destruct (SnnPE.csr_weights pe !! i) as [w|]; [|done].
  destruct (1000 <? tgt); [done|].
  destruct (feqb w fzero); [apply IH|].
  destruct (_ && _).
  - destruct (SnnPE.neuron_at pe _) as [n|]; [|done].
    destruct (SnnPE.refractory_timer n =? 0); [|apply IH].
    etrans; [|apply IH]. etrans; [|apply Hcheck]. done.
  - etrans; [|apply IH]. by rewrite emit_cross_core_log.
Qed.

Lemma propagate_log (check : SnnPE.t F -> Z -> SnnPE.t F) (idx : Z)
    (pe : SnnPE.t F) :
  (forall pe i, SnnPE.fire_log pe `prefix_of` SnnPE.fire_log (check pe i)) ->
  SnnPE.fire_log pe `prefix_of` SnnPE.fire_log (SnnPE.propagate check idx pe).
Proof.
  intros Hcheck. unfold SnnPE.propagate.
  destruct (_ <=? idx); [done|].
  destruct (SnnPE.csr_row_ptr pe !! _) as [a|]; [|done].
  destruct (SnnPE.csr_row_ptr pe !! _) as [b|]; [|done].
  destruct (_ || _); [done|]. by apply fan_out_log.
Qed.

Lemma checkAndFireSpike_log (remaining : nat) :
  forall (pe : SnnPE.t F) (i : Z),
    SnnPE.fire_log pe
      `prefix_of` SnnPE.fire_log (SnnPE.checkAndFireSpike_at remaining pe i).
Proof.
  induction remaining as [|r IH]; intros pe i; [done|].
  cbn [SnnPE.checkAndFireSpike_at].
  destruct (SnnPE.neuron_at pe i) as [n|]; [|done].
  destruct (fleb _ _); [|done].
  etrans; [|apply propagate_log, IH]. by apply prefix_app_r.
Qed.

Lemma remaining_at_lt (depth : nat) :
  (depth < SnnPE.MAX_RECURSION_DEPTH)%nat ->
  SnnPE.remaining_at depth = S (SnnPE.remaining_at (S depth)).
Proof. unfold SnnPE.remaining_at, SnnPE.MAX_RECURSION_DEPTH. lia. Qed.

Lemma remaining_at_ge (depth : nat) :
  ~ (depth < SnnPE.MAX_RECURSION_DEPTH)%nat -> SnnPE.remaining_at depth = O.
Proof. unfold SnnPE.remaining_at, SnnPE.MAX_RECURSION_DEPTH. lia. Qed.

Lemma log_not_extended {A} (l k : list A) (x : A) : l <> l ++ x :: k.
Proof.
  intros E. apply (f_equal length) in E. rewrite length_app in E.
  simpl in E. lia.
Qed.

(** C1, as the code has it.  In the core of a multi-core tile
    (SnnPESubComponent) checkAndFireSpike fires a neuron of the core if
    and only if [v_mem >= v_thresh] and [refractory_timer == 0].  In
    SnnPE the function is recursive and carries a depth guard: a call
    fires only if [v_mem >= v_thresh] and fewer than 10 calls are
    already nested, and a neuron with [v_mem >= v_thresh] and
    [refractory_timer == 0] does fire under that guard.  In both, the
    firing branch starts by setting [v_mem = v_reset] and
    [refractory_timer = t_ref], and a call that does not fire leaves the
    component unchanged. *)
Theorem C1_firing_law
    (c : SnnPESubComponent.t F) (idx : Z) (n : SnnPESubComponent.NeuronState F)
    (pe : SnnPE.t F) (pidx : Z) (pn : SnnPE.NeuronState F) (depth : nat) :
  idx < SnnPESubComponent.num_neurons_ c ->
  SnnPESubComponent.neuron_at c idx = Some n ->
  SnnPE.neuron_at pe pidx = Some pn ->
  let c' := SnnPESubComponent.checkAndFireSpike c idx in
  let pe' := SnnPE.checkAndFireSpike_at (SnnPE.remaining_at depth) pe pidx in
  let fires_core :=
    SnnPESubComponent.fire_log c' = SnnPESubComponent.fire_log c ++ [idx] in
  let fires_pe :=
    exists nested, SnnPE.fire_log pe' = SnnPE.fire_log pe ++ pidx :: nested in
  (fires_core <->
     fleb (SnnPESubComponent.v_thresh_ c) (SnnPESubComponent.v_mem n) = true
     /\ SnnPESubComponent.refractory_timer n = 0) /\
  (fires_core ->
     SnnPESubComponent.neuron_at c' idx
     = Some (SnnPESubComponent.mkNeuron (SnnPESubComponent.v_reset_ c)
               (SnnPESubComponent.t_ref_ c)
               (SnnPESubComponent.total_cycles_ c))) /\
  (~ fires_core -> c' = c) /\
  (fires_pe ->
     fleb (SnnPE.v_thresh pe) (SnnPE.v_mem pn) = true
     /\ (depth < SnnPE.MAX_RECURSION_DEPTH)%nat) /\
  (fleb (SnnPE.v_thresh pe) (SnnPE.v_mem pn) = true
   /\ SnnPE.refractory_timer pn = 0
   /\ (depth < SnnPE.MAX_RECURSION_DEPTH)%nat -> fires_pe) /\
  (fires_pe ->
     SnnPE.neuron_at (SnnPE.fire_reset pe pidx) pidx
     = Some (SnnPE.mkNeuron (SnnPE.v_reset pe) (SnnPE.t_ref pe)) /\
     pe' = SnnPE.propagate
             (SnnPE.checkAndFireSpike_at (SnnPE.remaining_at (S depth)))
             pidx (SnnPE.fire_reset pe pidx)) /\
  (~ fires_pe -> pe' = pe).
Proof.
  intros Hidx Hn Hpn c' pe' fires_core fires_pe.
  (* the core *)
  assert (Hcore :
    (fleb (SnnPESubComponent.v_thresh_ c) (SnnPESubComponent.v_mem n)
     && (SnnPESubComponent.refractory_timer n =? 0) = true
     /\ fires_core
     /\ SnnPESubComponent.neuron_at c' idx
        = Some (SnnPESubComponent.mkNeuron (SnnPESubComponent.v_reset_ c)
                  (SnnPESubComponent.t_ref_ c)
                  (SnnPESubComponent.total_cycles_ c)))
    \/ (fleb (SnnPESubComponent.v_thresh_ c) (SnnPESubComponent.v_mem n)
        && (SnnPESubComponent.refractory_timer n =? 0) = false
        /\ c' = c)).
  { subst c' fires_core. unfold SnnPESubComponent.checkAndFireSpike.
    destruct (Z.leb_spec (SnnPESubComponent.num_neurons_ c) idx); [lia|].
    rewrite Hn. destruct (_ && _); [left|right; done].
    split; [done|].
    unfold SnnPESubComponent.emit_output.
    assert (Hreset :
      SnnPESubComponent.neuron_at (SnnPESubComponent.fire_reset c idx) idx
      = Some (SnnPESubComponent.mkNeuron (SnnPESubComponent.v_reset_ c)
                (SnnPESubComponent.t_ref_ c)
                (SnnPESubComponent.total_cycles_ c))).
    { unfold SnnPESubComponent.neuron_at in *.
      destruct (idx <? 0); [done|]. cbn.
      by rewrite list_lookup_alter_eq, Hn. }
    destruct (SnnPESubComponent.fan_out_target _ idx) as [[tn tneu]|];
      [|done].
    by destruct (SnnPESubComponent.parent_ _). }
  (* the single-core PE *)
  assert (Hpe :
    (fleb (SnnPE.v_thresh pe) (SnnPE.v_mem pn) = true
     /\ (depth < SnnPE.MAX_RECURSION_DEPTH)%nat
     /\ fires_pe
     /\ pe' = SnnPE.propagate
                (SnnPE.checkAndFireSpike_at (SnnPE.remaining_at (S depth)))
                pidx (SnnPE.fire_reset pe pidx))
    \/ ((fleb (SnnPE.v_thresh pe) (SnnPE.v_mem pn) = false
         \/ ~ (depth < SnnPE.MAX_RECURSION_DEPTH)%nat)
        /\ pe' = pe)).
  { subst pe' fires_pe.
    destruct (decide (depth < SnnPE.MAX_RECURSION_DEPTH)%nat) as [Hd|Hd].
    - rewrite (remaining_at_lt _ Hd). cbn [SnnPE.checkAndFireSpike_at].
      rewrite Hpn.
      destruct (fleb (SnnPE.v_thresh pe) (SnnPE.v_mem pn)) eqn:Ev;
        [left|right; auto].
      split; [done|]. split; [done|]. split; [|done].
      destruct (propagate_log
                  (SnnPE.checkAndFireSpike_at (SnnPE.remaining_at (S depth)))
                  pidx (SnnPE.fire_reset pe pidx)
                  (checkAndFireSpike_log _)) as [k Hk].
      exists k. rewrite Hk. cbn. by rewrite <- app_assoc.
    - rewrite (remaining_at_ge _ Hd). right. auto. }
  assert (Hreset_pe :
    SnnPE.neuron_at (SnnPE.fire_reset pe pidx) pidx
    = Some (SnnPE.mkNeuron (SnnPE.v_reset pe) (SnnPE.t_ref pe))).
  { unfold SnnPE.neuron_at in *. destruct (pidx <? 0); [done|]. cbn.
    by rewrite list_lookup_alter_eq, Hpn. }
  assert (Hnc : ~ (SnnPESubComponent.fire_log c
                   = SnnPESubComponent.fire_log c ++ [idx]))
    by apply log_not_extended.
  assert (Hnp : ~ (exists nested,
                     SnnPE.fire_log pe = SnnPE.fire_log pe ++ pidx :: nested))
    by (intros [k Hk]; by apply log_not_extended in Hk).
  split; [split|split; [|split; [|split; [|split; [|split]]]]].
  - intros Hf. destruct Hcore as [(Hc & _)|(_ & Hc)].
    + apply andb_true_iff in Hc as [? ?%Z.eqb_eq]. done.
    + subst fires_core. rewrite Hc in Hf. done.
  - intros [Hv Ht]. destruct Hcore as [(_ & Hf & _)|(Hc & _)]; [done|].
    rewrite Hv, Ht in Hc. discriminate.
  - intros Hf. destruct Hcore as [(_ & _ & Hr)|(_ & Hc)]; [done|].
    subst fires_core. rewrite Hc in Hf. done.
  - intros Hf. destruct Hcore as [(_ & Hf' & _)|(_ & Hc)]; done.
  - intros Hf. destruct Hpe as [(Hv & Hd & _)|(_ & Hc)]; [done|].
    subst fires_pe. rewrite Hc in Hf. done.
  - intros (Hv & _ & Hd). destruct Hpe as [(_ & _ & Hf & _)|([Hc|Hc] & _)];
      [done| congruence | done].
  - intros Hf. split; [done|].
    destruct Hpe as [(_ & _ & _ & Hp)|(_ & Hc)]; [done|].
    subst fires_pe. rewrite Hc in Hf. done.
  - intros Hf. destruct Hpe as [(_ & _ & Hf' & _)|(_ & Hc)]; done.
Qed.

End Firing.

Lemma C1_firing_law_witness :
  0 < SnnPESubComponent.num_neurons_ (demo_core (3 # 2)%Q 0) /\
  SnnPESubComponent.fire_log
    (SnnPESubComponent.checkAndFireSpike (demo_core (3 # 2)%Q 0) 0) = [0] /\
  exists nested,
    SnnPE.fire_log (SnnPE.checkAndFireSpike (SnnPE.integrate chain_pe 0 1%Q) 0)
    = 0 :: nested.
Proof.
  pose proof (C1_firing_law (demo_core (3 # 2)%Q 0) 0
                (SnnPESubComponent.mkNeuron (3 # 2)%Q 0 0)
                (SnnPE.integrate chain_pe 0 1%Q) 0 (SnnPE.mkNeuron 1%Q 0) 0
                eq_refl eq_refl eq_refl) as (Hcore & _ & _ & _ & Hpe & _).
  split; [reflexivity|]. split.
  - apply Hcore. split; reflexivity.
  - apply Hpe. repeat split. unfold SnnPE.MAX_RECURSION_DEPTH. lia.
Defined.

(** C1 as stated fails in SnnPE: a spike of weight 1 into neuron 0 of the
    chain makes neurons 0..9 fire in one nest of calls; the call for
    neuron 10 comes at depth 10 and returns at the guard, so neuron 10 is
    left with [v_mem >= v_thresh] and [refractory_timer == 0] and has not
    fired. *)
Lemma C1_depth_guard_blocks_firing :
  let pe' := SnnPE.checkAndFireSpike (SnnPE.integrate chain_pe 0 1%Q) 0 in
  SnnPE.fire_log pe' = [0; 1; 2; 3; 4; 5; 6; 7; 8; 9] /\
  SnnPE.neuron_at pe' 10 = Some (SnnPE.mkNeuron 1%Q 0) /\
  fleb (SnnPE.v_thresh pe') 1%Q = true /\
  SnnPE.checkAndFireSpike_at (SnnPE.remaining_at 10) pe' 10 = pe' /\
  ~ In 10 (SnnPE.fire_log pe').
Proof.
  vm_compute. repeat split. intros Hin.
  repeat (destruct Hin as [Hin|Hin]; [discriminate|]). exact Hin.
Qed.

(** The handlers of SnnPE test [refractory_timer == 0] before they
    integrate a weight and call checkAndFireSpike; processLocalSpike does
    not, so through it a refractory neuron is driven over the threshold and
    fires. *)
Remark processLocalSpike_fires_refractory_neuron :
  let pe := SnnPE.set_neurons chain_pe (replicate 11 (SnnPE.mkNeuron 0%Q 2)) in
  let pe' := SnnPE.processLocalSpike pe (SpikeEvent.mk 0 0 0 0 0 1%Q) in
  SnnPE.neuron_at pe 0 = Some (SnnPE.mkNeuron 0%Q 2) /\
  SnnPE.fire_log pe' = [0] /\
  SnnPE.neuron_at pe' 0 = Some (SnnPE.mkNeuron 0%Q 2).
Proof. vm_compute. repeat split. Qed.

Lemma C6_leak_on_tick_witness :
  SnnPE.neurons (SnnPE.clockTick_neurons (SnnPE.setup_leak chain_pe)) !! 0%nat
  = Some (SnnPE.mkNeuron
            (fadd 0%Q (fmul (fsub 0%Q 0%Q) (fexp (fdiv (fneg 1%Q) 20%Q)))) 0) /\
  SnnPESubComponent.neuron_states_
    (SnnPESubComponent.updateNeuronStates (demo_core (3 # 2)%Q 0)) !! 0%nat
  = Some (SnnPESubComponent.mkNeuron
            (fadd 0%Q (fmul (fsub (3 # 2)%Q 0%Q) (fexp (fdiv (fneg 1%Q) 20%Q))))
            0 0).
Proof.
  assert (H1 : (0 < Z.to_nat (SnnPE.num_neurons chain_pe))%nat)
    by (simpl; lia).
  assert (H0 : (0 < Z.to_nat (SnnPESubComponent.num_neurons_
                                (demo_core (3 # 2)%Q 0)))%nat)
    by (simpl; lia).
  exact (C6_leak_on_tick chain_pe (demo_core (3 # 2)%Q 0) 0
           (SnnPE.mkNeuron 0%Q 0) (SnnPESubComponent.mkNeuron (3 # 2)%Q 0 0)
           H1 eq_refl H0 eq_refl).
Defined.

(** C6 as stated fails in SnnPESubComponent: a non-refractory neuron at
    [v_mem = -1], below [v_rest = 0], is not leaked; the formula would move
    it to [-(1 - 1/20 + 1/800 - 1/48000)]. *)
Lemma C6_core_does_not_leak_below_rest :
  let c := demo_core (- 1)%Q 0 in
  SnnPESubComponent.neuron_states_ (SnnPESubComponent.updateNeuronStates c)
  = [SnnPESubComponent.mkNeuron (- 1)%Q 0 0] /\
  SnnPESubComponent.leak_value c (- 1)%Q = (- 45659 # 48000)%Q /\
  ~ ((- 1) == (- 45659 # 48000))%Q.
Proof.
  repeat split; try (vm_compute; reflexivity).
  intros E. vm_compute in E. discriminate.
Qed.

(** ** OptimizedInternalRing *)

Import OptimizedInternalRing.

(** *** The route cache key *)

Lemma pow64_split : 2 ^ 64 = 2 ^ 32 * 2 ^ 32.
Proof. reflexivity. Qed.

Lemma key_low (s d : Z) : generateRouteCacheKey s d mod 2 ^ 32 = d mod 2 ^ 32.
Proof.
  unfold generateRouteCacheKey, u64.
  rewrite <- (Z.land_ones _ 32) by (intros [=]).
  rewrite Z.land_lor_distr_l, !Z.land_ones by (intros [=]).
  rewrite Z.shiftl_mul_pow2 by (intros [=]).
  rewrite !Z.mod_mod_divide by (exists (2 ^ 32); apply pow64_split).
  rewrite Z.mod_mul by (intros [=]). apply Z.lor_0_l.
Qed.

Lemma key_high (s d : Z) :
  0 <= d < 2 ^ 32 -> generateRouteCacheKey s d / 2 ^ 32 = s mod 2 ^ 32.
Proof.
  intros Hd. unfold generateRouteCacheKey, u64.
  rewrite <- !Z.shiftr_div_pow2 by (intros [=]).
  rewrite Z.shiftr_lor, !Z.shiftr_div_pow2 by (intros [=]).
  rewrite Z.shiftl_mul_pow2 by (intros [=]).
  rewrite pow64_split.
  rewrite Z.mul_mod_distr_r by (intros [=]).
  rewrite Z.div_mul by (intros [=]).
  rewrite (Z.mod_small d)
    by (rewrite <- pow64_split; split; [tauto|]; destruct Hd;
        eapply Z.lt_trans; [eassumption|reflexivity]).
  rewrite (Z.div_small d) by assumption.
  rewrite Z.lor_0_r.
  rewrite Z.mod_mod_divide by (exists (2 ^ 32); reflexivity).
  reflexivity.
Qed.

Lemma int_mod32_nonneg (x y : Z) :
  is_int x -> 0 <= y < 2 ^ 31 -> x mod 2 ^ 32 = y -> x = y.
Proof.
  unfold is_int. intros Hx Hy E.
  change (2 ^ 31) with 2147483648 in *.
  change (2 ^ 32) with 4294967296 in *.
  destruct (Z.neg_nonneg_cases x).
  - assert (x mod 4294967296 = x + 4294967296); [|lia].
    symmetry. apply Z.mod_unique with (-1); lia.
  - rewrite Z.mod_small in E by lia. done.
Qed.

(** Two [int] pairs share a cache key with a pair of non-negative ids only
    if they are that pair: the sign extension of a negative id sets bit 31
    or bit 63 of the key. *)
Lemma key_injective (s' d' s d : Z) :
  is_int s' -> is_int d' -> 0 <= s < 2 ^ 31 -> 0 <= d < 2 ^ 31 ->
  generateRouteCacheKey s' d' = generateRouteCacheKey s d -> s' = s /\ d' = d.
Proof.
  intros Hs' Hd' Hs Hd E.
  assert (Hd32 : 0 <= d < 2 ^ 32).
  { change (2 ^ 31) with 2147483648 in *.
    change (2 ^ 32) with 4294967296 in *. lia. }
  assert (Hs32 : 0 <= s < 2 ^ 32).
  { change (2 ^ 31) with 2147483648 in *.
    change (2 ^ 32) with 4294967296 in *. lia. }
  assert (d' = d).
  { apply int_mod32_nonneg; [done..|].
    rewrite <- (key_low s' d'), E, key_low. by apply Z.mod_small. }
  subst d'. split; [|done].
  apply int_mod32_nonneg; [done..|].
  rewrite <- (key_high s' d), E, key_high by done. by apply Z.mod_small.
Qed.

(** *** Channels and nodes *)

Lemma find_index_Some {A} (p : A -> bool) (l : list A) (k : nat) :
  find_index p l = Some k -> exists x, l !! k = Some x /\ p x = true.
Proof.
  revert k. induction l as [|x l IH]; intros k; [done|].
  cbn [find_index]. destruct (p x) eqn:Ep.
  - intros [= <-]. eauto.
  - destruct (find_index p l) as [j|]; [|done].
    intros [= <-]. destruct (IH j eq_refl) as (y & Hy & Hp). eauto.
Qed.

Lemma selectOutputVC_Some (n : RingNode) (dir : RouteDirection) (prio : Z)
    (k : nat) :
  selectOutputVC n dir prio = Some k ->
  exists vc, getVCs n dir !! k = Some vc /\ hasSpace vc = true.
Proof.
  unfold selectOutputVC.
  assert (Hgen : match
      find_index (fun vc => (priority vc =? prio) && hasSpace vc)
        (getVCs n dir)
    with Some i => Some i | None => find_index hasSpace (getVCs n dir) end
    = Some k -> exists vc, getVCs n dir !! k = Some vc /\ hasSpace vc = true).
  { destruct (find_index _ _) as [i|] eqn:E1.
    - intros [= <-]. apply find_index_Some in E1 as (vc & Hvc & Hp).
      apply andb_true_iff in Hp as [_ Hp]. eauto.
    - intros E2. by apply find_index_Some in E2. }
  destruct dir; try done; auto.
Qed.

Lemma vc_enqueue_ok (msg : RingMessage) (now : Z) (vc : VirtualChannel) :
  vc_ok vc -> hasSpace vc = true -> is_int (dst_unit msg) ->
  vc_ok (vc_enqueue msg now vc).
Proof.
  unfold vc_ok, vc_conserves, hasSpace, vc_enqueue, consumeCredit.
  intros [Hc Hm] Hs Hd. apply andb_true_iff in Hs as [Hs _].
  cbn. rewrite Hs. cbn. split.
  - rewrite length_app. simpl. lia.
  - apply Forall_app. split; [done|]. by constructor.
Qed.

Lemma vc_dequeue_ok (vc : VirtualChannel) : vc_ok vc -> vc_ok (vc_dequeue vc).
Proof.
  unfold vc_ok, vc_conserves, vc_dequeue, returnCredit.
  intros [Hc Hm]. cbn. destruct (buffer vc) as [|m rest] eqn:Eb.
  - cbn in *. destruct (Z.ltb_spec (credits vc) (max_credits vc)); cbn;
      split; try lia; done.
  - cbn [tail length] in *.
    destruct (Z.ltb_spec (credits vc) (max_credits vc)); cbn.
    + split; [lia|]. by inversion Hm.
    + lia.
Qed.

Lemma Forall_alter_lookup {A} (P : A -> Prop) (f : A -> A) (l : list A)
    (i : nat) :
  Forall P l -> (forall x, l !! i = Some x -> P x -> P (f x)) ->
  Forall P (alter f i l).
Proof.
  intros Hl Hf. apply Forall_lookup. intros j y Hy.
  destruct (decide (i = j)) as [<-|Hne].
  - rewrite list_lookup_alter_eq in Hy.
    destruct (l !! i) as [x|] eqn:Ex; [|done]. cbn in Hy.
    injection Hy as <-. apply Hf; [done|]. by eapply Forall_lookup_1.
  - rewrite list_lookup_alter_ne in Hy by done. by eapply Forall_lookup_1.
Qed.

Lemma getVCs_ok (n : RingNode) (dir : RouteDirection) :
  node_ok n -> Forall vc_ok (getVCs n dir).
Proof. intros (_ & ? & ? & ?). destruct dir; cbn; auto. Qed.

Lemma update_vcs_ok (dir : RouteDirection)
    (f : list VirtualChannel -> list VirtualChannel) (n : RingNode) :
  node_ok n -> Forall vc_ok (f (getVCs n dir)) -> node_ok (update_vcs dir f n).
Proof.
  intros (Hid & Hcw & Hccw & Hloc) Hf.
  destruct dir; cbn in *; unfold node_ok; cbn; auto.
Qed.

Lemma enqueue_node_ok (n : RingNode) (dir : RouteDirection) (prio : Z)
    (k : nat) (msg : RingMessage) (now : Z) :
  node_ok n -> selectOutputVC n dir prio = Some k -> is_int (dst_unit msg) ->
  node_ok (update_vcs dir (alter (vc_enqueue msg now) k) n).
Proof.
  intros Hn Hsel Hd. apply update_vcs_ok; [done|].
  apply selectOutputVC_Some in Hsel as (vc & Hvc & Hs).
  apply Forall_alter_lookup; [by apply getVCs_ok|].
  intros x Hx Hok. rewrite Hvc in Hx. injection Hx as <-.
  by apply vc_enqueue_ok.
Qed.

Lemma dequeue_node_ok (n : RingNode) (dir : RouteDirection) (k : nat) :
  node_ok n -> node_ok (update_vcs dir (alter vc_dequeue k) n).
Proof.
  intros Hn. apply update_vcs_ok; [done|].
  apply Forall_alter_lookup; [by apply getVCs_ok|].
  intros x _. apply vc_dequeue_ok.
Qed.

Lemma set_ejection_ok (n : RingNode) (q : list RingMessage) :
  node_ok n -> node_ok (set_ejection n q).
Proof. done. Qed.

Lemma set_stats_ok (n : RingNode) (a b c d : Z) :
  node_ok n -> node_ok (set_stats n a b c d).
Proof. done. Qed.

Lemma update_node_ok (r : t) (i : nat) (f : RingNode -> RingNode) :
  ring_ok r ->
  (forall n, nodes_ r !! i = Some n -> node_ok n -> node_ok (f n)) ->
  ring_ok (update_node r i f).
Proof.
  intros (Hk & Hn & Hc) Hf. split; [done|]. split; [|exact Hc].
  cbn. by apply Forall_alter_lookup.
Qed.

Lemma set_clock_ok (r : t) (a b c d : Z) : ring_ok r -> ring_ok (set_clock r a b c d).
Proof. intros (Hk & Hn & Hc). split; [done|]. split; [done|exact Hc]. Qed.

(** *** The operations keep a ring well-formed *)

Lemma getNode_Some (r : t) (id : Z) (n : RingNode) :
  getNode r id = Some n ->
  0 <= id < num_nodes_ r /\ nodes_ r !! Z.to_nat id = Some n.
Proof.
  unfold getNode. destruct (Z.leb_spec 0 id); [|done].
  destruct (Z.ltb_spec id (num_nodes_ r)); [|done]. cbn. auto with lia.
Qed.

Lemma node_ok_lookup (r : t) (i : nat) (n : RingNode) :
  ring_ok r -> nodes_ r !! i = Some n -> node_ok n.
Proof. intros (_ & Hn & _) Hi. by eapply Forall_lookup_1. Qed.

Lemma selectRoute_ok (r : t) (src dst : Z) :
  ring_ok r -> is_int src -> is_int dst ->
  ring_ok (selectRoute r src dst).2 /\
  nodes_ (selectRoute r src dst).2 = nodes_ r /\
  total_cycles_ (selectRoute r src dst).2 = total_cycles_ r.
Proof.
  intros Hr Hs Hd. unfold selectRoute.
  destruct (src =? dst); [done|].
  destruct (route_lookup_cache_ r !! generateRouteCacheKey src dst) eqn:Ec;
    [done|].
  cbn. split; [|done]. destruct Hr as (Hk & Hn & Hc).
  split; [done|]. split; [done|].
  intros s d dir Hsr Hdr Hne Hlook. cbn in Hlook, Hsr, Hdr.
  destruct (decide (generateRouteCacheKey src dst = generateRouteCacheKey s d))
    as [E|E].
  - rewrite E, lookup_insert_eq in Hlook. injection Hlook as <-.
    assert (Hsd : src = s /\ dst = d).
    { unfold is_int in Hk. apply key_injective; [done|done|lia|lia|done]. }
    destruct Hsd as [-> ->]. done.
  - rewrite lookup_insert_ne in Hlook by done. by apply Hc.
Qed.

Lemma sendMessage_ok (r : t) (src dst : Z) (message : RingMessage) (prio : Z) :
  ring_ok r -> is_int src -> is_int dst ->
  ring_ok (sendMessage r src dst message prio).2.
Proof.
  intros Hr Hs Hd. unfold sendMessage.
  destruct (_ || _); [done|].
  destruct (getNode r src) as [node|] eqn:En; [|done].
  apply getNode_Some in En as [_ En].
  destruct (src =? dst).
  { cbn. apply update_node_ok; [done|]. by intros n _ Hn. }
  destruct (selectRoute_ok r src dst Hr Hs Hd) as (Hr1 & Hn1 & _).
  destruct (selectRoute r src dst) as [route_dir r1]. cbn [snd] in *.
  destruct (bool_decide (route_dir = INVALID)); [done|].
  destruct (selectOutputVC node route_dir prio) as [vc|] eqn:Evc; [|done].
  cbn. apply update_node_ok; [done|].
  intros n Hn Hok. rewrite Hn1, En in Hn. injection Hn as <-.
  apply set_stats_ok. by eapply enqueue_node_ok.
Qed.

Lemma receiveMessage_ok (r : t) (id : Z) :
  ring_ok r -> ring_ok (receiveMessage r id).2.
Proof.
  intros Hr. unfold receiveMessage.
  destruct (getNode r id) as [node|]; [|done].
  destruct (ejection_queue node); [done|].
  cbn. apply set_clock_ok, update_node_ok; [done|]. by intros n _ Hn.
Qed.

Lemma forwardMessage_ok (r : t) (i : nat) (message : RingMessage)
    (dir : RouteDirection) :
  ring_ok r -> is_int (dst_unit message) ->
  ring_ok (forwardMessage r i message dir).2.
Proof.
  intros Hr Hd. unfold forwardMessage.
  destruct (nodes_ r !! i) as [node|]; [|done].
  assert (Hhop : forall next d,
    ring_ok
      (match next with
       | None => (false, r)
       | Some j =>
           match nodes_ r !! j with
           | None => (false, r)
           | Some next_node =>
               if negb (canAcceptMessage next_node d (msg_priority message))
               then (false, r)
               else
                 match selectOutputVC next_node d (msg_priority message) with
                 | None => (false, r)
                 | Some next_vc =>
                     (true,
                      update_node r j
                        (update_vcs d
                           (alter (vc_enqueue message (total_cycles_ r))
                                  next_vc)))
                 end
           end
       end).2).
  { intros [j|] d; [|done].
    destruct (nodes_ r !! j) as [next_node|] eqn:Ej; [|done].
    destruct (negb _); [done|].
    destruct (selectOutputVC _ _ _) as [k|] eqn:Ek; [|done].
    cbn. apply update_node_ok; [done|].
    intros n Hn Hok. rewrite Ej in Hn. injection Hn as <-.
    by eapply enqueue_node_ok. }
  destruct dir; [apply Hhop|apply Hhop| |done].
  cbn. apply update_node_ok; [done|]. by intros n _ Hn.
Qed.

Lemma processDirectionVCs_ok (r : t) (i : nat) (dir : RouteDirection) :
  ring_ok r -> ring_ok (processDirectionVCs r i dir).
Proof.
  intros Hr. unfold processDirectionVCs.
  destruct (nodes_ r !! i) as [node|] eqn:Ei; [|done].
  destruct (vcArbitration _) as [sel|]; [|done].
  destruct (getVCs node dir !! sel) as [vc|] eqn:Evc; [|done].
  destruct (buffer vc) as [|msg rest] eqn:Eb; [done|].
  assert (Hnode : node_ok node) by (by eapply node_ok_lookup).
  assert (Hmsg : is_int (dst_unit msg)).
  { pose proof (getVCs_ok node dir Hnode) as Hvcs.
    eapply Forall_lookup_1 in Hvcs as [_ Hb]; [|exact Evc].
    rewrite Eb in Hb. by inversion Hb. }
  destruct (dst_unit msg =? node_id node).
  { apply update_node_ok; [done|]. intros n _ Hn.
    apply set_stats_ok, dequeue_node_ok. done. }
  destruct (selectRoute_ok r (node_id node) (dst_unit msg) Hr) as (Hr1 & _);
    [apply Hnode|done|].
  destruct (selectRoute r (node_id node) (dst_unit msg)) as [next_dir r1].
  cbn [snd] in Hr1.
  destruct (bool_decide (next_dir = INVALID)).
  { apply update_node_ok; [done|]. intros n _ Hn. by apply dequeue_node_ok. }
  pose proof (forwardMessage_ok r1 i msg next_dir Hr1 Hmsg) as Hr2.
  destruct (forwardMessage r1 i msg next_dir) as [ok r2]. cbn [snd] in Hr2.
  destruct ok; [|done].
  apply update_node_ok; [done|]. intros n _ Hn.
  apply set_stats_ok, dequeue_node_ok. done.
Qed.

Lemma processNodeRouting_ok (r : t) (id : Z) :
  ring_ok r -> ring_ok (processNodeRouting r id).
Proof.
  intros Hr. unfold processNodeRouting, processInjectionQueue.
  destruct (getNode r id); [|done].
  by do 2 apply processDirectionVCs_ok.
Qed.

Lemma fold_left_preserves {St X : Type} (P : St -> Prop) (f : St -> X -> St)
    (l : list X) :
  (forall s x, P s -> P (f s x)) -> forall s, P s -> P (fold_left f l s).
Proof. intros Hf. induction l as [|x l IH]; intros s Hs; cbn; auto. Qed.

Lemma tick_ok (r : t) (current_cycle : Z) :
  ring_ok r -> ring_ok (tick r current_cycle).
Proof.
  intros Hr. unfold tick.
  set (r1 := fold_left _ _ _).
  assert (Hr1 : ring_ok r1).
  { apply fold_left_preserves; [apply processNodeRouting_ok|].
    by apply set_clock_ok. }
  destruct (1000 <=? _); [|done].
  unfold updateStatistics. by do 2 apply set_clock_ok.
Qed.

Lemma newNode_ok (i : nat) (num_vcs credits_per_vc : Z) :
  is_int (Z.of_nat i) -> node_ok (newNode (Z.of_nat i) num_vcs credits_per_vc).
Proof.
  intros Hi.
  assert (Hvcs : Forall vc_ok (initVCs num_vcs credits_per_vc)).
  { unfold initVCs. apply Forall_fmap, Forall_forall. intros k _.
    split; [|constructor]. unfold vc_conserves. cbn. lia. }
  unfold node_ok. cbn. auto.
Qed.

Lemma new_ok (num_nodes num_vcs credits_per_vc : Z) (output : bool) (r : t) :
  is_int num_nodes ->
  new num_nodes num_vcs credits_per_vc output = Some r -> ring_ok r.
Proof.
  intros Hk. unfold new.
  destruct (_ && _); [done|]. destruct (_ && _); [done|].
  destruct (_ || _); [done|].
  set (ns := map _ _).
  assert (Hns : Forall node_ok ns).
  { subst ns. apply Forall_fmap, Forall_forall. intros i Hi.
    apply elem_of_seq in Hi. apply newNode_ok. unfold is_int in *. lia. }
  assert (Hlinked : Forall node_ok
            (if num_nodes <? 2 then ns
             else imap (link_node (Z.to_nat num_nodes)) ns)).
  { destruct (num_nodes <? 2); [done|].
    apply Forall_lookup. intros i n Hi.
    rewrite list_lookup_imap in Hi.
    destruct (ns !! i) as [n0|] eqn:E0; [|done]. cbn in Hi.
    injection Hi as <-. eapply Forall_lookup_1 in Hns; [|exact E0]. done. }
  destruct (_ && _); [done|].
  intros [= <-]. split; [done|]. split; [done|].
  intros s d dir _ _ _ Hl. cbn in Hl. by rewrite lookup_empty in Hl.
Qed.

Lemma reachable_ok (r : t) : reachable r -> ring_ok r.
Proof.
  induction 1 as [k v c o r Hk _ Hnew | r s d m p _ IH Hs Hd | r id _ IH
                  | r cyc _ IH | r s d _ IH Hs Hd].
  - by eapply new_ok.
  - by apply sendMessage_ok.
  - by apply receiveMessage_ok.
  - by apply tick_ok.
  - by apply selectRoute_ok.
Qed.

(** *** Credit conservation *)

Lemma ring_ok_conserves (r : t) : ring_ok r -> credit_conservation r.
Proof.
  intros (_ & Hn & _). unfold credit_conservation.
  eapply Forall_impl; [exact Hn|].
  intros n (_ & Hcw & Hccw & Hloc).
  repeat split; (eapply Forall_impl; [eassumption|]); by intros vc [Hc _].
Qed.

Lemma initVCs_fresh (num_vcs credits_per_vc : Z) (vc : VirtualChannel) :
  vc ∈ initVCs num_vcs credits_per_vc ->
  buffer vc = [] /\ credits vc = credits_per_vc
  /\ max_credits vc = credits_per_vc.
Proof.
  unfold initVCs. intros Hin. apply list_elem_of_fmap in Hin as (i & -> & _).
  done.
Qed.

Lemma new_nodes_fresh (num_nodes num_vcs credits_per_vc : Z) (output : bool)
    (r : t) (node : RingNode) (dir : RouteDirection) :
  new num_nodes num_vcs credits_per_vc output = Some r ->
  node ∈ nodes_ r ->
  getVCs node dir = [] \/ getVCs node dir = initVCs num_vcs credits_per_vc.
Proof.
  unfold new.
  destruct (_ && _); [done|]. destruct (_ && _); [done|].
  destruct (_ || _); [done|].
  set (ns := map _ _).
  assert (Hns : forall n, n ∈ ns ->
            getVCs n dir = [] \/ getVCs n dir = initVCs num_vcs credits_per_vc).
  { subst ns. intros n Hn. apply list_elem_of_fmap in Hn as (i & -> & _).
    destruct dir; cbn; auto. }
  destruct (_ && _); [done|]. intros [= <-]. cbn [nodes_].
  destruct (num_nodes <? 2); [apply Hns|].
  intros Hin. apply list_elem_of_lookup in Hin as [i Hi].
  rewrite list_lookup_imap in Hi.
  destruct (ns !! i) as [n0|] eqn:E0; [|done]. cbn in Hi. injection Hi as <-.
  assert (Hn0 : n0 ∈ ns) by (apply list_elem_of_lookup; eauto).
  apply Hns in Hn0. by destruct dir.
Qed.

(** C2: in every state the ring reaches through sendMessage, tick and
    receiveMessage (and route lookups), every virtual channel of every
    node satisfies [buffer.size() + credits == max_credits]; the
    constructor starts every channel with an empty buffer and
    [credits == max_credits == credits_per_vc]. *)
Theorem C2_credit_conservation (r : t) :
  reachable r ->
  credit_conservation r /\
  (forall node dir vc,
     node ∈ nodes_ r -> vc ∈ getVCs node dir ->
     Z.of_nat (length (buffer vc)) + credits vc = max_credits vc) /\
  (forall num_nodes num_vcs credits_per_vc output node dir vc,
     new num_nodes num_vcs credits_per_vc output = Some r ->
     node ∈ nodes_ r -> vc ∈ getVCs node dir ->
     buffer vc = [] /\ credits vc = credits_per_vc
     /\ max_credits vc = credits_per_vc).
Proof.
  intros Hr. pose proof (ring_ok_conserves r (reachable_ok r Hr)) as Hc.
  split; [done|]. split.
  - intros node dir vc Hnode Hvc.
    unfold credit_conservation in Hc. rewrite Forall_forall in Hc.
    destruct (Hc node Hnode) as (Hcw & Hccw & Hloc).
    destruct dir; cbn in Hvc.
    + rewrite Forall_forall in Hcw. by apply Hcw.
    + rewrite Forall_forall in Hccw. by apply Hccw.
    + rewrite Forall_forall in Hloc. by apply Hloc.
    + by apply elem_of_nil in Hvc.
  - intros k v c o node dir vc Hnew Hnode Hvc.
    destruct (new_nodes_fresh k v c o r node dir Hnew Hnode) as [E|E];
      rewrite E in Hvc.
    + by apply elem_of_nil in Hvc.
    + by apply initVCs_fresh in Hvc.
Qed.

(** *** Route selection *)

Lemma calculateHops_mod (r : t) (src dst : Z) :
  0 <= src < num_nodes_ r -> 0 <= dst < num_nodes_ r -> src <> dst ->
  calculateHops r src dst CLOCKWISE = (dst - src) mod num_nodes_ r /\
  calculateHops r src dst COUNTER_CLOCKWISE = (src - dst) mod num_nodes_ r.
Proof.
  intros Hs Hd Hne. unfold calculateHops.
  destruct (Z.eqb_spec src dst); [done|].
  destruct (Z.ltb_spec src dst); destruct (Z.ltb_spec dst src); try lia.
  - split.
    + symmetry. apply Z.mod_small. lia.
    + apply Z.mod_unique with (-1); lia.
  - split.
    + apply Z.mod_unique with (-1); lia.
    + symmetry. apply Z.mod_small. lia.
Qed.

(** C3: on a ring of K nodes, for distinct nodes [src] and [dst],
    calculateHops gives [(dst - src) mod K] clockwise and
    [(src - dst) mod K] counter-clockwise, and selectRoute, with or without
    a cache hit, answers CLOCKWISE exactly when the clockwise count is less
    than or equal to the counter-clockwise one (ties go clockwise) and
    COUNTER_CLOCKWISE otherwise. *)
Theorem C3_route_selection (r : t) (src dst : Z) :
  reachable r ->
  0 <= src < num_nodes_ r -> 0 <= dst < num_nodes_ r -> src <> dst ->
  let K := num_nodes_ r in
  calculateHops r src dst CLOCKWISE = (dst - src) mod K /\
  calculateHops r src dst COUNTER_CLOCKWISE = (src - dst) mod K /\
  ((selectRoute r src dst).1 = CLOCKWISE <->
     (dst - src) mod K <= (src - dst) mod K) /\
  ((selectRoute r src dst).1 = COUNTER_CLOCKWISE <->
     (src - dst) mod K < (dst - src) mod K).
Proof.
  intros Hr Hs Hd Hne K.
  destruct (calculateHops_mod r src dst Hs Hd Hne) as [Hcw Hccw].
  split; [done|]. split; [done|]. subst K.
  assert (Hsel : (selectRoute r src dst).1 = shortest_direction r src dst).
  { destruct (reachable_ok r Hr) as (_ & _ & Hc).
    unfold selectRoute. destruct (Z.eqb_spec src dst); [done|].
    destruct (route_lookup_cache_ r !! _) as [d|] eqn:El; [|done].
    cbn. by apply Hc. }
  rewrite Hsel. unfold shortest_direction. rewrite Hcw, Hccw.
  destruct (Z.leb_spec ((dst - src) mod num_nodes_ r)
              ((src - dst) mod num_nodes_ r)); split; split;
    try done; try lia.
Qed.

(** *** Sending to oneself *)

(** C5, as the code has it: a send whose source and destination are the
    same valid node succeeds; the message is appended, unchanged, to that
    node's ejection queue and [messages_ejected] is incremented, while the
    virtual channels, the other nodes and the route cache stay as they
    were.  Only a node id outside the ring makes the send fail, and then
    the ring is unchanged. *)
Theorem C5_send_to_self_is_local_delivery
    (r : t) (id : Z) (node : RingNode) (message : RingMessage) (prio : Z) :
  getNode r id = Some node ->
  let res := sendMessage r id id message prio in
  res.1 = true /\
  nodes_ res.2 !! Z.to_nat id
  = Some (mkNode (node_id node) (next_cw node) (prev_cw node) (next_ccw node)
            (prev_ccw node) (cw_vcs node) (ccw_vcs node) (local_vcs node)
            (injection_queue node) (ejection_queue node ++ [message])
            (messages_forwarded node) (messages_injected node)
            (u64 (messages_ejected node + 1)) (total_latency_cycles node)) /\
  (forall j, j <> Z.to_nat id -> nodes_ res.2 !! j = nodes_ r !! j) /\
  route_lookup_cache_ res.2 = route_lookup_cache_ r /\
  (forall bad, getNode r bad = None ->
     sendMessage r bad bad message prio = (false, r)).
Proof.
  intros Hnode res. subst res. unfold sendMessage.
  split; [|split; [|split; [|split]]].
  - rewrite Hnode. apply getNode_Some in Hnode as [Hr _].
    destruct (Z.ltb_spec id 0); [lia|].
    destruct (Z.leb_spec (num_nodes_ r) id); [lia|]. cbn.
    by rewrite Z.eqb_refl.
  - rewrite Hnode. apply getNode_Some in Hnode as [Hr Hi].
    destruct (Z.ltb_spec id 0); [lia|].
    destruct (Z.leb_spec (num_nodes_ r) id); [lia|]. cbn.
    rewrite Z.eqb_refl. cbn. by rewrite list_lookup_alter_eq, Hi.
  - intros j Hj. rewrite Hnode. apply getNode_Some in Hnode as [Hr Hi].
    destruct (Z.ltb_spec id 0); [lia|].
    destruct (Z.leb_spec (num_nodes_ r) id); [lia|]. cbn.
    rewrite Z.eqb_refl. cbn. by rewrite list_lookup_alter_ne.
  - rewrite Hnode. apply getNode_Some in Hnode as [Hr Hi].
    destruct (Z.ltb_spec id 0); [lia|].
    destruct (Z.leb_spec (num_nodes_ r) id); [lia|]. cbn.
    by rewrite Z.eqb_refl.
  - intros bad Hbad. rewrite Hbad. by destruct (_ || _).
Qed.

(** *** Runs of the ring *)

Lemma ring2_busy_reachable : reachable ring2_busy.
Proof.
  assert (H0 : is_int 0) by (unfold is_int; lia).
  assert (H1 : is_int 1) by (unfold is_int; lia).
  apply reach_tick. apply reach_send; [|exact H0|exact H1].
  apply reach_send; [|exact H0|exact H1].
  apply (reach_new 2 2 1 true).
  - unfold is_int; lia.
  - unfold is_u32; lia.
  - reflexivity.
Defined.

Lemma C2_credit_conservation_witness :
  reachable ring2_busy /\ credit_conservation ring2_busy.
Proof.
  split; [exact ring2_busy_reachable|].
  exact (proj1 (C2_credit_conservation ring2_busy ring2_busy_reachable)).
Defined.

Lemma ring4_reachable : reachable ring4.
Proof.
  apply (reach_new 4 2 8 true).
  - unfold is_int; lia.
  - unfold is_u32; lia.
  - reflexivity.
Defined.

Lemma C3_route_selection_witness :
  num_nodes_ ring4 = 4 /\
  (selectRoute ring4 0 3).1 = COUNTER_CLOCKWISE /\
  (selectRoute ring4 0 2).1 = CLOCKWISE.
Proof.
  split; [reflexivity|]. split.
  - apply (C3_route_selection ring4 0 3 ring4_reachable);
      vm_compute; try split; congruence.
  - apply (C3_route_selection ring4 0 2 ring4_reachable);
      vm_compute; try split; congruence.
Defined.

Lemma C5_send_to_self_witness :
  getNode ring2 0 = nodes_ ring2 !! 0%nat /\
  (sendMessage ring2 0 0 ping 1).1 = true.
Proof.
  split; [reflexivity|].
  destruct (getNode ring2 0) as [node|] eqn:E.
  - exact (proj1 (C5_send_to_self_is_local_delivery ring2 0 node ping 1 E)).
  - vm_compute in E. discriminate.
Defined.

(** C5 as stated fails: on a two-node ring a send from node 0 to node 0
    reports success and changes the ring: the message is now in the
    ejection queue of node 0. *)
Lemma C5_send_to_self_succeeds :
  let res := sendMessage ring2 0 0 ping 1 in
  res.1 = true /\
  ejection_queue <$> nodes_ ring2 !! 0%nat = Some [] /\
  ejection_queue <$> nodes_ res.2 !! 0%nat = Some [ping] /\
  messages_ejected <$> nodes_ res.2 !! 0%nat = Some 1 /\
  res.2 <> ring2.
Proof.
  cbv zeta. split; [reflexivity|]. split; [reflexivity|].
  split; [reflexivity|]. split; [reflexivity|].
  intros E.
  apply (f_equal (fun r => ejection_queue <$> nodes_ r !! 0%nat)) in E.
  vm_compute in E. discriminate.
Qed.

(** ** Further properties of the ring *)

(** *** Route memoisation *)

(** X1: selectRoute is idempotent: asking again for the same pair gives the
    same direction and leaves the lookup cache as the first call left
    it. *)
Lemma selectRoute_memoised (r : t) (src dst : Z) :
  selectRoute (selectRoute r src dst).2 src dst = selectRoute r src dst.
Proof.
  unfold selectRoute. destruct (Z.eqb_spec src dst) as [E|E].
  - cbn. by destruct (Z.eqb_spec src dst).
  - destruct (route_lookup_cache_ r !! generateRouteCacheKey src dst)
      as [d|] eqn:El; cbn.
    + destruct (Z.eqb_spec src dst); [done|]. by rewrite El.
    + destruct (Z.eqb_spec src dst); [done|]. by rewrite lookup_insert_eq.
Qed.

Lemma selectRoute_shortest (r : t) (src dst : Z) :
  ring_ok r ->
  0 <= src < num_nodes_ r -> 0 <= dst < num_nodes_ r -> src <> dst ->
  (selectRoute r src dst).1 = shortest_direction r src dst.
Proof.
  intros (_ & _ & Hc) Hs Hd Hne. unfold selectRoute.
  destruct (Z.eqb_spec src dst); [done|].
  destruct (route_lookup_cache_ r !! _) as [d|] eqn:El; [|done].
  cbn. by apply Hc.
Qed.

(** X2: The two directions between distinct nodes add up to the ring size,
    and the direction selectRoute answers never takes more than half of
    the ring. *)
Lemma selected_route_at_most_half_ring (r : t) (src dst : Z) :
  reachable r ->
  0 <= src < num_nodes_ r -> 0 <= dst < num_nodes_ r -> src <> dst ->
  calculateHops r src dst CLOCKWISE
  + calculateHops r src dst COUNTER_CLOCKWISE = num_nodes_ r /\
  0 < calculateHops r src dst (selectRoute r src dst).1 /\
  2 * calculateHops r src dst (selectRoute r src dst).1 <= num_nodes_ r.
Proof.
  intros Hr Hs Hd Hne.
  rewrite (selectRoute_shortest r src dst (reachable_ok r Hr) Hs Hd Hne).
  unfold shortest_direction.
  assert (Hcw : calculateHops r src dst CLOCKWISE
                = if src <? dst then dst - src else num_nodes_ r - src + dst).
  { unfold calculateHops. by destruct (Z.eqb_spec src dst). }
  assert (Hccw : calculateHops r src dst COUNTER_CLOCKWISE
                 = if dst <? src then src - dst else num_nodes_ r - dst + src).
  { unfold calculateHops. by destruct (Z.eqb_spec src dst). }
  destruct (Z.leb_spec (calculateHops r src dst CLOCKWISE)
              (calculateHops r src dst COUNTER_CLOCKWISE)) as [Hle|Hlt];
    revert Hle || revert Hlt; rewrite Hcw, Hccw;
    destruct (Z.ltb_spec src dst); destruct (Z.ltb_spec dst src); lia.
Qed.

Lemma selected_route_at_most_half_ring_witness :
  2 * calculateHops ring4 0 3 (selectRoute ring4 0 3).1 <= num_nodes_ ring4.
Proof.
  refine (proj2 (proj2 (selected_route_at_most_half_ring ring4 0 3
                          ring4_reachable _ _ _)));
    vm_compute; try split; congruence.
Defined.

(** *** Channel selection and arbitration *)

Lemma find_index_None {A} (p : A -> bool) (l : list A) :
  find_index p l = None -> forall x, x ∈ l -> p x = false.
Proof.
  induction l as [|y l IH]; intros Hf x Hx; [by apply elem_of_nil in Hx|].
  cbn [find_index] in Hf. destruct (p y) eqn:Ep; [done|].
  destruct (find_index p l) as [j|] eqn:Ef; [done|].
  apply elem_of_cons in Hx as [->|Hx]; [done|]. by apply IH.
Qed.

(** X3: The downstream check of forwardMessage is enough: a node that can
    accept a message of some priority in a direction always has an
    output channel to give, so the "no channel" exit that follows the
    check is never taken. *)
Lemma canAcceptMessage_selects (n : RingNode) (dir : RouteDirection)
    (prio : Z) :
  canAcceptMessage n dir prio = true ->
  exists k vc, selectOutputVC n dir prio = Some k
               /\ getVCs n dir !! k = Some vc /\ hasSpace vc = true.
Proof.
  intros Hacc.
  assert (Hex : exists vc, vc ∈ getVCs n dir /\ hasSpace vc = true).
  { unfold canAcceptMessage in Hacc.
    assert (Hb : existsb (fun vc => (priority vc <=? prio) && hasSpace vc)
                   (getVCs n dir) = true) by (by destruct dir).
    apply existsb_exists in Hb as (vc & Hin & Hp).
    apply andb_true_iff in Hp as [_ Hp].
    exists vc. split; [|done]. by apply list_elem_of_In. }
  destruct Hex as (vc & Hin & Hsp).
  destruct (selectOutputVC n dir prio) as [k|] eqn:Esel.
  - destruct (selectOutputVC_Some n dir prio k Esel) as (vc' & Hk & Hs').
    eauto.
  - exfalso. unfold selectOutputVC in Esel.
    assert (Hnone : find_index hasSpace (getVCs n dir) = None).
    { destruct dir; try done;
        by destruct (find_index (fun vc => (priority vc =? prio) && hasSpace vc)
                       _). }
    rewrite (find_index_None _ _ Hnone vc Hin) in Hsp. done.
Qed.

Lemma canAcceptMessage_selects_witness :
  exists k vc, selectOutputVC (newNode 0 2 1) CLOCKWISE 1 = Some k
               /\ getVCs (newNode 0 2 1) CLOCKWISE !! k = Some vc
               /\ hasSpace vc = true.
Proof.
  apply (canAcceptMessage_selects (newNode 0 2 1) CLOCKWISE 1). reflexivity.
Defined.

Lemma vcArbitration_from_spec (vcs : list VirtualChannel) :
  forall (i : nat) (best : option nat) (hp : Z),
    (vcArbitration_from i vcs best hp = best /\
     forall vc, vc ∈ vcs -> hasData vc = true -> hp <= priority vc) \/
    (exists (j : nat) (vc : VirtualChannel),
       vcArbitration_from i vcs best hp = Some (i + j)%nat /\
       vcs !! j = Some vc /\ hasData vc = true /\ priority vc < hp /\
       (forall j' vc', vcs !! j' = Some vc' -> hasData vc' = true ->
          priority vc <= priority vc') /\
       (forall j' vc', (j' < j)%nat -> vcs !! j' = Some vc' ->
          hasData vc' = true -> priority vc < priority vc')).
Proof.
  induction vcs as [|vc rest IH]; intros i best hp.
  - left. split; [done|]. intros vc Hin. by apply elem_of_nil in Hin.
  - cbn [vcArbitration_from].
    destruct (hasData vc) eqn:Ed; cbn [andb].
    + destruct (Z.ltb_spec (priority vc) hp) as [Hlt|Hge].
      * right.
        destruct (IH (S i) (Some i) (priority vc))
          as [[Hres Hall]|(j & vc1 & Hres & Hj & Hd1 & Hp1 & Hmin & Hfirst)].
        -- exists O, vc. rewrite Hres, Nat.add_0_r.
           split; [done|]. split; [done|]. split; [done|]. split; [done|].
           split; [|intros; lia].
           intros [|j'] vc' Hl Hd'; cbn in Hl.
           ++ injection Hl as <-. lia.
           ++ apply Hall; [|done]. by eapply list_elem_of_lookup_2.
        -- exists (S j), vc1. rewrite Hres.
           split; [f_equal; lia|]. split; [done|]. split; [done|].
           split; [lia|]. split.
           ++ intros [|j'] vc' Hl Hd'; cbn in Hl.
              ** injection Hl as <-. lia.
              ** by eapply Hmin.
           ++ intros [|j'] vc' Hjj Hl Hd'; cbn in Hl.
              ** injection Hl as <-. lia.
              ** eapply Hfirst; [|done..]. lia.
      * destruct (IH (S i) best hp)
          as [[Hres Hall]|(j & vc1 & Hres & Hj & Hd1 & Hp1 & Hmin & Hfirst)].
        -- left. split; [done|]. intros vc' Hin Hd'.
           apply elem_of_cons in Hin as [->|Hin]; [done|]. by apply Hall.
        -- right. exists (S j), vc1. rewrite Hres.
           split; [f_equal; lia|]. split; [done|]. split; [done|].
           split; [done|]. split.
           ++ intros [|j'] vc' Hl Hd'; cbn in Hl.
              ** injection Hl as <-. lia.
              ** by eapply Hmin.
           ++ intros [|j'] vc' Hjj Hl Hd'; cbn in Hl.
              ** injection Hl as <-. lia.
              ** eapply Hfirst; [|done..]. lia.
    + destruct (IH (S i) best hp)
        as [[Hres Hall]|(j & vc1 & Hres & Hj & Hd1 & Hp1 & Hmin & Hfirst)].
      * left. split; [done|]. intros vc' Hin Hd'.
        apply elem_of_cons in Hin as [->|Hin]; [congruence|]. by apply Hall.
      * right. exists (S j), vc1. rewrite Hres.
        split; [f_equal; lia|]. split; [done|]. split; [done|].
        split; [done|]. split.
        -- intros [|j'] vc' Hl Hd'; cbn in Hl.
           ++ injection Hl as <-. congruence.
           ++ by eapply Hmin.
        -- intros [|j'] vc' Hjj Hl Hd'; cbn in Hl.
           ++ injection Hl as <-. congruence.
           ++ eapply Hfirst; [|done..]. lia.
Qed.

(** X4: vcArbitration answers the first channel, among those that hold data,
    with the least priority number; it answers "none" only when every
    channel with data has a priority number of INT_MAX or more. *)
Lemma vcArbitration_first_least_priority (vcs : list VirtualChannel) :
  match vcArbitration vcs with
  | Some k =>
      exists vc, vcs !! k = Some vc /\ hasData vc = true /\
        priority vc < INT_MAX /\
        (forall j vc', vcs !! j = Some vc' -> hasData vc' = true ->
           priority vc <= priority vc') /\
        (forall j vc', (j < k)%nat -> vcs !! j = Some vc' ->
           hasData vc' = true -> priority vc < priority vc')
  | None =>
      forall vc, vc ∈ vcs -> hasData vc = true -> INT_MAX <= priority vc
  end.
Proof.
  unfold vcArbitration.
  destruct (vcArbitration_from_spec vcs 0 None INT_MAX)
    as [[-> Hall]|(j & vc & -> & Hj & Hd & Hp & Hmin & Hfirst)].
  - exact Hall.
  - cbn [Nat.add]. exists vc. auto.
Qed.

Lemma vcArbitration_Some (vcs : list VirtualChannel) (k : nat) :
  vcArbitration vcs = Some k ->
  exists vc, vcs !! k = Some vc /\ hasData vc = true.
Proof.
  unfold vcArbitration. intros E.
  destruct (vcArbitration_from_spec vcs 0 None INT_MAX)
    as [[Hn _]|(j & vc & Hs & Hj & Hd & _)]; rewrite E in *; [done|].
  injection Hs as ->. eauto.
Qed.

(** *** The topology the constructor builds *)

Lemma ring_succ_pred (k i : nat) :
  (i < k)%nat ->
  (((i + 1) mod k + k - 1) mod k = i)%nat /\
  (((i + k - 1) mod k + 1) mod k = i)%nat /\
  ((i + 1) mod k < k)%nat /\ ((i + k - 1) mod k < k)%nat.
Proof.
  intros Hi.
  assert (Hk : k <> O) by lia.
  split; [|split; [|split; apply Nat.mod_upper_bound; lia]].
  - destruct (decide (i + 1 = k)%nat) as [E|E].
    + rewrite E, Nat.Div0.mod_same. cbn [Nat.add].
      rewrite Nat.mod_small by lia. lia.
    + rewrite (Nat.mod_small (i + 1) k) by lia.
      replace (i + 1 + k - 1)%nat with (i + 1 * k)%nat by lia.
      rewrite Nat.Div0.mod_add. apply Nat.mod_small. lia.
  - destruct (decide (i = O)) as [E|E].
    + subst i. cbn [Nat.add]. rewrite (Nat.mod_small (k - 1) k) by lia.
      replace (k - 1 + 1)%nat with k by lia. apply Nat.Div0.mod_same.
    + replace (i + k - 1)%nat with (i - 1 + 1 * k)%nat by lia.
      rewrite Nat.Div0.mod_add, (Nat.mod_small (i - 1) k) by lia.
      replace (i - 1 + 1)%nat with i by lia. apply Nat.mod_small. lia.
Qed.

Lemma linked_nodes_lookup (k : nat) (num_vcs credits_per_vc : Z) (i : nat) :
  (i < k)%nat ->
  imap (link_node k)
    (map (fun i => newNode (Z.of_nat i) num_vcs credits_per_vc) (seq 0 k))
  !! i
  = Some (link_node k i (newNode (Z.of_nat i) num_vcs credits_per_vc)).
Proof.
  intros Hi. rewrite list_lookup_imap.
  change (map ?f ?l) with (f <$> l). rewrite list_lookup_fmap.
  by rewrite lookup_seq_lt.
Qed.

(** X5: A ring of at least two nodes with at least one channel per direction
    is built, provided the size of the route cache, the [int] product
    [num_nodes * num_nodes], does not overflow (at most 46340 nodes), the
    channel count is an [int] and the credit count a [uint32_t]: node [i]
    gets id [i], its clockwise neighbour is [(i + 1) mod K], its
    counter-clockwise neighbour [(i - 1) mod K], the route cache has
    [num_nodes * num_nodes] entries, and the constructor's own topology
    check passes, so its fatal exit is never taken. *)
Lemma new_topology_closed (num_nodes num_vcs credits_per_vc : Z)
    (output : bool) :
  2 <= num_nodes -> num_nodes * num_nodes <= INT_MAX ->
  1 <= num_vcs -> is_int num_vcs -> is_u32 credits_per_vc ->
  exists r,
    new num_nodes num_vcs credits_per_vc output = Some r /\
    length (nodes_ r) = Z.to_nat num_nodes /\
    length (route_cache_ r) = Z.to_nat (num_nodes * num_nodes) /\
    verifyTopology num_nodes (nodes_ r) = true /\
    forall i : nat, (i < Z.to_nat num_nodes)%nat ->
      exists n, nodes_ r !! i = Some n /\ node_id n = Z.of_nat i /\
        next_cw n = Some ((i + 1) mod Z.to_nat num_nodes)%nat /\
        prev_cw n = Some ((i + Z.to_nat num_nodes - 1) mod Z.to_nat num_nodes)%nat /\
        next_ccw n = prev_cw n /\ prev_ccw n = next_cw n.
Proof.
  intros HK _ HV _ _. unfold new.
  destruct (Z.ltb_spec num_nodes 2); [lia|].
  destruct (Z.ltb_spec num_vcs 1); [lia|].
  destruct (Z.ltb_spec num_nodes 0); [lia|].
  destruct (Z.ltb_spec num_vcs 0); [lia|].
  cbn [andb orb negb]. rewrite andb_false_r. cbn [orb].
  set (k := Z.to_nat num_nodes).
  set (ns := imap (link_node k) _).
  assert (Hver : verifyTopology num_nodes ns = true).
  { unfold verifyTopology. fold k. apply forallb_forall. intros i Hin.
    apply in_seq in Hin. assert (Hi : (i < k)%nat) by lia.
    destruct (ring_succ_pred k i Hi) as (Hs & Hp & Hsb & Hpb).
    unfold verify_node. subst ns.
    rewrite (linked_nodes_lookup k _ _ i Hi). cbn.
    rewrite (linked_nodes_lookup k _ _ _ Hsb).
    rewrite (linked_nodes_lookup k _ _ _ Hpb). cbn.
    rewrite Hs, Hp. by rewrite !bool_decide_eq_true_2. }
  rewrite Hver. cbn [negb andb].
  eexists. split; [reflexivity|]. cbn [nodes_ route_cache_].
  split; [|split; [by rewrite length_replicate|split; [exact Hver|]]].
  - subst ns. by rewrite length_imap, length_map, length_seq.
  - intros i Hi. subst ns. rewrite (linked_nodes_lookup k _ _ i Hi).
    eexists. split; [reflexivity|]. cbn. auto.
Qed.

Lemma new_topology_closed_witness :
  exists r, new 4 2 8 true = Some r /\ length (nodes_ r) = 4%nat /\
    length (route_cache_ r) = 16%nat.
Proof.
  destruct (new_topology_closed 4 2 8 true) as (r & Hnew & Hlen & Hc & _);
    [lia|by vm_compute|lia|by vm_compute|by vm_compute|].
  exists r. split; [exact Hnew|split; [exact Hlen|exact Hc]].
Defined.

(** *** Messages in flight *)

Lemma count_vcs_shift (vcs : list VirtualChannel) (total : Z) :
  count_vcs vcs total = total + count_vcs vcs 0.
Proof.
  unfold count_vcs. revert total.
  induction vcs as [|vc vcs IH]; intros total; cbn [fold_left]; [lia|].
  rewrite IH, (IH (0 + _)). lia.
Qed.

Lemma count_node_shift (total : Z) (n : RingNode) :
  count_node total n = total + count_node 0 n.
Proof.
  unfold count_node.
  rewrite (count_vcs_shift (local_vcs n)), (count_vcs_shift (ccw_vcs n)),
    (count_vcs_shift (cw_vcs n)).
  rewrite (count_vcs_shift (local_vcs n) (count_vcs _ (count_vcs _ 0))),
    (count_vcs_shift (ccw_vcs n) (count_vcs _ 0)).
  lia.
Qed.

Lemma count_nodes_shift (ns : list RingNode) (total : Z) :
  fold_left count_node ns total = total + fold_left count_node ns 0.
Proof.
  revert total. induction ns as [|n ns IH]; intros total; cbn [fold_left];
    [lia|].
  rewrite IH, (IH (count_node 0 n)), (count_node_shift total). lia.
Qed.

Lemma count_vcs_alter (g : VirtualChannel -> VirtualChannel)
    (vcs : list VirtualChannel) (k : nat) (vc : VirtualChannel) :
  vcs !! k = Some vc ->
  count_vcs (alter g k vcs) 0
  = count_vcs vcs 0 + Z.of_nat (length (buffer (g vc)))
    - Z.of_nat (length (buffer vc)).
Proof.
  revert k. induction vcs as [|x vcs IH]; intros k Hk; [done|].
  destruct k as [|k]; cbn in Hk.
  - injection Hk as ->. unfold count_vcs. cbn [alter list_alter fold_left].
    fold (count_vcs vcs (0 + Z.of_nat (length (buffer (g vc))))).
    fold (count_vcs vcs (0 + Z.of_nat (length (buffer vc)))).
    rewrite (count_vcs_shift vcs (0 + _)), (count_vcs_shift vcs (0 + _)). lia.
  - unfold count_vcs. cbn [alter list_alter fold_left].
    fold (alter g k vcs).
    fold (count_vcs (alter g k vcs) (0 + Z.of_nat (length (buffer x)))).
    fold (count_vcs vcs (0 + Z.of_nat (length (buffer x)))).
    rewrite (count_vcs_shift (alter g k vcs)), (count_vcs_shift vcs (0 + _)).
    rewrite (IH k Hk). lia.
Qed.

Lemma count_nodes_alter (f : RingNode -> RingNode) (ns : list RingNode)
    (i : nat) (n : RingNode) :
  ns !! i = Some n ->
  fold_left count_node (alter f i ns) 0
  = fold_left count_node ns 0 + count_node 0 (f n) - count_node 0 n.
Proof.
  revert i. induction ns as [|x ns IH]; intros i Hi; [done|].
  destruct i as [|i]; cbn in Hi.
  - injection Hi as ->. cbn [alter list_alter fold_left].
    rewrite (count_nodes_shift ns (count_node 0 (f n))),
      (count_nodes_shift ns (count_node 0 n)). lia.
  - cbn [alter list_alter fold_left]. fold (alter f i ns).
    rewrite (count_nodes_shift (alter f i ns)), (count_nodes_shift ns (count_node 0 x)).
    rewrite (IH i Hi). lia.
Qed.

Lemma count_node_eq (n : RingNode) :
  count_node 0 n
  = count_vcs (cw_vcs n) 0 + count_vcs (ccw_vcs n) 0
    + count_vcs (local_vcs n) 0 + Z.of_nat (length (injection_queue n))
    + Z.of_nat (length (ejection_queue n)).
Proof.
  unfold count_node.
  rewrite (count_vcs_shift (local_vcs n)), (count_vcs_shift (ccw_vcs n)).
  lia.
Qed.

Lemma count_node_update_vcs (dir : RouteDirection)
    (g : VirtualChannel -> VirtualChannel) (k : nat) (n : RingNode)
    (vc : VirtualChannel) :
  getVCs n dir !! k = Some vc ->
  count_node 0 (update_vcs dir (alter g k) n)
  = count_node 0 n + Z.of_nat (length (buffer (g vc)))
    - Z.of_nat (length (buffer vc)).
Proof.
  intros Hk. rewrite !count_node_eq.
  destruct dir; cbn in Hk; [| | |done];
    cbn [update_vcs set_vcs cw_vcs ccw_vcs local_vcs injection_queue
         ejection_queue];
    rewrite (count_vcs_alter g _ k vc Hk); lia.
Qed.

Lemma count_node_set_ejection (n : RingNode) (q : list RingMessage) :
  count_node 0 (set_ejection n q)
  = count_node 0 n + Z.of_nat (length q)
    - Z.of_nat (length (ejection_queue n)).
Proof.
  rewrite !count_node_eq.
  cbn [set_ejection cw_vcs ccw_vcs local_vcs injection_queue ejection_queue].
  lia.
Qed.

Lemma count_node_set_stats (n : RingNode) (a b c d : Z) :
  count_node 0 (set_stats n a b c d) = count_node 0 n.
Proof. reflexivity. Qed.

Lemma count_update_node (r : t) (i : nat) (f : RingNode -> RingNode)
    (n : RingNode) :
  nodes_ r !! i = Some n ->
  getPendingMessageCount (update_node r i f)
  = getPendingMessageCount r + count_node 0 (f n) - count_node 0 n.
Proof. intros Hn. unfold getPendingMessageCount. cbn. by apply count_nodes_alter. Qed.

Lemma vc_enqueue_buffer (msg : RingMessage) (now : Z) (vc : VirtualChannel) :
  buffer (vc_enqueue msg now vc) = buffer vc ++ [msg].
Proof. reflexivity. Qed.

Lemma vc_dequeue_buffer (vc : VirtualChannel) :
  buffer (vc_dequeue vc) = tail (buffer vc).
Proof. reflexivity. Qed.

Lemma getVCs_update_vcs_grow (g : VirtualChannel -> VirtualChannel)
    (d dir : RouteDirection) (kk k : nat) (n : RingNode)
    (vc : VirtualChannel) :
  (forall v, (length (buffer v) <= length (buffer (g v)))%nat) ->
  getVCs n dir !! k = Some vc ->
  exists vc2, getVCs (update_vcs d (alter g kk) n) dir !! k = Some vc2
              /\ (length (buffer vc) <= length (buffer vc2))%nat.
Proof.
  intros Hg Hk.
  assert (Halt : forall vcs : list VirtualChannel, vcs !! k = Some vc ->
            exists vc2, alter g kk vcs !! k = Some vc2
                        /\ (length (buffer vc) <= length (buffer vc2))%nat).
  { intros vcs Hv. destruct (decide (kk = k)) as [->|Hne].
    - rewrite list_lookup_alter_eq, Hv. cbn. eauto.
    - rewrite list_lookup_alter_ne by done. eauto. }
  destruct d, dir; cbn in *; eauto.
Qed.

(** What a forwarding step does to the ring: nothing, or one message
    more in one node, none of whose channels gets shorter. *)
Lemma forwardMessage_cases (r : t) (i : nat) (message : RingMessage)
    (direction : RouteDirection) :
  forwardMessage r i message direction = (false, r) \/
  exists (j : nat) (f : RingNode -> RingNode) (n : RingNode),
    forwardMessage r i message direction = (true, update_node r j f) /\
    nodes_ r !! j = Some n /\
    count_node 0 (f n) = count_node 0 n + 1 /\
    forall dir k vc, getVCs n dir !! k = Some vc ->
      exists vc2, getVCs (f n) dir !! k = Some vc2
                  /\ (length (buffer vc) <= length (buffer vc2))%nat.
Proof.
  unfold forwardMessage.
  destruct (nodes_ r !! i) as [node|] eqn:Ei; [|by left].
  assert (Hhop : forall next d,
    let res :=
      match next with
      | None => (false, r)
      | Some j =>
          match nodes_ r !! j with
          | None => (false, r)
          | Some next_node =>
              if negb (canAcceptMessage next_node d (msg_priority message))
              then (false, r)
              else
                match selectOutputVC next_node d (msg_priority message) with
                | None => (false, r)
                | Some next_vc =>
                    (true,
                     update_node r j
                       (update_vcs d
                          (alter (vc_enqueue message (total_cycles_ r))
                                 next_vc)))
                end
          end
      end in
    res = (false, r) \/
    exists (j : nat) (f : RingNode -> RingNode) (n : RingNode),
      res = (true, update_node r j f) /\
      nodes_ r !! j = Some n /\
      count_node 0 (f n) = count_node 0 n + 1 /\
      forall dir k vc, getVCs n dir !! k = Some vc ->
        exists vc2, getVCs (f n) dir !! k = Some vc2
                    /\ (length (buffer vc) <= length (buffer vc2))%nat).
  { intros [j|] d; cbv zeta; [|by left].
    destruct (nodes_ r !! j) as [next_node|] eqn:Ej; [|by left].
    destruct (negb _); [by left|].
    destruct (selectOutputVC _ _ _) as [k|] eqn:Ek; [|by left].
    right. eexists j, _, next_node. split; [reflexivity|]. split; [done|].
    destruct (selectOutputVC_Some _ _ _ _ Ek) as (vc & Hvc & _).
    split.
    - rewrite (count_node_update_vcs d _ k next_node vc Hvc).
      rewrite vc_enqueue_buffer, length_app. cbn. lia.
    - intros dir k' vc' Hk'. apply getVCs_update_vcs_grow; [|done].
      intros v. rewrite vc_enqueue_buffer, length_app. lia. }
  destruct direction; [apply Hhop|apply Hhop| |by left].
  right. eexists i, _, node. split; [reflexivity|]. split; [done|]. split.
  - rewrite count_node_set_ejection, length_app. cbn. lia.
  - intros dir k vc Hk. exists vc. split; [|lia]. by destruct dir.
Qed.

Lemma selectRoute_frame (r : t) (src dst : Z) :
  nodes_ (selectRoute r src dst).2 = nodes_ r /\
  num_nodes_ (selectRoute r src dst).2 = num_nodes_ r /\
  total_cycles_ (selectRoute r src dst).2 = total_cycles_ r /\
  last_stats_cycle_ (selectRoute r src dst).2 = last_stats_cycle_ r.
Proof.
  unfold selectRoute. destruct (src =? dst); [done|].
  by destruct (route_lookup_cache_ r !! _).
Qed.

Lemma selectRoute_directed (r : t) (src dst : Z) :
  cache_directed r ->
  cache_directed (selectRoute r src dst).2 /\
  (src <> dst ->
   (selectRoute r src dst).1 = CLOCKWISE
   \/ (selectRoute r src dst).1 = COUNTER_CLOCKWISE).
Proof.
  intros Hc. unfold selectRoute. destruct (Z.eqb_spec src dst) as [E|E].
  { split; [done|]. intros Hne. by destruct Hne. }
  destruct (route_lookup_cache_ r !! generateRouteCacheKey src dst)
    as [d|] eqn:El; cbn [fst snd].
  - split; [done|]. intros _. by eapply Hc.
  - split.
    + intros key d. cbn.
      destruct (decide (key = generateRouteCacheKey src dst)) as [->|Hk].
      * rewrite lookup_insert_eq. intros [= <-]. destruct (_ <=? _); auto.
      * rewrite lookup_insert_ne by done. apply Hc.
    + intros _. destruct (_ <=? _); auto.
Qed.

Lemma tail_length {A} (l : list A) :
  (1 <= length l)%nat -> Z.of_nat (length (tail l)) = Z.of_nat (length l) - 1.
Proof. destruct l; cbn; lia. Qed.

Lemma processDirectionVCs_pending (r : t) (i : nat) (dir : RouteDirection) :
  cache_directed r ->
  cache_directed (processDirectionVCs r i dir) /\
  getPendingMessageCount (processDirectionVCs r i dir)
  = getPendingMessageCount r.
Proof.
  intros Hc. unfold processDirectionVCs.
  destruct (nodes_ r !! i) as [node|] eqn:Hn; [|done]. cbv zeta.
  destruct (vcArbitration (getVCs node dir)) as [sel|]; [|done].
  destruct (getVCs node dir !! sel) as [vc|] eqn:Hv; [|done].
  destruct (buffer vc) as [|msg rest] eqn:Hb; [done|].
  destruct (Z.eqb_spec (dst_unit msg) (node_id node)) as [Ed|Ed].
  - split; [exact Hc|].
    rewrite (count_update_node r i _ node Hn), count_node_set_stats.
    rewrite (count_node_update_vcs dir vc_dequeue sel _ vc)
      by (by destruct dir).
    rewrite count_node_set_ejection, vc_dequeue_buffer, Hb, length_app.
    cbn. lia.
  - destruct (selectRoute_frame r (node_id node) (dst_unit msg))
      as (Hfr & _).
    destruct (selectRoute_directed r (node_id node) (dst_unit msg) Hc)
      as (Hc1 & Hdir).
    destruct (selectRoute r (node_id node) (dst_unit msg))
      as [next_dir r1]. cbn [fst snd] in Hfr, Hc1, Hdir.
    assert (Hr1 : getPendingMessageCount r1 = getPendingMessageCount r)
      by (unfold getPendingMessageCount; by rewrite Hfr).
    assert (Hni : bool_decide (next_dir = INVALID) = false).
    { destruct Hdir as [->| ->]; [congruence|done|done]. }
    rewrite Hni.
    destruct (forwardMessage_cases r1 i msg next_dir)
      as [Hf|(j & f & nj & Hf & Hj & Hcnt & Hgrow)]; rewrite Hf; [done|].
    split; [exact Hc1|].
    assert (Hn2 : exists n2 vc2,
              nodes_ (update_node r1 j f) !! i = Some n2 /\
              getVCs n2 dir !! sel = Some vc2 /\
              (1 <= length (buffer vc2))%nat).
    { cbn [update_node set_nodes nodes_].
      destruct (decide (j = i)) as [->|Hne].
      - rewrite list_lookup_alter_eq, Hj. cbn.
        rewrite Hfr, Hn in Hj. injection Hj as <-.
        destruct (Hgrow dir sel vc Hv) as (vc2 & H2 & Hlen).
        rewrite Hb in Hlen. cbn in Hlen.
        exists (f node), vc2. split; [done|]. split; [done|lia].
      - rewrite list_lookup_alter_ne by done. rewrite Hfr, Hn.
        exists node, vc. rewrite Hb. cbn. split; [done|]. split; [done|lia]. }
    destruct Hn2 as (n2 & vc2 & Hi2 & Hv2 & Hlen2).
    rewrite (count_update_node _ i _ n2 Hi2), count_node_set_stats.
    rewrite (count_node_update_vcs dir vc_dequeue sel n2 vc2 Hv2).
    rewrite (count_update_node r1 j f nj Hj), Hcnt, vc_dequeue_buffer.
    rewrite (tail_length _ Hlen2). lia.
Qed.

Lemma tick_pending (r : t) (current_cycle : Z) :
  cache_directed r ->
  cache_directed (tick r current_cycle) /\
  getPendingMessageCount (tick r current_cycle) = getPendingMessageCount r.
Proof.
  intros Hc. unfold tick. cbv zeta.
  set (r0 := set_clock r _ _ current_cycle _).
  set (P := fun s => cache_directed s
                     /\ getPendingMessageCount s = getPendingMessageCount r).
  assert (Hfold : P (fold_left processNodeRouting
                       (map Z.of_nat (seq 0 (Z.to_nat (num_nodes_ r0)))) r0)).
  { apply fold_left_preserves; [|by split].
    intros s id [Hs Hcount]. unfold processNodeRouting.
    destruct (getNode s id); [|by split]. unfold processInjectionQueue.
    destruct (processDirectionVCs_pending s (Z.to_nat id) CLOCKWISE Hs)
      as [Hs1 Hc1].
    destruct (processDirectionVCs_pending _ (Z.to_nat id) COUNTER_CLOCKWISE
                Hs1) as [Hs2 Hc2].
    split; [done|]. by rewrite Hc2, Hc1. }
  destruct Hfold as [Hd Hcount].
  by destruct (1000 <=? _).
Qed.

Lemma sendMessage_directed (r : t) (src dst : Z) (message : RingMessage)
    (prio : Z) :
  cache_directed r -> cache_directed (sendMessage r src dst message prio).2.
Proof.
  intros Hc. unfold sendMessage. destruct (_ || _); [done|].
  destruct (getNode r src) as [node|]; [|done].
  destruct (src =? dst); [done|].
  destruct (selectRoute_directed r src dst Hc) as [Hc1 _].
  destruct (selectRoute r src dst) as [route_dir r1]. cbn [snd] in Hc1.
  destruct (bool_decide _); [done|].
  by destruct (selectOutputVC _ _ _).
Qed.

Lemma receiveMessage_directed (r : t) (id : Z) :
  cache_directed r -> cache_directed (receiveMessage r id).2.
Proof.
  intros Hc. unfold receiveMessage. destruct (getNode r id) as [node|]; [|done].
  by destruct (ejection_queue node).
Qed.

Lemma reachable_directed (r : t) : reachable r -> cache_directed r.
Proof.
  induction 1 as [k v c o r Hk Hc Hnew| | | |].
  - unfold new in Hnew.
    destruct (_ && o); [done|]. destruct (_ && o); [done|].
    destruct (_ || _); [done|]. destruct (_ && o); [done|].
    injection Hnew as <-. intros key d. cbn. by rewrite lookup_empty.
  - by apply sendMessage_directed.
  - by apply receiveMessage_directed.
  - by apply tick_pending.
  - by apply selectRoute_directed.
Qed.

(** X6: tick conserves the messages in flight: on a ring driven through its
    public operations a clock cycle moves messages between channels and
    ejection queues but never drops or duplicates one; in particular the
    branch that discards a message whose route is INVALID is never
    taken. *)
Lemma tick_conserves_messages (r : t) (current_cycle : Z) :
  reachable r ->
  getPendingMessageCount (tick r current_cycle) = getPendingMessageCount r.
Proof. intros Hr. by apply tick_pending, reachable_directed. Qed.

Lemma tick_conserves_messages_witness :
  getPendingMessageCount (tick ring2_busy 6) = 2.
Proof.
  rewrite (tick_conserves_messages ring2_busy 6 ring2_busy_reachable).
  reflexivity.
Defined.

(** X7: sendMessage either takes the message into the ring, which then holds
    exactly one message more, or refuses it and leaves every node as it
    was (a refusal for want of a free channel may still have filled the
    route cache). *)
Lemma sendMessage_adds_one_or_nothing (r : t) (src dst : Z)
    (message : RingMessage) (prio : Z) :
  let res := sendMessage r src dst message prio in
  (res.1 = true ->
     getPendingMessageCount res.2 = getPendingMessageCount r + 1) /\
  (res.1 = false -> nodes_ res.2 = nodes_ r).
Proof.
  cbv zeta. unfold sendMessage. destruct (_ || _); [done|].
  destruct (getNode r src) as [node|] eqn:Hnode; [|done].
  apply getNode_Some in Hnode as [_ Hi].
  destruct (src =? dst).
  - split; [intros _|done]. cbn [snd].
    rewrite (count_update_node r _ _ node Hi), count_node_set_stats,
      count_node_set_ejection, length_app. cbn. lia.
  - destruct (selectRoute_frame r src dst) as (Hfr & _).
    destruct (selectRoute r src dst) as [route_dir r1]. cbn [snd] in Hfr.
    destruct (bool_decide _); [done|].
    destruct (selectOutputVC node route_dir prio) as [k|] eqn:Ek; [|done].
    split; [intros _|done]. cbn [snd].
    destruct (selectOutputVC_Some _ _ _ _ Ek) as (vc & Hvc & _).
    rewrite <- Hfr in Hi.
    rewrite (count_update_node r1 _ _ node Hi), count_node_set_stats,
      (count_node_update_vcs route_dir _ k node vc Hvc),
      vc_enqueue_buffer, length_app.
    unfold getPendingMessageCount. rewrite Hfr. cbn. lia.
Qed.

(** X8: receiveMessage hands out the head of the node's ejection queue and
    nothing else: it answers exactly when hasTrafficForNode does, the
    rest of the queue keeps its order, and the ring then holds one
    message less; without traffic the ring is unchanged. *)
Lemma receiveMessage_takes_head (r : t) (id : Z) :
  let res := receiveMessage r id in
  match res.1 with
  | Some message =>
      hasTrafficForNode r id = true /\
      (exists node, getNode r id = Some node /\
         ejection_queue node
         = message :: default [] (ejection_queue <$> getNode res.2 id)) /\
      getPendingMessageCount res.2 = getPendingMessageCount r - 1
  | None => hasTrafficForNode r id = false /\ res.2 = r
  end.
Proof.
  cbv zeta. unfold receiveMessage, hasTrafficForNode.
  destruct (getNode r id) as [node|] eqn:Hnode; [|done].
  destruct (ejection_queue node) as [|message rest] eqn:Hq; [done|].
  cbn [fst snd]. split; [done|].
  pose proof Hnode as Hg. apply getNode_Some in Hg as [Hid Hi]. split.
  - exists node. split; [done|]. f_equal.
    unfold getNode. cbn.
    destruct (Z.leb_spec 0 id); [|lia].
    destruct (Z.ltb_spec id (num_nodes_ r)); [|lia]. cbn.
    by rewrite list_lookup_alter_eq, Hi.
  - change (getPendingMessageCount (set_clock ?s _ _ _ _))
      with (getPendingMessageCount s).
    rewrite (count_update_node r _ _ node Hi), count_node_set_stats,
      count_node_set_ejection, Hq. cbn [length]. lia.
Qed.

(** *** Deadlock detection *)

(** X9: detectDeadlock reports a deadlock exactly when the ring has a
    clockwise channel and every clockwise channel of every node holds
    data and has no space.  Counter-clockwise and local channels are not
    looked at. *)
Lemma detectDeadlock_iff_all_clockwise_blocked (r : t) :
  detectDeadlock r = true <->
  (exists n vc, n ∈ nodes_ r /\ vc ∈ cw_vcs n) /\
  (forall n vc, n ∈ nodes_ r -> vc ∈ cw_vcs n ->
     hasData vc = true /\ hasSpace vc = false).
Proof.
  unfold detectDeadlock. rewrite existsb_exists. split.
  - intros (n & Hn & Hex). apply existsb_exists in Hex as (vc & Hvc & Hb).
    apply andb_true_iff in Hb as [_ Hall]. split.
    + exists n, vc. by rewrite !list_elem_of_In.
    + intros n' vc' Hn' Hvc'. rewrite forallb_forall in Hall.
      specialize (Hall n' (proj1 (list_elem_of_In _ _) Hn')).
      rewrite forallb_forall in Hall.
      specialize (Hall vc' (proj1 (list_elem_of_In _ _) Hvc')).
      unfold vc_blocked in Hall. apply andb_true_iff in Hall as [Hd Hs].
      split; [done|]. by apply negb_true_iff.
  - intros [(n & vc & Hn & Hvc) Hall].
    assert (Hblocked : forall n' vc', n' ∈ nodes_ r -> vc' ∈ cw_vcs n' ->
              vc_blocked vc' = true).
    { intros n' vc' Hn' Hvc'. destruct (Hall n' vc' Hn' Hvc') as [Hd Hs].
      unfold vc_blocked. by rewrite Hd, Hs. }
    exists n. split; [by apply list_elem_of_In|].
    apply existsb_exists. exists vc. split; [by apply list_elem_of_In|].
    apply andb_true_iff. split; [by apply (Hblocked n vc)|].
    apply forallb_forall. intros n' Hn'. apply forallb_forall.
    intros vc' Hvc'. apply (Hblocked n' vc'); by apply list_elem_of_In.
Qed.

(** ** Further properties of the network interface *)

(** X10: A spike that crosses the network as a request comes out with its
    source neuron, destination neuron, timestamp and destination node,
    with the weight narrowed to [float], and with a hop count of zero
    whatever its hop count was when it was sent. *)
Lemma request_roundtrip_resets_hop_count {W N : Type}
    (sizeof_SpikePayload : Z) (float_of_double : W -> W)
    (nic : SnnNIC.t W N) (ev : SpikeEvent.t W) (dest_node : Z) :
  is_u32 dest_node ->
  SnnNIC.extractSpikeEvent
    (Some (SnnNIC.createNetworkRequest sizeof_SpikePayload float_of_double
             nic ev dest_node))
  = Some (SpikeEvent.mk (SpikeEvent.neuron_id ev) (SpikeEvent.timestamp ev) 0
            (SpikeEvent.dest_neuron ev) dest_node
            (float_of_double (SpikeEvent.weight ev))).
Proof.
  intros Hd. unfold SnnNIC.extractSpikeEvent, SnnNIC.createNetworkRequest.
  cbn. unfold u32. rewrite Z.mod_small; [done|]. exact Hd.
Qed.

Lemma request_roundtrip_witness :
  SpikeEvent.hop_count spike_with_hops = 3 /\
  SpikeEvent.hop_count <$>
    SnnNIC.extractSpikeEvent
      (Some (SnnNIC.createNetworkRequest 64 id (slot_nic 1 false)
               spike_with_hops 2))
  = Some 0.
Proof.
  split; [reflexivity|].
  rewrite (request_roundtrip_resets_hop_count 64 id (slot_nic 1 false)
             spike_with_hops 2); [reflexivity|].
  unfold is_u32. lia.
Defined.

(** ** The spike multiplexer *)

Lemma sum_fold_shift {A} (f : A -> Z) (l : list A) (n : Z) :
  fold_left (fun n a => n + f a) l n
  = n + fold_left (fun n a => n + f a) l 0.
Proof.
  revert n. induction l as [|x l IH]; intros n; cbn [fold_left]; [lia|].
  rewrite IH, (IH (0 + f x)). lia.
Qed.

Lemma sum_fold_insert {A} (f : A -> Z) (l : list A) (i : nat) (x y : A) :
  l !! i = Some x ->
  fold_left (fun n a => n + f a) (<[i := y]> l) 0
  = fold_left (fun n a => n + f a) l 0 + f y - f x.
Proof.
  revert i. induction l as [|z l IH]; intros i Hi; [done|].
  destruct i as [|i]; cbn in Hi.
  - injection Hi as ->. change (<[0%nat := y]> (x :: l)) with (y :: l).
    cbn [fold_left].
    rewrite (sum_fold_shift f l (0 + f y)), (sum_fold_shift f l (0 + f x)).
    lia.
  - change (<[S i := y]> (z :: l)) with (z :: <[i := y]> l).
    cbn [fold_left].
    rewrite (sum_fold_shift f (<[i := y]> l)), (sum_fold_shift f l (0 + f z)).
    rewrite (IH i Hi). lia.
Qed.

Section MUX.
Import SpikeMUX.
Context {W : Type}.
Implicit Types (m : SpikeMUX.t W) (e : SpikeEvent.t W).

(** X11: The output port is the index of the block of [per_pe_neurons_]
    neuron ids that holds the destination neuron, or -1 when that block
    is beyond the last port; the destination node of the spike and the
    [use_dest_node_first] switch have no influence on it. *)
Lemma selectPort_is_block_index m (dest_global dest_node : Z) :
  is_int (num_ports_ m) -> 0 <= per_pe_neurons_ m -> 0 <= dest_global ->
  let port := selectPortForDestination m dest_global dest_node in
  (forall dest_node' flag,
     selectPortForDestination
       (SpikeMUX.mk (num_ports_ m) (per_pe_neurons_ m) (max_queue_depth_ m)
          (fwd_latency_cycles_ m) flag (out_links_ m) (out_queues_ m)
          (current_cycle_ m) (queue_peak_ m) (stat_forwarded_ m)
          (stat_dropped_ m) (sent m))
       dest_global dest_node' = port) /\
  (port = -1 \/
   0 <= port < num_ports_ m /\
   per_pe_neurons_ m * port <= dest_global
   < per_pe_neurons_ m * (port + 1)) /\
  (port = -1 <->
   per_pe_neurons_ m = 0 \/ num_ports_ m <= 0
   \/ num_ports_ m * per_pe_neurons_ m <= dest_global).
Proof.
  intros Hint Hper Hdg.
  assert (Hcalc : forall dn flag,
    selectPortForDestination
      (SpikeMUX.mk (num_ports_ m) (per_pe_neurons_ m) (max_queue_depth_ m)
         (fwd_latency_cycles_ m) flag (out_links_ m) (out_queues_ m)
         (current_cycle_ m) (queue_peak_ m) (stat_forwarded_ m)
         (stat_dropped_ m) (sent m)) dest_global dn
    = if (per_pe_neurons_ m =? 0) || (num_ports_ m <=? 0) then -1
      else if dest_global / per_pe_neurons_ m <? u64 (num_ports_ m)
           then dest_global / per_pe_neurons_ m else -1).
  { intros dn flag. unfold selectPortForDestination. cbn.
    destruct (_ || _); [done|]. destruct flag; [|done].
    destruct (dn <? _); [|done].
    destruct (Z.leb_spec 0 (if dest_global / per_pe_neurons_ m
                               <? u64 (num_ports_ m)
                            then dest_global / per_pe_neurons_ m else -1));
      cbn [andb]; [|done].
    by destruct (Z.eqb_spec dn (if dest_global / per_pe_neurons_ m
                                  <? u64 (num_ports_ m)
                               then dest_global / per_pe_neurons_ m else -1)). }
  assert (Hm : selectPortForDestination m dest_global dest_node
    = if (per_pe_neurons_ m =? 0) || (num_ports_ m <=? 0) then -1
      else if dest_global / per_pe_neurons_ m <? u64 (num_ports_ m)
           then dest_global / per_pe_neurons_ m else -1).
  { rewrite <- (Hcalc dest_node (use_dest_node_first_ m)). by destruct m. }
  cbv zeta. rewrite Hm. split; [intros dn flag; apply Hcalc|].
  destruct (Z.eqb_spec (per_pe_neurons_ m) 0) as [E0|E0]; cbn [orb].
  { split; [by left|]. split; auto. }
  destruct (Z.leb_spec (num_ports_ m) 0) as [Ep|Ep].
  { split; [by left|]. split; auto. }
  assert (Hu : u64 (num_ports_ m) = num_ports_ m).
  { unfold u64. apply Z.mod_small. unfold is_int in Hint.
    change (2 ^ 64) with 18446744073709551616.
    change (2 ^ 31) with 2147483648 in Hint. lia. }
  rewrite Hu.
  assert (Hpos : 0 < per_pe_neurons_ m) by lia.
  pose proof (Z.mul_div_le dest_global _ Hpos) as Hlo.
  pose proof (Z.mul_succ_div_gt dest_global _ Hpos) as Hhi.
  pose proof (Z.div_pos dest_global _ Hdg Hpos) as Hq.
  destruct (Z.ltb_spec (dest_global / per_pe_neurons_ m) (num_ports_ m))
    as [Hlt|Hge].
  - split; [right; split; lia|]. split; [lia|].
    intros [?|[?|Hbig]]; [lia|lia|]. exfalso. nia.
  - split; [by left|]. split; [|done]. intros _. right. right. nia.
Qed.

Lemma release_split (cycle : Z) (q : list (Pending W)) :
  (release cycle q).1 ++ (release cycle q).2 = q /\
  Forall (fun item => ready_cycle item <= cycle) (release cycle q).1 /\
  (forall item rest, (release cycle q).2 = item :: rest ->
     cycle < ready_cycle item).
Proof.
  induction q as [|item q IH]; [by cbn|].
  cbn [release]. destruct (Z.leb_spec (ready_cycle item) cycle) as [Hle|Hgt].
  - destruct (release cycle q) as [out q']. cbn [fst snd] in *.
    destruct IH as (Happ & Hall & Hhead).
    split; [cbn; by rewrite Happ|]. split; [by constructor|done].
  - cbn [fst snd]. split; [done|]. split; [constructor|].
    intros item' rest [= <- _]. done.
Qed.

Lemma forward_all_fields m (p : Z) (out : list (Pending W)) :
  let m' := fold_left (fun m item => forward_spike m p (ev item)) out m in
  out_queues_ m' = out_queues_ m /\ out_links_ m' = out_links_ m /\
  num_ports_ m' = num_ports_ m /\
  max_queue_depth_ m' = max_queue_depth_ m /\
  current_cycle_ m' = current_cycle_ m /\
  stat_dropped_ m' = stat_dropped_ m /\
  sent m' = sent m ++ map (fun item => (p, ev item)) out.
Proof.
  revert m. induction out as [|item out IH]; intros m; cbn [fold_left map].
  - by rewrite app_nil_r.
  - destruct (IH (forward_spike m p (ev item)))
      as (Hq & Hl & Hn & Hd & Hc & Hs & Hsent).
    cbv zeta in *. rewrite Hq, Hl, Hn, Hd, Hc, Hs, Hsent. cbn.
    by rewrite <- app_assoc.
Qed.

Lemma queued_insert m (qs : list (list (Pending W))) (p : nat)
    (q q' : list (Pending W)) :
  qs !! p = Some q ->
  fold_left (fun n q => n + Z.of_nat (length q)) (<[p := q']> qs) 0
  = fold_left (fun n q => n + Z.of_nat (length q)) qs 0
    + Z.of_nat (length q') - Z.of_nat (length q).
Proof. apply (sum_fold_insert (fun q => Z.of_nat (length q))). Qed.

(** What one port's share of a clock tick keeps true. *)
Lemma tick_port_inv m (p : nat) :
  ports_ok m -> queued_on_links m ->
  let m' := tick_port m p in
  ports_ok m' /\ queued_on_links m' /\
  current_cycle_ m' = current_cycle_ m /\
  max_queue_depth_ m' = max_queue_depth_ m /\
  stat_dropped_ m' = stat_dropped_ m /\
  (queues_bounded m -> queues_bounded m') /\
  Z.of_nat (length (sent m')) + queued m'
  = Z.of_nat (length (sent m)) + queued m.
Proof.
  intros (Hint & Hll & Hlq) Hon. unfold tick_port.
  destruct (release_split (current_cycle_ m)
              (default [] (out_queues_ m !! p))) as (Happ & _ & _).
  destruct (release (current_cycle_ m) (default [] (out_queues_ m !! p)))
    as [out q'] eqn:Erel. cbn [fst snd] in Happ.
  set (m1 := set_queues m (<[p := q']> (out_queues_ m)) (queue_peak_ m)).
  assert (Hlen : (length q' <= length (default [] (out_queues_ m !! p)))%nat).
  { rewrite <- Happ, length_app. lia. }
  assert (H1 : ports_ok m1 /\ queued_on_links m1 /\
               (queues_bounded m -> queues_bounded m1) /\
               queued m1 = queued m - Z.of_nat (length out) /\
               (out_links_ m !! p <> Some true -> out = [])).
  { destruct (out_queues_ m !! p) as [q|] eqn:Eq;
      cbn [default from_option id] in *.
    - split; [|split; [|split; [|split]]].
      + unfold ports_ok. cbn. by rewrite length_insert.
      + intros p' q'' Hl Hne. cbn in Hl |- *.
        destruct (decide (p' = p)) as [->|Hp].
        * apply (Hon p q Eq). intros ->.
          apply app_eq_nil in Happ as [_ ->].
          rewrite list_lookup_insert_eq in Hl
            by (by eapply lookup_lt_Some). by injection Hl as <-.
        * rewrite list_lookup_insert_ne in Hl by done. by eapply Hon.
      + unfold queues_bounded. cbn. intros Hb.
        apply Forall_insert; [done|].
        rewrite Forall_lookup in Hb. specialize (Hb p q Eq). cbn in Hb. lia.
      + unfold queued. cbn. rewrite (queued_insert m _ p q q' Eq).
        rewrite <- Happ, length_app. lia.
      + intros Hno. destruct q as [|item q].
        * by apply app_eq_nil in Happ as [-> _].
        * exfalso. apply Hno. by apply (Hon p (item :: q) Eq).
    - cbn in Erel. injection Erel as <- <-.
      assert (Hsame : <[p := []]> (out_queues_ m) = out_queues_ m).
      { apply list_insert_ge. by apply lookup_ge_None. }
      split; [|split; [|split; [|split]]].
      + unfold ports_ok. cbn. by rewrite Hsame.
      + intros p' q''. cbn. rewrite Hsame. apply Hon.
      + unfold queues_bounded. cbn. by rewrite Hsame.
      + unfold queued. cbn. rewrite Hsame. lia.
      + done. }
  destruct H1 as (Hp1 & Hon1 & Hb1 & Hq1 & Hout).
  change (out_links_ m1) with (out_links_ m).
  destruct (out_links_ m !! p) as [[]|] eqn:El; cbn [default from_option id].
  - destruct (forward_all_fields m1 (Z.of_nat p) out)
      as (Hq & Hl & Hn & Hd & Hc & Hs & Hsent).
    cbv zeta in *.
    set (m2 := fold_left _ out m1) in *.
    split; [unfold ports_ok; by rewrite Hq, Hl, Hn|].
    split; [intros p' q''; rewrite Hq, Hl; apply Hon1|].
    split; [by rewrite Hc|]. split; [by rewrite Hd|]. split; [by rewrite Hs|].
    split.
    + intros Hb. specialize (Hb1 Hb). unfold queues_bounded in *.
      by rewrite Hq, Hd.
    + unfold queued in *. rewrite Hq, Hsent, length_app, length_map.
      change (sent m1) with (sent m). lia.
  - rewrite Hout in Hq1 by done. cbn [length] in Hq1.
    repeat (split; [done|]). change (sent m1) with (sent m). lia.
  - rewrite Hout in Hq1 by done. cbn [length] in Hq1.
    repeat (split; [done|]). change (sent m1) with (sent m). lia.
Qed.

Lemma handleInbound_cases m e :
  ports_ok m ->
  let port := selectPortForDestination m (SpikeEvent.dest_neuron e)
                (SpikeEvent.dest_node e) in
  let m' := handleInbound m (Some e) in
  m' = drop_spike m \/
  (m' = forward_spike m port e /\ fwd_latency_cycles_ m = 0 /\
   out_links_ m !! Z.to_nat port = Some true) \/
  (exists q peak,
     out_queues_ m !! Z.to_nat port = Some q /\
     out_links_ m !! Z.to_nat port = Some true /\
     fwd_latency_cycles_ m <> 0 /\
     (0 < max_queue_depth_ m ->
      Z.of_nat (length q) < max_queue_depth_ m) /\
     m' = set_queues m
            (<[Z.to_nat port :=
                 q ++ [mkPending e
                         (u64 (current_cycle_ m + fwd_latency_cycles_ m))
                         port]]> (out_queues_ m)) peak).
Proof.
  intros (Hint & Hll & Hlq). cbv zeta. unfold handleInbound.
  set (port := selectPortForDestination m _ _).
  destruct (Z.ltb_spec port 0); [by left|].
  destruct (Z.leb_spec (num_ports_ m) port); [by left|]. cbn [orb].
  destruct (out_links_ m !! Z.to_nat port) as [[]|] eqn:El;
    cbn [default from_option id negb]; [|by left|by left].
  destruct (Z.eqb_spec (fwd_latency_cycles_ m) 0) as [E0|E0].
  { right. left. done. }
  destruct (out_queues_ m !! Z.to_nat port) as [q|] eqn:Eq.
  2:{ apply lookup_ge_None in Eq. lia. }
  cbn [default from_option id].
  destruct (Z.ltb_spec 0 (max_queue_depth_ m)) as [Hpos|Hpos]; cbn [andb].
  - destruct (Z.leb_spec (max_queue_depth_ m) (Z.of_nat (length q)));
      [by left|].
    right. right. eexists q, _. repeat (split; [done|]). reflexivity.
  - right. right. eexists q, _. repeat (split; [done|]).
    split; [lia|reflexivity].
Qed.


Lemma handleInbound_inv m (sev : option (SpikeEvent.t W)) :
  ports_ok m -> queued_on_links m ->
  let m' := handleInbound m sev in
  ports_ok m' /\ queued_on_links m' /\
  (0 < max_queue_depth_ m -> queues_bounded m -> queues_bounded m').
Proof.
  intros Hok Hon. destruct sev as [e|]; [|done]. cbv zeta.
  destruct (handleInbound_cases m e Hok)
    as [->|[(-> & H0 & _)|(q & peak & Hq & Hl & Hlat & Hroom & ->)]];
    [done|done|].
  destruct Hok as (Hint & Hll & Hlq).
  split; [|split].
  - unfold ports_ok. cbn. by rewrite length_insert.
  - intros p' q'. cbn.
    set (port := Z.to_nat (selectPortForDestination m _ _)) in *.
    destruct (decide (p' = port)) as [->|Hp]; [done|].
    rewrite list_lookup_insert_ne by done. apply Hon.
  - intros Hpos Hb. unfold queues_bounded in *. cbn.
    apply Forall_insert; [done|]. rewrite length_app. cbn.
    specialize (Hroom Hpos). lia.
Qed.

(** X13: With a queue depth configured, no port queue ever grows beyond it:
    both the arrival of a spike and a clock tick keep every queue within
    [max_queue_depth_]. *)
Lemma queues_stay_within_depth m (sev : option (SpikeEvent.t W)) (cycle : Z) :
  ports_ok m -> queued_on_links m -> 0 < max_queue_depth_ m ->
  queues_bounded m ->
  queues_bounded (handleInbound m sev) /\ queues_bounded (onClockTick m cycle).
Proof.
  intros Hok Hon Hpos Hb. split.
  - by apply handleInbound_inv.
  - unfold onClockTick.
    set (P := fun s : SpikeMUX.t W =>
                ports_ok s /\ queued_on_links s /\ queues_bounded s).
    assert (HP : P (fold_left tick_port (seq 0 (Z.to_nat (num_ports_ m)))
                      (set_cycle m cycle))); [|apply HP].
    apply fold_left_preserves; [|done].
    intros s p (Hs1 & Hs2 & Hs3).
    destruct (tick_port_inv s p Hs1 Hs2) as (? & ? & _ & _ & _ & Hbb & _).
    split; [done|]. split; [done|]. by apply Hbb.
Qed.

(** X14: A clock tick only moves spikes from the queues to the links: the
    number of spikes sent plus the number waiting is unchanged, nothing
    is counted as dropped, and the branch that deletes a released spike
    for want of a link is never taken, because spikes wait only on
    ports that have one. *)
Lemma onClockTick_deletes_nothing m (cycle : Z) :
  ports_ok m -> queued_on_links m ->
  let m' := onClockTick m cycle in
  Z.of_nat (length (sent m')) + queued m'
  = Z.of_nat (length (sent m)) + queued m /\
  stat_dropped_ m' = stat_dropped_ m /\
  ports_ok m' /\ queued_on_links m'.
Proof.
  intros Hok Hon. cbv zeta. unfold onClockTick.
  set (P := fun s : SpikeMUX.t W =>
              ports_ok s /\ queued_on_links s /\
              stat_dropped_ s = stat_dropped_ m /\
              Z.of_nat (length (sent s)) + queued s
              = Z.of_nat (length (sent m)) + queued m).
  assert (HP : P (fold_left tick_port (seq 0 (Z.to_nat (num_ports_ m)))
                    (set_cycle m cycle))).
  { apply fold_left_preserves; [|done].
    intros s p (Hs1 & Hs2 & Hs3 & Hs4).
    destruct (tick_port_inv s p Hs1 Hs2) as (? & ? & _ & _ & Hd & _ & Hc).
    split; [done|]. split; [done|]. split; [by rewrite Hd|by rewrite Hc]. }
  destruct HP as (? & ? & ? & ?). done.
Qed.

End MUX.

Lemma demo_mux_ok :
  SpikeMUX.ports_ok demo_mux /\ SpikeMUX.queued_on_links demo_mux.
Proof.
  split.
  - split; [unfold is_int; cbn; lia|]. split; reflexivity.
  - intros [|[|p]] q Hl Hne; [reflexivity|reflexivity|].
    unfold demo_mux in Hl. cbn in Hl. discriminate.
Defined.

Lemma busy_mux_ok :
  SpikeMUX.ports_ok busy_mux /\ SpikeMUX.queued_on_links busy_mux.
Proof.
  destruct demo_mux_ok as [Hok Hon].
  destruct (handleInbound_inv demo_mux (Some echo_spike) Hok Hon)
    as (H1 & H2 & _).
  split; [exact H1|exact H2].
Defined.

Lemma selectPort_is_block_index_witness :
  SpikeMUX.selectPortForDestination demo_mux 5 0 = -1 <->
  SpikeMUX.per_pe_neurons_ demo_mux = 0 \/ SpikeMUX.num_ports_ demo_mux <= 0
  \/ SpikeMUX.num_ports_ demo_mux * SpikeMUX.per_pe_neurons_ demo_mux <= 5.
Proof.
  refine (proj2 (proj2 (selectPort_is_block_index demo_mux 5 0 _ _ _)));
    [unfold is_int|..]; cbn; lia.
Defined.


Lemma queues_stay_within_depth_witness :
  SpikeMUX.queues_bounded (SpikeMUX.handleInbound busy_mux (Some echo_spike))
  /\ SpikeMUX.queues_bounded (SpikeMUX.onClockTick busy_mux 3).
Proof.
  apply (queues_stay_within_depth busy_mux (Some echo_spike) 3
           (proj1 busy_mux_ok) (proj2 busy_mux_ok)).
  - reflexivity.
  - repeat constructor; vm_compute; congruence.
Defined.

Lemma onClockTick_deletes_nothing_witness :
  Z.of_nat (length (SpikeMUX.sent (SpikeMUX.onClockTick busy_mux 3)))
  + SpikeMUX.queued (SpikeMUX.onClockTick busy_mux 3) = 1.
Proof.
  rewrite (proj1 (onClockTick_deletes_nothing busy_mux 3
                    (proj1 busy_mux_ok) (proj2 busy_mux_ok))).
  reflexivity.
Defined.

(** ** Topology handlers *)

Lemma wrap_int_small (x : Z) :
  - 2 ^ 31 <= x < 2 ^ 31 -> MultiCorePE.wrap_int x = x.
Proof.
  intros Hx. unfold MultiCorePE.wrap_int.
  change (2 ^ 31) with 2147483648 in *. change (2 ^ 32) with 4294967296.
  rewrite Z.mod_small; lia.
Qed.

Lemma u32_small (x : Z) : 0 <= x < 2 ^ 32 -> u32 x = x.
Proof. intros Hx. unfold u32. by apply Z.mod_small. Qed.

Lemma grid_divmod (w x y : Z) :
  0 <= x < w -> (y * w + x) mod w = x /\ (y * w + x) / w = y.
Proof.
  intros Hx. split.
  - symmetry. apply Z.mod_unique with y; lia.
  - symmetry. apply Z.div_unique with x; lia.
Qed.

Lemma grid_coords (w hgt id : Z) :
  0 < w -> 0 <= id < w * hgt ->
  0 <= id mod w < w /\ 0 <= id / w < hgt /\ id = id / w * w + id mod w.
Proof.
  intros Hw Hid. split; [apply Z.mod_pos_bound; lia|]. split.
  - split; [apply Z.div_pos; lia|]. apply Z.div_lt_upper_bound; lia.
  - pose proof (Z.div_mod id w). lia.
Qed.

Lemma grid_node (w hgt x y : Z) :
  0 < w -> 0 < hgt -> w * hgt < 2 ^ 32 -> 0 <= x < w -> 0 <= y < hgt ->
  u32 (u32 (y * w) + x) = y * w + x /\ 0 <= y * w + x < w * hgt /\
  (y * w + x) mod w = x /\ (y * w + x) / w = y.
Proof.
  intros Hw Hh Hsize Hx Hy.
  assert (Hb : 0 <= y * w + x < w * hgt) by nia.
  split; [|split; [done|by apply grid_divmod]].
  rewrite (u32_small (y * w)) by nia. apply u32_small. lia.
Qed.

(** X15: Node ids and coordinates of a mesh name each other: converting a
    node id to coordinates and back gives the id, and converting
    coordinates inside the mesh to a node id and back gives the
    coordinates. *)
Lemma mesh_coordinates_roundtrip (w hgt : Z) :
  0 < w -> 0 < hgt -> w * hgt < 2 ^ 32 ->
  (forall id, 0 <= id < w * hgt ->
     Mesh2DHandler.coordToNode w (Mesh2DHandler.nodeToCoord w id).1
       (Mesh2DHandler.nodeToCoord w id).2 = id) /\
  (forall x y, 0 <= x < w -> 0 <= y < hgt ->
     0 <= Mesh2DHandler.coordToNode w x y < w * hgt /\
     Mesh2DHandler.nodeToCoord w (Mesh2DHandler.coordToNode w x y) = (x, y)).
Proof.
  intros Hw Hh Hsize.
  assert (Hnode : forall x y, 0 <= x < w -> 0 <= y < hgt ->
            Mesh2DHandler.coordToNode w x y = y * w + x
            /\ 0 <= y * w + x < w * hgt).
  { intros x y Hx Hy. assert (Hb : 0 <= y * w + x < w * hgt) by nia.
    split; [|done]. unfold Mesh2DHandler.coordToNode.
    rewrite (u32_small (y * w)) by nia. apply u32_small. lia. }
  split.
  - intros id Hid. destruct (grid_coords w hgt id Hw Hid) as (Hx & Hy & Heq).
    cbn [Mesh2DHandler.nodeToCoord fst snd].
    rewrite (proj1 (Hnode _ _ Hx Hy)). lia.
  - intros x y Hx Hy. destruct (Hnode x y Hx Hy) as [-> Hb].
    split; [done|]. unfold Mesh2DHandler.nodeToCoord.
    destruct (grid_divmod w x y Hx) as [-> ->]. done.
Qed.

Lemma mesh_coordinates_roundtrip_witness :
  Mesh2DHandler.nodeToCoord 4 (Mesh2DHandler.coordToNode 4 3 2) = (3, 2).
Proof.
  refine (proj2 (proj2 (mesh_coordinates_roundtrip 4 4 _ _ _) 3 2 _ _));
    cbn; lia.
Defined.

Lemma mesh_hop_distance (w hgt a dest : Z) :
  0 < w -> 0 < hgt -> w * hgt < 2 ^ 31 ->
  0 <= a < w * hgt -> 0 <= dest < w * hgt ->
  Mesh2DHandler.calculateHopDistance (Mesh2DHandler.initialize w hgt a) dest
  = Z.abs (dest mod w - a mod w) + Z.abs (dest / w - a / w).
Proof.
  intros Hw Hh Hsize Ha Hd.
  destruct (grid_coords w hgt a Hw Ha) as (Hx & Hy & _).
  destruct (grid_coords w hgt dest Hw Hd) as (Hdx & Hdy & _).
  assert (Hwb : w < 2 ^ 31 /\ hgt < 2 ^ 31) by nia.
  unfold Mesh2DHandler.calculateHopDistance, Mesh2DHandler.initialize,
    Mesh2DHandler.nodeToCoord.
  cbn [Mesh2DHandler.width Mesh2DHandler.my_x Mesh2DHandler.my_y fst snd].
  rewrite (wrap_int_small (dest mod w)), (wrap_int_small (a mod w)),
    (wrap_int_small (dest / w)), (wrap_int_small (a / w)) by lia.
  rewrite (wrap_int_small (dest mod w - a mod w)),
    (wrap_int_small (dest / w - a / w)) by lia.
  apply wrap_int_small.
  assert (w + hgt <= w * hgt + 1) by nia. lia.
Qed.

(** X16: XY routing on the mesh makes progress: the route is "local" exactly
    for the node itself, and otherwise the port it names leads to a
    neighbour of the node, inside the mesh, that is one hop closer to
    the destination (West and East first, then South and North). *)
Lemma mesh_xy_route_makes_progress (w hgt me dest : Z) :
  0 < w -> 0 < hgt -> w * hgt < 2 ^ 31 ->
  0 <= me < w * hgt -> 0 <= dest < w * hgt ->
  let h := Mesh2DHandler.initialize w hgt me in
  let port := Mesh2DHandler.calculateRoute h dest in
  let x := Mesh2DHandler.my_x h in
  let y := Mesh2DHandler.my_y h in
  (port = -1 <-> dest = me) /\
  (Mesh2DHandler.calculateHopDistance h dest = 0 <-> dest = me) /\
  (dest <> me ->
   let next :=
     if port =? 0 then Mesh2DHandler.coordToNode w (u32 (x - 1)) y
     else if port =? 1 then Mesh2DHandler.coordToNode w (u32 (x + 1)) y
     else if port =? 2 then Mesh2DHandler.coordToNode w x (u32 (y - 1))
     else Mesh2DHandler.coordToNode w x (u32 (y + 1)) in
   next ∈ Mesh2DHandler.getNeighbors h /\ 0 <= next < w * hgt /\
   Mesh2DHandler.calculateHopDistance (Mesh2DHandler.initialize w hgt next)
     dest
   = Mesh2DHandler.calculateHopDistance h dest - 1).
Proof.
  intros Hw Hh Hsize Hme Hdest. cbv zeta.
  destruct (grid_coords w hgt me Hw Hme) as (Hx & Hy & Hmeq).
  destruct (grid_coords w hgt dest Hw Hdest) as (Hdx & Hdy & Hdeq).
  assert (Hwb : w < 2 ^ 31 /\ hgt < 2 ^ 31) by nia.
  assert (Hsize32 : w * hgt < 2 ^ 32) by lia.
  assert (Hcoord : forall x y, 0 <= x < w -> 0 <= y < hgt ->
            0 <= Mesh2DHandler.coordToNode w x y < w * hgt /\
            Mesh2DHandler.nodeToCoord w (Mesh2DHandler.coordToNode w x y)
            = (x, y)).
  { intros x0 y0 Hx0 Hy0.
    destruct (grid_node w hgt x0 y0 Hw Hh Hsize32 Hx0 Hy0)
      as (Hn & Hb & Hm & Hq).
    unfold Mesh2DHandler.nodeToCoord, Mesh2DHandler.coordToNode.
    rewrite Hn, Hm, Hq. done. }
  rewrite (mesh_hop_distance w hgt me dest) by done.
  assert (Hsame : dest = me <-> dest mod w = me mod w /\ dest / w = me / w).
  { split; [by intros ->|]. intros [E1 E2]. rewrite Hdeq, Hmeq, E1, E2. done. }
  assert (Hstep : forall x' y', 0 <= x' < w -> 0 <= y' < hgt ->
            0 <= Mesh2DHandler.coordToNode w x' y' < w * hgt /\
            Mesh2DHandler.calculateHopDistance
              (Mesh2DHandler.initialize w hgt
                 (Mesh2DHandler.coordToNode w x' y')) dest
            = Z.abs (dest mod w - x') + Z.abs (dest / w - y')).
  { intros x' y' Hx' Hy'. destruct (Hcoord x' y' Hx' Hy') as [Hb Hc].
    split; [done|]. rewrite (mesh_hop_distance w hgt _ dest) by done.
    unfold Mesh2DHandler.nodeToCoord in Hc. by injection Hc as -> ->. }
  change (Mesh2DHandler.my_x (Mesh2DHandler.initialize w hgt me))
    with (me mod w).
  change (Mesh2DHandler.my_y (Mesh2DHandler.initialize w hgt me))
    with (me / w).
  change (Mesh2DHandler.calculateRoute (Mesh2DHandler.initialize w hgt me)
            dest)
    with (if dest mod w <? me mod w then 0
          else if me mod w <? dest mod w then 1
          else if dest / w <? me / w then 2
          else if me / w <? dest / w then 3 else -1).
  change (Mesh2DHandler.getNeighbors (Mesh2DHandler.initialize w hgt me))
    with ((if 0 <? me mod w
           then [Mesh2DHandler.coordToNode w (u32 (me mod w - 1)) (me / w)]
           else [])
          ++ (if me mod w <? u32 (w - 1)
              then [Mesh2DHandler.coordToNode w (u32 (me mod w + 1)) (me / w)]
              else [])
          ++ (if 0 <? me / w
              then [Mesh2DHandler.coordToNode w (me mod w) (u32 (me / w - 1))]
              else [])
          ++ (if me / w <? u32 (hgt - 1)
              then [Mesh2DHandler.coordToNode w (me mod w) (u32 (me / w + 1))]
              else [])).
  rewrite (u32_small (w - 1)), (u32_small (hgt - 1)) by lia.
  destruct (Z.ltb_spec (dest mod w) (me mod w)) as [Hx1|Hx1].
  { split; [split; [done|lia]|]. split; [lia|]. intros _. cbn [Z.eqb Pos.eqb].
    rewrite (u32_small (me mod w - 1)) by lia.
    destruct (Hstep (me mod w - 1) (me / w)) as [Hb Hhop]; [lia|lia|].
    split; [|split; [done|rewrite Hhop; lia]].
    destruct (Z.ltb_spec 0 (me mod w)); [|lia].
    repeat destruct (_ <? _); apply list_elem_of_In; cbn; auto. }
  destruct (Z.ltb_spec (me mod w) (dest mod w)) as [Hx2|Hx2].
  { split; [split; [done|lia]|]. split; [lia|]. intros _. cbn [Z.eqb Pos.eqb].
    rewrite (u32_small (me mod w + 1)) by lia.
    destruct (Hstep (me mod w + 1) (me / w)) as [Hb Hhop]; [lia|lia|].
    split; [|split; [done|rewrite Hhop; lia]].
    destruct (Z.ltb_spec (me mod w) (w - 1)); [|lia].
    repeat destruct (_ <? _); apply list_elem_of_In; cbn; auto. }
  destruct (Z.ltb_spec (dest / w) (me / w)) as [Hy1|Hy1].
  { split; [split; [done|lia]|]. split; [lia|]. intros _. cbn [Z.eqb Pos.eqb].
    rewrite (u32_small (me / w - 1)) by lia.
    destruct (Hstep (me mod w) (me / w - 1)) as [Hb Hhop]; [lia|lia|].
    split; [|split; [done|rewrite Hhop; lia]].
    destruct (Z.ltb_spec 0 (me / w)); [|lia].
    repeat destruct (_ <? _); apply list_elem_of_In; cbn; auto. }
  destruct (Z.ltb_spec (me / w) (dest / w)) as [Hy2|Hy2].
  { split; [split; [done|lia]|]. split; [lia|]. intros _. cbn [Z.eqb Pos.eqb].
    rewrite (u32_small (me / w + 1)) by lia.
    destruct (Hstep (me mod w) (me / w + 1)) as [Hb Hhop]; [lia|lia|].
    split; [|split; [done|rewrite Hhop; lia]].
    destruct (Z.ltb_spec (me / w) (hgt - 1)); [|lia].
    repeat destruct (_ <? _); apply list_elem_of_In; cbn; auto. }
  assert (dest = me) by (apply Hsame; lia).
  split; [done|]. split; [split; [done|lia]|done].
Qed.

Lemma mesh_xy_route_witness :
  Mesh2DHandler.calculateRoute (Mesh2DHandler.initialize 4 4 5) 7 = -1 <->
  7 = 5.
Proof.
  refine (proj1 (mesh_xy_route_makes_progress 4 4 5 7 _ _ _ _ _)); cbn; lia.
Defined.

Lemma u32_wrapped_sum (a dim : Z) :
  0 < dim < 2 ^ 31 -> - dim < a < dim -> u32 (u32 a + dim) = a + dim.
Proof.
  intros Hdim Ha. unfold u32. rewrite Zplus_mod_idemp_l.
  apply Z.mod_small. change (2 ^ 31) with 2147483648 in Hdim.
  change (2 ^ 32) with 4294967296. lia.
Qed.

Lemma torus_distance_eq (c1 c2 dim : Z) :
  0 < dim < 2 ^ 31 -> 0 <= c1 < dim -> 0 <= c2 < dim ->
  Torus2DHandler.calculateTorusDistance c1 c2 dim
  = if (if c1 <=? c2 then c2 - c1 else c2 - c1 + dim)
       <=? (if c2 <=? c1 then c1 - c2 else c1 - c2 + dim)
    then (if c1 <=? c2 then c2 - c1 else c2 - c1 + dim)
    else - (if c2 <=? c1 then c1 - c2 else c1 - c2 + dim).
Proof.
  intros Hdim H1 H2. unfold Torus2DHandler.calculateTorusDistance.
  rewrite !u32_wrapped_sum by lia.
  assert (HF : (c2 - c1 + dim) mod dim
               = if c1 <=? c2 then c2 - c1 else c2 - c1 + dim).
  { destruct (Z.leb_spec c1 c2).
    - symmetry. apply Z.mod_unique with 1; lia.
    - apply Z.mod_small. lia. }
  assert (HB : (c1 - c2 + dim) mod dim
               = if c2 <=? c1 then c1 - c2 else c1 - c2 + dim).
  { destruct (Z.leb_spec c2 c1).
    - symmetry. apply Z.mod_unique with 1; lia.
    - apply Z.mod_small. lia. }
  rewrite HF, HB.
  rewrite (wrap_int_small (if c1 <=? c2 then _ else _))
    by (destruct (Z.leb_spec c1 c2); lia).
  rewrite (wrap_int_small (if c2 <=? c1 then _ else _))
    by (destruct (Z.leb_spec c2 c1); lia).
  set (F := if c1 <=? c2 then _ else _).
  set (B := if c2 <=? c1 then _ else _).
  destruct (F <=? B); [done|].
  apply wrap_int_small. subst B. destruct (Z.leb_spec c2 c1); lia.
Qed.

(** X17: calculateTorusDistance is the signed shortest way round a ring of
    [dim] positions: stepping by it from the first coordinate arrives at
    the second, it never exceeds half the ring, it is zero only for
    equal coordinates, and no other displacement that arrives is
    shorter. *)
Lemma torus_distance_is_shortest (c1 c2 dim : Z) :
  0 < dim < 2 ^ 31 -> 0 <= c1 < dim -> 0 <= c2 < dim ->
  let d := Torus2DHandler.calculateTorusDistance c1 c2 dim in
  (c1 + d) mod dim = c2 /\ 2 * Z.abs d <= dim /\ (d = 0 <-> c1 = c2) /\
  forall k, (c1 + k) mod dim = c2 -> Z.abs d <= Z.abs k.
Proof.
  intros Hdim H1 H2. cbv zeta.
  rewrite (torus_distance_eq c1 c2 dim Hdim H1 H2).
  set (d := if (_ <=? _) then _ else _).
  assert (Hd : (d = c2 - c1 \/ d = c2 - c1 + dim \/ d = c2 - c1 - dim)
               /\ 2 * Z.abs d <= dim /\ (d = 0 <-> c1 = c2)).
  { subst d. destruct (Z.leb_spec c1 c2); destruct (Z.leb_spec c2 c1);
      cbv iota;
      match goal with
      | |- context [?a <=? ?b] => destruct (Z.leb_spec a b)
      end; lia. }
  destruct Hd as (Hcases & Hhalf & Hzero).
  split; [|split; [done|split; [done|]]].
  - destruct Hcases as [->|[->| ->]].
    + replace (c1 + (c2 - c1)) with c2 by lia. by apply Z.mod_small.
    + symmetry. apply Z.mod_unique with 1; lia.
    + symmetry. apply Z.mod_unique with (-1); lia.
  - intros k Hk.
    assert (Ht : exists t, k = c2 - c1 + t * dim).
    { exists ((c1 + k) / dim). pose proof (Z.div_mod (c1 + k) dim). lia. }
    destruct Ht as [t ->].
    assert (Hc : t <= -2 \/ t = -1 \/ t = 0 \/ t = 1 \/ 2 <= t) by lia.
    destruct Hcases as [->|[->| ->]];
      destruct Hc as [?|[->|[->|[->|?]]]]; nia.
Qed.

Lemma torus_distance_witness :
  (3 + Torus2DHandler.calculateTorusDistance 3 0 4) mod 4 = 0.
Proof.
  refine (proj1 (torus_distance_is_shortest 3 0 4 _ _ _)); cbn; lia.
Defined.

(** Case analysis on the comparisons of a goal, innermost first. *)
Ltac split_leb :=
  repeat (match goal with
          | |- context [?a <=? ?b] =>
              lazymatch a with
              | context [if _ then _ else _] => fail
              | _ =>
                  lazymatch b with
                  | context [if _ then _ else _] => fail
                  | _ => destruct (Z.leb_spec a b)
                  end
              end
          end; cbv iota).

Lemma torus_step (c1 c2 dim : Z) :
  0 < dim < 2 ^ 31 -> 0 <= c1 < dim -> 0 <= c2 < dim ->
  let d := Torus2DHandler.calculateTorusDistance c1 c2 dim in
  0 <= (c1 + 1) mod dim < dim /\ 0 <= (c1 + dim - 1) mod dim < dim /\
  (0 < d ->
   Z.abs (Torus2DHandler.calculateTorusDistance ((c1 + 1) mod dim) c2 dim)
   = Z.abs d - 1) /\
  (d < 0 ->
   Z.abs (Torus2DHandler.calculateTorusDistance ((c1 + dim - 1) mod dim)
            c2 dim)
   = Z.abs d - 1).
Proof.
  intros Hdim H1 H2. cbv zeta.
  assert (Hn : (c1 + 1) mod dim = if c1 + 1 =? dim then 0 else c1 + 1).
  { destruct (Z.eqb_spec (c1 + 1) dim) as [->|Hne].
    - apply Z_mod_same_full.
    - apply Z.mod_small. lia. }
  assert (Hp : (c1 + dim - 1) mod dim = if c1 =? 0 then dim - 1 else c1 - 1).
  { destruct (Z.eqb_spec c1 0) as [->|Hne].
    - apply Z.mod_small. lia.
    - symmetry. apply Z.mod_unique with 1; lia. }
  assert (Hnb : 0 <= (c1 + 1) mod dim < dim)
    by (rewrite Hn; destruct (Z.eqb_spec (c1 + 1) dim); lia).
  assert (Hpb : 0 <= (c1 + dim - 1) mod dim < dim)
    by (rewrite Hp; destruct (Z.eqb_spec c1 0); lia).
  split; [done|]. split; [done|].
  rewrite (torus_distance_eq c1 c2 dim), (torus_distance_eq _ c2 dim Hdim Hnb),
    (torus_distance_eq _ c2 dim Hdim Hpb) by done.
  rewrite Hn, Hp.
  split; intros Hd; revert Hd.
  - destruct (Z.eqb_spec (c1 + 1) dim); cbv iota; split_leb; lia.
  - destruct (Z.eqb_spec c1 0); cbv iota; split_leb; lia.
Qed.

Lemma torus_distance_bound (c1 c2 dim : Z) :
  0 < dim < 2 ^ 31 -> 0 <= c1 < dim -> 0 <= c2 < dim ->
  2 * Z.abs (Torus2DHandler.calculateTorusDistance c1 c2 dim) <= dim /\
  (Torus2DHandler.calculateTorusDistance c1 c2 dim = 0 <-> c1 = c2).
Proof.
  intros Hdim H1 H2. rewrite (torus_distance_eq c1 c2 dim Hdim H1 H2).
  split_leb; lia.
Qed.

Lemma torus_hop_distance (w hgt a dest : Z) :
  0 < w -> 0 < hgt -> w * hgt < 2 ^ 31 ->
  0 <= a < w * hgt -> 0 <= dest < w * hgt ->
  Torus2DHandler.calculateHopDistance (Torus2DHandler.initialize w hgt a) dest
  = Z.abs (Torus2DHandler.calculateTorusDistance (a mod w) (dest mod w) w)
    + Z.abs (Torus2DHandler.calculateTorusDistance (a / w) (dest / w) hgt).
Proof.
  intros Hw Hh Hsize Ha Hd.
  destruct (grid_coords w hgt a Hw Ha) as (Hx & Hy & _).
  destruct (grid_coords w hgt dest Hw Hd) as (Hdx & Hdy & _).
  assert (Hwb : w < 2 ^ 31 /\ hgt < 2 ^ 31) by nia.
  destruct (torus_distance_bound (a mod w) (dest mod w) w) as [Hbx _];
    [lia|done|done|].
  destruct (torus_distance_bound (a / w) (dest / w) hgt) as [Hby _];
    [lia|done|done|].
  unfold Torus2DHandler.calculateHopDistance, Torus2DHandler.initialize,
    Torus2DHandler.nodeToCoord.
  cbn [Torus2DHandler.width Torus2DHandler.height Torus2DHandler.my_x
       Torus2DHandler.my_y fst snd].
  apply wrap_int_small. lia.
Qed.

(** X18: Routing on the torus makes progress: the route is "local" exactly
    for the node itself, a destination is never further away than half
    the width plus half the height, and otherwise the port the route
    names leads to the neighbour, in the order West, East, South, North
    of getNeighbors, that is one hop closer to the destination. *)
Lemma torus_route_makes_progress (w hgt me dest : Z) :
  0 < w -> 0 < hgt -> w * hgt < 2 ^ 31 ->
  0 <= me < w * hgt -> 0 <= dest < w * hgt ->
  let h := Torus2DHandler.initialize w hgt me in
  let port := Torus2DHandler.calculateRoute h dest in
  (port = -1 <-> dest = me) /\
  (Torus2DHandler.calculateHopDistance h dest = 0 <-> dest = me) /\
  2 * Torus2DHandler.calculateHopDistance h dest <= w + hgt /\
  (dest <> me ->
   exists next,
     Torus2DHandler.getNeighbors h !! Z.to_nat port = Some next /\
     0 <= next < w * hgt /\
     Torus2DHandler.calculateHopDistance
       (Torus2DHandler.initialize w hgt next) dest
     = Torus2DHandler.calculateHopDistance h dest - 1).
Proof.
  intros Hw Hh Hsize Hme Hdest. cbv zeta.
  destruct (grid_coords w hgt me Hw Hme) as (Hx & Hy & Hmeq).
  destruct (grid_coords w hgt dest Hw Hdest) as (Hdx & Hdy & Hdeq).
  assert (Hwb : w < 2 ^ 31 /\ hgt < 2 ^ 31) by nia.
  assert (Hu : forall c dim, 0 <= c < dim -> dim < 2 ^ 31 ->
            u32 (u32 (c + dim) - 1) mod dim = (c + dim - 1) mod dim
            /\ u32 (c + 1) = c + 1).
  { intros c dim Hc Hdim. change (2 ^ 31) with 2147483648 in Hdim.
    assert (Hr : forall v, 0 <= v < 4294967296 -> u32 v = v)
      by (intros v Hv; by apply u32_small).
    rewrite (Hr (c + dim)), (Hr (c + dim - 1)), (Hr (c + 1)) by lia. done. }
  destruct (Hu (me mod w) w Hx (proj1 Hwb)) as [Hwest_eq Heast_eq].
  destruct (Hu (me / w) hgt Hy (proj2 Hwb)) as [Hsouth_eq Hnorth_eq].
  clear Hu.
  assert (Hsize32 : w * hgt < 2 ^ 32) by lia.
  assert (Hw' : 0 < w < 2 ^ 31) by lia.
  assert (Hh' : 0 < hgt < 2 ^ 31) by lia.
  destruct (torus_distance_bound (me mod w) (dest mod w) w Hw' Hx Hdx)
    as [Hbx Hzx].
  destruct (torus_distance_bound (me / w) (dest / w) hgt Hh' Hy Hdy)
    as [Hby Hzy].
  destruct (torus_step (me mod w) (dest mod w) w Hw' Hx Hdx)
    as (Hex & Hwx & Heast & Hwest).
  destruct (torus_step (me / w) (dest / w) hgt Hh' Hy Hdy)
    as (Hny & Hsy & Hnorth & Hsouth).
  rewrite (torus_hop_distance w hgt me dest) by done.
  assert (Hsame : dest = me <-> me mod w = dest mod w /\ me / w = dest / w).
  { split; [by intros ->|]. intros [E1 E2]. rewrite Hdeq, Hmeq, E1, E2. done. }
  assert (Hstep : forall x' y', 0 <= x' < w -> 0 <= y' < hgt ->
            0 <= Torus2DHandler.coordToNode w x' y' < w * hgt /\
            Torus2DHandler.calculateHopDistance
              (Torus2DHandler.initialize w hgt
                 (Torus2DHandler.coordToNode w x' y')) dest
            = Z.abs (Torus2DHandler.calculateTorusDistance x' (dest mod w) w)
              + Z.abs (Torus2DHandler.calculateTorusDistance y' (dest / w)
                         hgt)).
  { intros x' y' Hx' Hy'.
    destruct (grid_node w hgt x' y' Hw Hh Hsize32 Hx' Hy')
      as (Hn & Hb & Hm & Hq).
    unfold Torus2DHandler.coordToNode. rewrite Hn. split; [done|].
    rewrite (torus_hop_distance w hgt _ dest) by done. by rewrite Hm, Hq. }
  change (Torus2DHandler.calculateRoute (Torus2DHandler.initialize w hgt me)
            dest)
    with (let x_dist := Torus2DHandler.calculateTorusDistance (me mod w)
                          (dest mod w) w in
          let y_dist := Torus2DHandler.calculateTorusDistance (me / w)
                          (dest / w) hgt in
          if negb (x_dist =? 0) then (if 0 <? x_dist then 1 else 0)
          else if negb (y_dist =? 0) then (if 0 <? y_dist then 3 else 2)
          else -1).
  change (Torus2DHandler.getNeighbors (Torus2DHandler.initialize w hgt me))
    with [Torus2DHandler.coordToNode w
            (u32 (u32 (me mod w + w) - 1) mod w) (me / w);
          Torus2DHandler.coordToNode w (u32 (me mod w + 1) mod w) (me / w);
          Torus2DHandler.coordToNode w (me mod w)
            (u32 (u32 (me / w + hgt) - 1) mod hgt);
          Torus2DHandler.coordToNode w (me mod w)
            (u32 (me / w + 1) mod hgt)].
  rewrite Hwest_eq, Hsouth_eq, Heast_eq, Hnorth_eq.
  cbv zeta.
  remember (Torus2DHandler.calculateTorusDistance (me mod w) (dest mod w) w)
    as dx eqn:Edx.
  remember (Torus2DHandler.calculateTorusDistance (me / w) (dest / w) hgt)
    as dy eqn:Edy.
  split; [|split; [|split; [clear - Hbx Hby; lia|]]].
  - destruct (Z.eqb_spec dx 0) as [Ex|Ex]; cbn [negb].
    + destruct (Z.eqb_spec dy 0) as [Ey|Ey]; cbn [negb].
      * split; [intros _|done]. apply Hsame. split; [by apply Hzx|by apply Hzy].
      * split; [by destruct (0 <? dy)|]. intros E. apply Hsame in E. tauto.
    + split; [by destruct (0 <? dx)|]. intros E. apply Hsame in E. tauto.
  - rewrite Hsame. split; [intros E0|intros [E1 E2]].
    + split; [apply Hzx|apply Hzy]; clear - E0; lia.
    + apply Hzx in E1. apply Hzy in E2. clear - E1 E2. lia.
  - intros Hne.
    destruct (Z.eqb_spec dx 0) as [Ex|Ex]; cbn [negb].
    + destruct (Z.eqb_spec dy 0) as [Ey|Ey]; cbn [negb].
      { exfalso. apply Hne, Hsame. split; [by apply Hzx|by apply Hzy]. }
      destruct (Z.ltb_spec 0 dy) as [Hpos|Hneg].
      * eexists. split; [reflexivity|].
        destruct (Hstep (me mod w) ((me / w + 1) mod hgt)) as [Hb ->];
          [done|done|]. split; [done|]. rewrite <- Edx. rewrite (Hnorth Hpos). clear. lia.
      * eexists. split; [reflexivity|].
        destruct (Hstep (me mod w) ((me / w + hgt - 1) mod hgt)) as [Hb ->];
          [done|done|]. split; [done|]. rewrite <- Edx.
        rewrite Hsouth by (clear - Hneg Ey; lia). clear. lia.
    + destruct (Z.ltb_spec 0 dx) as [Hpos|Hneg].
      * eexists. split; [reflexivity|].
        destruct (Hstep ((me mod w + 1) mod w) (me / w)) as [Hb ->];
          [done|done|]. split; [done|]. rewrite <- Edy. rewrite (Heast Hpos). clear. lia.
      * eexists. split; [reflexivity|].
        destruct (Hstep ((me mod w + w - 1) mod w) (me / w)) as [Hb ->];
          [done|done|]. split; [done|]. rewrite <- Edy.
        rewrite Hwest by (clear - Hneg Ex; lia). clear. lia.
Qed.

Lemma torus_route_witness :
  2 * Torus2DHandler.calculateHopDistance (Torus2DHandler.initialize 4 4 0) 10
  <= 4 + 4.
Proof.
  refine (proj1 (proj2 (proj2
            (torus_route_makes_progress 4 4 0 10 _ _ _ _ _)))); cbn; lia.
Defined.

(** ** Spike routing of the multi-core tile *)


Section Routing.
Import MultiCorePERouting.
Context {W : Type}.
Implicit Types (pe : MultiCorePERouting.t W) (spike : SpikeEvent.t W).


Lemma sendExternalSpike_cases pe spike :
  let pe' := sendExternalSpike pe (Some spike) in
  pe' = pe \/
  (MultiCorePE.wrap_int (SpikeEvent.dest_node spike) <> node_id_ pe /\
   (pe' = set_external pe (external_spike_queue_ pe)
            (stat_external_spikes_received_ pe)
            (u64 (stat_external_spikes_sent_ pe + 1))
            (nic_sent pe ++ [spike]) (link_sent pe) /\
    external_nic_ pe = true
    \/ pe' = set_external pe (external_spike_queue_ pe)
               (stat_external_spikes_received_ pe)
               (u64 (stat_external_spikes_sent_ pe + 1))
               (nic_sent pe) (link_sent pe ++ [spike]) /\
       external_nic_ pe = false)).
Proof.
  cbv zeta. unfold sendExternalSpike.
  destruct (Z.eqb_spec (MultiCorePE.wrap_int (SpikeEvent.dest_node spike))
              (node_id_ pe)); [by left|].
  destruct (external_nic_ pe); [right; split; [done|by left]|].
  destruct (external_spike_output_link_ pe); [|by left].
  right. split; [done|by right].
Qed.

(** X20: The self-loop guard of sendExternalSpike: a spike whose destination
    node is the tile's own node is dropped without a trace, so nothing
    handed to the NIC or to the output link is ever addressed to the
    sender, and every spike that does go out is counted once. *)
Lemma sendExternalSpike_never_to_own_node pe spike :
  let pe' := sendExternalSpike pe (Some spike) in
  (MultiCorePE.wrap_int (SpikeEvent.dest_node spike) = node_id_ pe ->
   pe' = pe) /\
  (forall s, s ∈ nic_sent pe' ++ link_sent pe' ->
     s ∈ nic_sent pe ++ link_sent pe \/
     s = spike
     /\ MultiCorePE.wrap_int (SpikeEvent.dest_node s) <> node_id_ pe
     /\ stat_external_spikes_sent_ pe'
        = u64 (stat_external_spikes_sent_ pe + 1)).
Proof.
  cbv zeta. split.
  - intros Hown. unfold sendExternalSpike.
    by destruct (Z.eqb_spec (MultiCorePE.wrap_int (SpikeEvent.dest_node spike))
                   (node_id_ pe)).
  - intros s.
    destruct (sendExternalSpike_cases pe spike) as [E|[Hne [[E _]|[E _]]]];
      cbv zeta in E; rewrite E; [by left|..]; cbn;
      rewrite !elem_of_app, list_elem_of_singleton; intros Hin.
    + destruct Hin as [[Hin|Hin]|Hin]; [by left; left|subst s; by right|].
      by left; right.
    + destruct Hin as [Hin|[Hin|Hin]]; [by left; left|by left; right|].
      subst s. by right.
Qed.

Lemma determineTargetUnit_range pe (neuron_id : Z) :
  determineTargetUnit pe neuron_id = -1
  \/ 0 <= determineTargetUnit pe neuron_id < num_cores pe.
Proof.
  unfold determineTargetUnit. cbv zeta.
  destruct (_ || _); [by left|].
  match goal with
  | |- context [(0 <=? ?a) && (?a <? ?b)] =>
      destruct (Z.leb_spec 0 a); destruct (Z.ltb_spec a b); cbn [andb]
  end; auto.
Qed.

(** The two tests for "my own node", [dest_node == (uint32_t) node_id_]
    in handleExternalSpikeEvent and [(int) dest_node == node_id_] in
    sendExternalSpike, agree. *)
Lemma own_node_tests_agree (d n : Z) :
  is_u32 d -> is_int n -> (MultiCorePE.wrap_int d = n <-> d = u32 n).
Proof.
  unfold is_u32, is_int, MultiCorePE.wrap_int, u32.
  change (2 ^ 31) with 2147483648. change (2 ^ 32) with 4294967296.
  intros Hd Hn.
  assert (Hw : (d + 2147483648) mod 4294967296
               = if d <? 2147483648 then d + 2147483648
                 else d - 2147483648).
  { destruct (Z.ltb_spec d 2147483648).
    - apply Z.mod_small. lia.
    - symmetry. apply Z.mod_unique with 1; lia. }
  assert (Hu : n mod 4294967296 = if n <? 0 then n + 4294967296 else n).
  { destruct (Z.ltb_spec n 0).
    - symmetry. apply Z.mod_unique with (-1); lia.
    - apply Z.mod_small. lia. }
  rewrite Hw, Hu.
  destruct (Z.ltb_spec d 2147483648); destruct (Z.ltb_spec n 0); lia.
Qed.

(** X21: The hop limit of handleExternalSpikeEvent and what becomes of a
    spike that is within it.  A spike that has used up its hops is
    dropped and not even counted as received.  Any other spike is counted
    as received and its hop count is raised by one; the output link is
    never used.  Addressed to this node, the spike joins the tile's
    queue.  Addressed elsewhere, it goes by its destination neuron: when
    that neuron belongs to a core of the tile and the core is configured,
    the spike is delivered to that core and counted as processed; when
    the neuron is not of this tile and the tile has a NIC, the spike is
    handed to the NIC and counted as sent (the self-loop guard of
    sendExternalSpike cannot stop it, as the two tests for the own node
    agree); in the two cases left, an unconfigured core or no NIC, the
    spike is dropped, counted as received only. *)
Lemma handleExternalSpikeEvent_hop_limit pe spike :
  0 <= SpikeEvent.hop_count spike ->
  is_u32 (SpikeEvent.dest_node spike) -> is_int (node_id_ pe) ->
  Z.of_nat (length (cores_ pe)) = num_cores pe ->
  let pe' := handleExternalSpikeEvent pe (Some spike) in
  let hopped := incrementHopCount spike in
  let counted :=
    set_external pe (external_spike_queue_ pe)
      (u64 (stat_external_spikes_received_ pe + 1))
      (stat_external_spikes_sent_ pe) (nic_sent pe) (link_sent pe) in
  let u := determineTargetUnit pe
             (MultiCorePE.wrap_int (SpikeEvent.dest_neuron spike)) in
  (SpikeEvent.isExpired spike = true -> pe' = pe) /\
  (SpikeEvent.isExpired spike = false ->
   SpikeEvent.hop_count hopped = SpikeEvent.hop_count spike + 1 /\
   SpikeEvent.hop_count hopped <= SpikeEvent.MAX_HOPS /\
   stat_external_spikes_received_ pe'
   = u64 (stat_external_spikes_received_ pe + 1) /\
   link_sent pe' = link_sent pe /\
   (SpikeEvent.dest_node spike = u32 (node_id_ pe) ->
    external_spike_queue_ pe' = external_spike_queue_ pe ++ [hopped] /\
    core_delivered pe' = core_delivered pe /\
    nic_sent pe' = nic_sent pe) /\
   (SpikeEvent.dest_node spike <> u32 (node_id_ pe) ->
    external_spike_queue_ pe' = external_spike_queue_ pe /\
    (u = -1 \/ 0 <= u < num_cores pe) /\
    (0 <= u -> cores_ pe !! Z.to_nat u = Some true ->
       core_delivered pe' = core_delivered pe ++ [(u, hopped)] /\
       stat_spikes_processed_ pe' = u64 (stat_spikes_processed_ pe + 1) /\
       nic_sent pe' = nic_sent pe) /\
    (0 <= u -> cores_ pe !! Z.to_nat u = Some false -> pe' = counted) /\
    (u = -1 -> external_nic_ pe = true ->
       nic_sent pe' = nic_sent pe ++ [hopped] /\
       stat_external_spikes_sent_ pe'
       = u64 (stat_external_spikes_sent_ pe + 1) /\
       core_delivered pe' = core_delivered pe) /\
    (u = -1 -> external_nic_ pe = false -> pe' = counted))).
Proof.
  intros Hhop Hd Hn Hcores. cbv zeta. unfold handleExternalSpikeEvent.
  destruct (SpikeEvent.isExpired spike) eqn:Eexp; [done|].
  split; [done|]. intros _.
  unfold SpikeEvent.isExpired in Eexp. apply Z.leb_gt in Eexp.
  unfold SpikeEvent.MAX_HOPS in *.
  assert (Hh : SpikeEvent.hop_count (incrementHopCount spike)
               = SpikeEvent.hop_count spike + 1).
  { cbn. apply u32_small. lia. }
  split; [done|]. split; [lia|].
  set (hopped := incrementHopCount spike).
  set (pe1 := set_external pe _ _ _ _ _).
  assert (Hcross :
    SpikeEvent.mk (SpikeEvent.neuron_id hopped) (SpikeEvent.timestamp hopped)
      (SpikeEvent.hop_count hopped) (SpikeEvent.dest_neuron hopped)
      (SpikeEvent.dest_node hopped) (SpikeEvent.weight hopped) = hopped)
    by (by destruct spike).
  rewrite Hcross.
  change (SpikeEvent.dest_node hopped) with (SpikeEvent.dest_node spike).
  change (node_id_ pe1) with (node_id_ pe).
  change (determineTargetUnit pe1
            (MultiCorePE.wrap_int (SpikeEvent.dest_neuron hopped)))
    with (determineTargetUnit pe
            (MultiCorePE.wrap_int (SpikeEvent.dest_neuron spike))).
  change (num_cores pe1) with (num_cores pe).
  change (external_nic_ pe1) with (external_nic_ pe).
  destruct (Z.eqb_spec (SpikeEvent.dest_node spike) (u32 (node_id_ pe)))
    as [Hloc|Hloc].
  { cbn. do 2 (split; [done|]). split; [done|]. intros Hne. by destruct Hne. }
  set (u := determineTargetUnit pe _).
  destruct (determineTargetUnit_range pe
              (MultiCorePE.wrap_int (SpikeEvent.dest_neuron spike)))
    as [Hu|Hu]; fold u in Hu.
  - rewrite Hu. cbn [Z.leb Z.compare andb].
    destruct (external_nic_ pe) eqn:En.
    + unfold sendExternalSpike.
      change (SpikeEvent.dest_node hopped) with (SpikeEvent.dest_node spike).
      change (node_id_ pe1) with (node_id_ pe).
      change (external_nic_ pe1) with (external_nic_ pe).
      destruct (Z.eqb_spec
                  (MultiCorePE.wrap_int (SpikeEvent.dest_node spike))
                  (node_id_ pe)) as [Hown|_].
      { destruct Hloc. by apply own_node_tests_agree. }
      rewrite En. cbn.
      do 2 (split; [done|]). split; [intros Hl; by destruct Hloc|].
      intros _. split; [done|]. split; [by left|].
      split; [intros; lia|]. split; [intros; lia|].
      split; [done|]. intros _ [=].
    + cbn. do 2 (split; [done|]). split; [intros Hl; by destruct Hloc|].
      intros _. split; [done|]. split; [by left|].
      split; [intros; lia|]. split; [intros; lia|].
      split; [intros _ [=]|done].
  - destruct (Z.leb_spec 0 u) as [_|?]; [|lia].
    destruct (Z.ltb_spec u (num_cores pe)) as [_|?]; [|lia]. cbn [andb].
    unfold deliverSpikeToCore.
    change (num_cores pe1) with (num_cores pe).
    change (cores_ pe1) with (cores_ pe).
    destruct (Z.ltb_spec u 0) as [?|_]; [lia|].
    destruct (Z.leb_spec (num_cores pe) u) as [?|_]; [lia|]. cbn [orb].
    destruct (cores_ pe !! Z.to_nat u) as [[]|] eqn:Ec; cbn.
    + do 2 (split; [done|]). split; [intros Hl; by destruct Hloc|].
      intros _. split; [done|]. split; [by right|].
      split; [done|]. split; [intros _ [=]|].
      split; intros; lia.
    + do 2 (split; [done|]). split; [intros Hl; by destruct Hloc|].
      intros _. split; [done|]. split; [by right|].
      split; [intros _ [=]|]. split; [done|]. split; intros; lia.
    + apply lookup_ge_None in Ec. lia.
Qed.

Lemma send_test_spike_fields pe (i : Z) :
  let pe' := send_test_spike pe i in
  test_spikes_sent_ pe'
  = MultiCorePE.wrap_int (test_spikes_sent_ pe + 1) /\
  test_max_spikes_ pe' = test_max_spikes_ pe /\
  test_cycle_counter_ pe' = test_cycle_counter_ pe /\
  (length (nic_sent pe' ++ link_sent pe')
   <= S (length (nic_sent pe ++ link_sent pe)))%nat.
Proof.
  cbv zeta. unfold send_test_spike.
  set (spike := SpikeEvent.make _ _ _ _ _).
  destruct (sendExternalSpike_cases pe spike) as [E|[_ [[E _]|[E _]]]];
    cbv zeta in E; rewrite E; cbn;
    rewrite ?length_app; cbn; repeat split; lia.
Qed.

Lemma send_test_spikes_count (k : nat) :
  forall (start : nat) pe,
    0 <= test_spikes_sent_ pe ->
    test_spikes_sent_ pe + Z.of_nat k < 2 ^ 31 ->
    let pe' := fold_left send_test_spike (map Z.of_nat (seq start k)) pe in
    test_spikes_sent_ pe' = test_spikes_sent_ pe + Z.of_nat k /\
    test_max_spikes_ pe' = test_max_spikes_ pe /\
    test_cycle_counter_ pe' = test_cycle_counter_ pe /\
    (length (nic_sent pe' ++ link_sent pe')
     <= length (nic_sent pe ++ link_sent pe) + k)%nat.
Proof.
  induction k as [|k IH]; intros start pe H0 Hlt; cbv zeta.
  - cbn. repeat split; lia.
  - cbn [seq map fold_left].
    destruct (send_test_spike_fields pe (Z.of_nat start))
      as (Hs & Hm & Hc & Hl). cbv zeta in *.
    rewrite wrap_int_small in Hs
      by (change (2 ^ 31) with 2147483648 in *; lia).
    destruct (IH (S start) (send_test_spike pe (Z.of_nat start)))
      as (Hs' & Hm' & Hc' & Hl'); [lia|lia|]. cbv zeta in *.
    rewrite Hs', Hm', Hc', Hs, Hm, Hc. repeat split; lia.
Qed.

(** X22: Test traffic respects its limit: with a positive [test_max_spikes_],
    a call of generateTestTraffic never takes the count of test spikes
    past the limit, adds at most one burst to it, and hands the NIC or
    the link no more spikes than it counts; once the limit is reached a
    call changes nothing. *)
Lemma generateTestTraffic_respects_limit pe :
  0 < test_max_spikes_ pe < 2 ^ 31 ->
  0 <= test_spikes_sent_ pe <= test_max_spikes_ pe ->
  let pe' := generateTestTraffic pe in
  test_spikes_sent_ pe <= test_spikes_sent_ pe' <= test_max_spikes_ pe /\
  test_spikes_sent_ pe' - test_spikes_sent_ pe
  <= Z.max 0 (test_spikes_per_burst_ pe) /\
  Z.of_nat (length (nic_sent pe' ++ link_sent pe'))
  - Z.of_nat (length (nic_sent pe ++ link_sent pe))
  <= test_spikes_sent_ pe' - test_spikes_sent_ pe /\
  (test_spikes_sent_ pe = test_max_spikes_ pe -> pe' = pe).
Proof.
  intros Hmax Hsent. cbv zeta. unfold generateTestTraffic.
  destruct (Z.ltb_spec 0 (test_max_spikes_ pe)) as [_|?]; [|lia].
  cbn [andb].
  destruct (Z.leb_spec (test_max_spikes_ pe) (test_spikes_sent_ pe))
    as [Hfull|Hroom].
  { repeat split; lia. }
  set (pe1 := set_test pe _ _).
  change (test_period_ pe1) with (test_period_ pe).
  destruct (u64 (test_period_ pe) <=? test_cycle_counter_ pe1).
  2:{ cbn. split; [lia|]. split; [lia|]. split; [lia|]. intros E. lia. }
  set (pe2 := set_test pe1 0 _).
  change (test_max_spikes_ pe2) with (test_max_spikes_ pe).
  change (test_spikes_per_burst_ pe2) with (test_spikes_per_burst_ pe).
  change (test_spikes_sent_ pe1) with (test_spikes_sent_ pe) in *.
  change (test_spikes_sent_ pe2) with (test_spikes_sent_ pe).
  destruct (Z.ltb_spec 0 (test_max_spikes_ pe)) as [_|?]; [|lia].
  rewrite (wrap_int_small (test_max_spikes_ pe - test_spikes_sent_ pe))
    by (change (2 ^ 31) with 2147483648 in *; lia).
  set (n := Z.min _ _).
  destruct (Z.ltb_spec 0 n) as [Hn|Hn].
  2:{ cbn. split; [lia|]. split; [lia|]. split; [lia|]. intros E. lia. }
  destruct (send_test_spikes_count (Z.to_nat n) 0 pe2)
    as (Hs & Hm & Hc & Hl).
  { cbn. lia. }
  { cbn. change (2 ^ 31) with 2147483648 in *. lia. }
  cbv zeta in *. rewrite Hs.
  change (test_spikes_sent_ pe2) with (test_spikes_sent_ pe).
  change (nic_sent pe2) with (nic_sent pe) in Hl.
  change (link_sent pe2) with (link_sent pe) in Hl.
  split; [lia|]. split; [lia|]. split; [lia|]. intros E. lia.
Qed.

End Routing.


(** [spike_with_hops], for neuron 5 of node 2, reaches the tile of node 1:
    the tile hands it to its NIC with four hops on it. *)
Lemma handleExternalSpikeEvent_hop_limit_witness :
  MultiCorePERouting.nic_sent
    (MultiCorePERouting.handleExternalSpikeEvent demo_pe
       (Some spike_with_hops))
  = [SpikeEvent.mk 7 100 4 5 2 0].
Proof.
  destruct (handleExternalSpikeEvent_hop_limit demo_pe spike_with_hops)
    as [_ Hlive]; [by vm_compute..|].
  assert (Hfresh : SpikeEvent.isExpired spike_with_hops = false)
    by reflexivity.
  destruct (Hlive Hfresh) as (_ & _ & _ & _ & _ & Hfar).
  destruct Hfar as (_ & _ & _ & _ & Hnic & _); [by vm_compute|].
  assert (Hu : MultiCorePERouting.determineTargetUnit demo_pe
                 (MultiCorePE.wrap_int (SpikeEvent.dest_neuron spike_with_hops))
               = -1) by reflexivity.
  assert (Hn : MultiCorePERouting.external_nic_ demo_pe = true)
    by reflexivity.
  exact (proj1 (Hnic Hu Hn)).
Defined.

Lemma generateTestTraffic_respects_limit_witness :
  MultiCorePERouting.test_spikes_sent_ demo_pe
  <= MultiCorePERouting.test_spikes_sent_
       (MultiCorePERouting.generateTestTraffic demo_pe)
  <= MultiCorePERouting.test_max_spikes_ demo_pe.
Proof.
  refine (proj1 (generateTestTraffic_respects_limit demo_pe _ _)); cbn; lia.
Defined.

(** ** The fallback ring of the tile *)

Section FallbackRing.
Import InternalRing.
Implicit Types (r : InternalRing.t) (msg : InternalRing.RingMessage).

(** X23: The output queues of the fallback ring hold at most 100 messages:
    sendMessage accepts a message exactly when both node ids are valid
    and the sender's output queue holds fewer than 100, appends it to
    that queue, and otherwise leaves the ring unchanged. *)
Lemma fallback_send_bounded r msg :
  queues_ok r ->
  let res := InternalRing.sendMessage r msg in
  queues_ok res.2 /\
  (res.1 = true <->
   0 <= src_unit msg < num_nodes_ r /\ 0 <= dst_unit msg < num_nodes_ r /\
   exists q, node_output_queues_ r !! Z.to_nat (src_unit msg) = Some q
             /\ (length q < 100)%nat) /\
  (res.1 = true ->
   exists q, node_output_queues_ r !! Z.to_nat (src_unit msg) = Some q /\
     node_output_queues_ res.2 !! Z.to_nat (src_unit msg)
     = Some (q ++ [msg])) /\
  (res.1 = false -> res.2 = r).
Proof.
  intros (Hn & Hli & Hlo & Hb). cbv zeta. unfold InternalRing.sendMessage.
  destruct (Z.ltb_spec (src_unit msg) 0).
  { cbn. split; [done|]. split; [split; [done|lia]|done]. }
  destruct (Z.leb_spec (num_nodes_ r) (src_unit msg)).
  { cbn. split; [done|]. split; [split; [done|lia]|done]. }
  destruct (Z.ltb_spec (dst_unit msg) 0).
  { cbn. split; [done|]. split; [split; [done|lia]|done]. }
  destruct (Z.leb_spec (num_nodes_ r) (dst_unit msg)).
  { cbn. split; [done|]. split; [split; [done|lia]|done]. }
  cbn [orb].
  destruct (node_output_queues_ r !! Z.to_nat (src_unit msg)) as [q|] eqn:Eq.
  2:{ apply lookup_ge_None in Eq. lia. }
  cbn [default from_option id].
  destruct (Z.leb_spec 100 (Z.of_nat (length q))) as [Hfull|Hroom].
  { cbn. split; [done|]. split; [|done]. split; [done|].
    intros (_ & _ & q' & [= <-] & Hq'). lia. }
  cbn [fst snd]. split; [|split; [|split; [|done]]].
  - split; [done|]. split; [done|]. cbn. unfold push_at.
    split; [by rewrite length_alter|].
    apply Forall_alter_lookup; [done|].
    intros q' Hq'. rewrite Eq in Hq'. injection Hq' as <-. intros _.
    rewrite length_app. cbn. lia.
  - split; [intros _|done]. split; [lia|]. split; [lia|].
    exists q. split; [done|lia].
  - intros _. exists q. split; [done|]. cbn. unfold push_at.
    by rewrite list_lookup_alter_eq, Eq.
Qed.

Lemma drain_queue_buffered (q : list InternalRing.RingMessage) :
  forall r, 0 < latency_cycles_ r ->
    let r' := fold_left
                (fun r msg =>
                   let r := routeMessage r msg in
                   set_totals r (u64 (total_messages_routed_ r + 1))
                     (total_latency_cycles_ r)) q r in
    ring_buffer_ r' = ring_buffer_ r ++ q /\
    node_input_queues_ r' = node_input_queues_ r /\
    node_output_queues_ r' = node_output_queues_ r /\
    latency_cycles_ r' = latency_cycles_ r /\
    num_nodes_ r' = num_nodes_ r.
Proof.
  induction q as [|msg q IH]; intros r Hlat; cbv zeta; cbn [fold_left].
  - by rewrite app_nil_r.
  - set (r1 := set_totals _ _ _).
    assert (H1 : ring_buffer_ r1 = ring_buffer_ r ++ [msg] /\
                 node_input_queues_ r1 = node_input_queues_ r /\
                 node_output_queues_ r1 = node_output_queues_ r /\
                 latency_cycles_ r1 = latency_cycles_ r /\
                 num_nodes_ r1 = num_nodes_ r).
    { subst r1. unfold routeMessage.
      destruct (Z.leb_spec (latency_cycles_ r) 0); [lia|done]. }
    destruct H1 as (Hb & Hi & Ho & Hl & Hn).
    destruct (IH r1) as (Hb' & Hi' & Ho' & Hl' & Hn'); [lia|].
    cbv zeta in *. rewrite Hb', Hi', Ho', Hl', Hn', Hb, Hi, Ho, Hl, Hn.
    by rewrite <- app_assoc.
Qed.

Lemma drain_nodes_buffered (len : nat) :
  forall (start : nat) r,
    0 < latency_cycles_ r ->
    (start + len <= length (node_output_queues_ r))%nat ->
    let r' := fold_left drain_node (seq start len) r in
    ring_buffer_ r'
    = ring_buffer_ r ++ concat (take len (drop start (node_output_queues_ r)))
    /\ node_input_queues_ r' = node_input_queues_ r /\
    latency_cycles_ r' = latency_cycles_ r /\
    num_nodes_ r' = num_nodes_ r /\
    length (node_output_queues_ r') = length (node_output_queues_ r) /\
    forall j, node_output_queues_ r' !! j
              = if decide (start <= j < start + len)%nat then Some []
                else node_output_queues_ r !! j.
Proof.
  induction len as [|len IH]; intros start r Hlat Hlen; cbv zeta.
  - cbn. rewrite app_nil_r. repeat (split; [done|]).
    intros j. case_decide; [lia|done].
  - cbn [seq fold_left].
    destruct (node_output_queues_ r !! start) as [q|] eqn:Eq.
    2:{ apply lookup_ge_None in Eq. lia. }
    assert (H1 : ring_buffer_ (drain_node r start) = ring_buffer_ r ++ q /\
                 node_input_queues_ (drain_node r start)
                 = node_input_queues_ r /\
                 node_output_queues_ (drain_node r start)
                 = <[start := []]> (node_output_queues_ r) /\
                 latency_cycles_ (drain_node r start) = latency_cycles_ r /\
                 num_nodes_ (drain_node r start) = num_nodes_ r).
    { unfold drain_node. rewrite Eq. cbn [default from_option id]. cbv zeta.
      pose proof (drain_queue_buffered q
                    (set_outputs r (<[start := []]> (node_output_queues_ r)))
                    Hlat) as Hq.
      cbv zeta in Hq. destruct Hq as (-> & -> & -> & -> & ->). done. }
    destruct H1 as (Hb & Hi & Ho & Hl & Hn).
    destruct (IH (S start) (drain_node r start))
      as (Hb' & Hi' & Hl' & Hn' & Hlen' & Ho').
    { lia. } { rewrite Ho, length_insert. lia. }
    cbv zeta in *. rewrite Hb', Hi', Hl', Hn', Hlen', Hb, Hi, Hl, Hn, Ho.
    rewrite length_insert. split; [|repeat (split; [done|])].
    + rewrite drop_insert_lt by lia. rewrite (drop_S _ q start Eq).
      cbn [take concat]. by rewrite <- app_assoc.
    + intros j. rewrite Ho', Ho.
      destruct (decide (j = start)) as [->|Hj].
      * rewrite list_lookup_insert_eq by (by eapply lookup_lt_Some).
        repeat case_decide; try lia; done.
      * rewrite list_lookup_insert_ne by done.
        repeat case_decide; try lia; done.
Qed.

Lemma settle_spec (buf : list InternalRing.RingMessage) :
  forall r (acc : list InternalRing.RingMessage),
    let res := fold_left settle buf (r, acc) in
    res.2 = acc ++ List.filter (fun m => negb (latency_met r m)) buf /\
    node_input_queues_ res.1
    = fold_left (fun qs m => push_at qs (dst_unit m) m)
        (List.filter (latency_met r) buf) (node_input_queues_ r) /\
    node_output_queues_ res.1 = node_output_queues_ r /\
    latency_cycles_ res.1 = latency_cycles_ r /\
    num_nodes_ res.1 = num_nodes_ r.
Proof.
  induction buf as [|msg buf IH]; intros r acc; cbv zeta.
  - cbn. by rewrite app_nil_r.
  - cbn [fold_left List.filter settle].
    destruct (latency_met r msg) eqn:Em; cbn [negb].
    + set (r1 := set_totals _ _ _).
      destruct (IH r1 acc) as (Hd & Hi & Ho & Hl & Hn). cbv zeta in *.
      rewrite Hd, Hi, Ho, Hl, Hn. done.
    + destruct (IH r (acc ++ [msg])) as (Hd & Hi & Ho & Hl & Hn).
      cbv zeta in *. rewrite Hd, Hi, Ho, Hl, Hn.
      by rewrite <- app_assoc.
Qed.

(** X24: The configured latency of the fallback ring is never waited for.
    tick empties every output queue into the ring buffer and then tests
    each buffered message against a current time of 0: a message
    stamped with cycle 0 fails the test on every tick and stays in the
    buffer for good, while a message with a later stamp passes it at
    once and reaches the input queue of its destination in the very
    tick that took it from the output queue. *)
Lemma fallback_tick_ignores_latency r :
  queues_ok r -> 0 < latency_cycles_ r < 2 ^ 31 ->
  let arrived := ring_buffer_ r ++ concat (node_output_queues_ r) in
  let r' := InternalRing.tick r in
  ring_buffer_ r' = List.filter (fun m => negb (latency_met r m)) arrived /\
  node_input_queues_ r'
  = fold_left (fun qs m => push_at qs (dst_unit m) m)
      (List.filter (latency_met r) arrived) (node_input_queues_ r) /\
  Forall (fun q => q = []) (node_output_queues_ r') /\
  (forall m, m ∈ arrived -> timestamp m = 0 -> m ∈ ring_buffer_ r') /\
  (forall m, 0 < timestamp m <= 2 ^ 64 - latency_cycles_ r ->
     m ∉ ring_buffer_ r').
Proof.
  intros (Hn & Hli & Hlo & Hb) Hlat. cbv zeta.
  assert (Hzero : forall m, timestamp m = 0 -> latency_met r m = false).
  { intros m Hm. unfold latency_met. rewrite Hm.
    change (u64 (0 - 0)) with 0. apply Z.leb_gt.
    unfold u64. rewrite Z.mod_small; [lia|].
    change (2 ^ 31) with 2147483648 in Hlat.
    change (2 ^ 64) with 18446744073709551616. lia. }
  assert (Hlate : forall m, 0 < timestamp m <= 2 ^ 64 - latency_cycles_ r ->
            latency_met r m = true).
  { intros m Hm. unfold latency_met. apply Z.leb_le.
    change (2 ^ 31) with 2147483648 in Hlat.
    change (2 ^ 64) with 18446744073709551616 in Hm.
    assert (Hu : u64 (0 - timestamp m)
                 = 18446744073709551616 - timestamp m).
    { unfold u64. change (2 ^ 64) with 18446744073709551616.
      symmetry. apply Z.mod_unique with (-1); lia. }
    rewrite Hu. unfold u64. rewrite Z.mod_small; [lia|].
    change (2 ^ 64) with 18446744073709551616. lia. }
  unfold InternalRing.tick.
  destruct (drain_nodes_buffered (Z.to_nat (num_nodes_ r)) 0 r)
    as (Hbuf & Hins & Hl1 & Hn1 & Hlen1 & Houts); [lia|lia|].
  cbv zeta in *. set (r1 := fold_left drain_node _ r) in *.
  rewrite drop_0, <- Hlo, firstn_all in Hbuf.
  destruct (settle_spec (ring_buffer_ r1) r1 []) as (Hd & Hi & Ho & Hl2 & Hn2).
  cbv zeta in *.
  destruct (fold_left settle (ring_buffer_ r1) (r1, [])) as [r2 delayed].
  cbn [fst snd] in *. cbn [ring_buffer_ node_input_queues_
                          node_output_queues_ set_buffer].
  assert (Hmet : forall m, latency_met r1 m = latency_met r m)
    by (intros m; unfold latency_met; by rewrite Hl1).
  assert (Hbuffer : delayed
                    = List.filter (fun m => negb (latency_met r m))
                        (ring_buffer_ r ++ concat (node_output_queues_ r))).
  { rewrite Hd, Hbuf. cbn [app]. apply List.filter_ext. intros m.
    by rewrite Hmet. }
  split; [exact Hbuffer|]. split; [|split; [|split]].
  - rewrite Hi, Hins, Hbuf. f_equal. apply List.filter_ext. exact Hmet.
  - rewrite Ho. apply Forall_lookup. intros j q Hq.
    rewrite Houts in Hq. case_decide as Hj; [by injection Hq as <-|].
    apply lookup_lt_Some in Hq. lia.
  - intros m Hin Hm. rewrite Hbuffer. apply list_elem_of_In, List.filter_In.
    split; [by apply list_elem_of_In|]. by rewrite (Hzero m Hm).
  - intros m Hm Hin. rewrite Hbuffer in Hin.
    apply list_elem_of_In, List.filter_In in Hin as [_ Hin].
    by rewrite (Hlate m Hm) in Hin.
Qed.

End FallbackRing.

Lemma fallback_ring_ok : InternalRing.queues_ok fallback_ring.
Proof.
  split; [by vm_compute|]. split; [reflexivity|]. split; [reflexivity|].
  vm_compute. repeat constructor.
Defined.

Lemma fallback_send_bounded_witness :
  InternalRing.queues_ok
    (InternalRing.sendMessage fallback_ring (stamped 9)).2.
Proof.
  exact (proj1 (fallback_send_bounded fallback_ring (stamped 9)
                  fallback_ring_ok)).
Defined.

Lemma fallback_tick_witness :
  stamped 0 ∈ InternalRing.ring_buffer_ (InternalRing.tick fallback_ring) /\
  stamped 7 ∉ InternalRing.ring_buffer_ (InternalRing.tick fallback_ring).
Proof.
  assert (Hlat : 0 < InternalRing.latency_cycles_ fallback_ring < 2 ^ 31)
    by (by vm_compute).
  destruct (fallback_tick_ignores_latency fallback_ring fallback_ring_ok Hlat)
    as (_ & _ & _ & Hstuck & Hgone).
  split.
  - apply Hstuck; [|reflexivity]. apply list_elem_of_In. vm_compute. auto.
  - apply Hgone. vm_compute. split; congruence.
Defined.

(** ** Credits moved by hand *)

(** X25: updateCredit is outside the credit discipline of the ring: taking a
    credit from a channel that checkCredit reports as having one, on a
    ring whose channels conserve their credits, leaves a channel for
    which buffered messages plus credits no longer equal [max_credits]. *)
Lemma updateCredit_breaks_conservation (r : t) (id : Z)
    (dir : RouteDirection) (vc : Z) :
  credit_conservation r ->
  checkCredit r id dir vc = true ->
  ~ credit_conservation (updateCredit r id dir vc false).
Proof.
  intros Hc Hcheck Hc'. unfold checkCredit in Hcheck. unfold updateCredit in Hc'.
  destruct (getNode r id) as [node|] eqn:Hnode; [|done].
  apply getNode_Some in Hnode as [_ Hi].
  destruct ((vc <? 0) || (Z.of_nat (length (getVCs node dir)) <=? vc));
    [done|].
  destruct (getVCs node dir !! Z.to_nat vc) as [c|] eqn:Ec; [|done].
  apply Z.ltb_lt in Hcheck.
  unfold credit_conservation in Hc, Hc'.
  rewrite Forall_lookup in Hc. specialize (Hc _ _ Hi).
  rewrite Forall_lookup in Hc'.
  specialize (Hc' (Z.to_nat id)
                (update_vcs dir (alter consumeCredit (Z.to_nat vc)) node)).
  cbn in Hc'. rewrite list_lookup_alter_eq, Hi in Hc'.
  specialize (Hc' eq_refl).
  assert (Hold : vc_conserves c).
  { destruct Hc as (Hcw & Hccw & Hloc).
    destruct dir; cbn in Ec;
      [exact (Forall_lookup_1 _ _ _ _ Hcw Ec)
      |exact (Forall_lookup_1 _ _ _ _ Hccw Ec)
      |exact (Forall_lookup_1 _ _ _ _ Hloc Ec)|done]. }
  assert (Hnew : vc_conserves (consumeCredit c)).
  { destruct Hc' as (Hcw & Hccw & Hloc).
    assert (Hk : forall vcs : list VirtualChannel,
              vcs !! Z.to_nat vc = Some c ->
              alter consumeCredit (Z.to_nat vc) vcs !! Z.to_nat vc
              = Some (consumeCredit c))
      by (intros vcs Hv; by rewrite list_lookup_alter_eq, Hv).
    destruct dir; cbn in Ec, Hcw, Hccw, Hloc;
      [exact (Forall_lookup_1 _ _ _ _ Hcw (Hk _ Ec))
      |exact (Forall_lookup_1 _ _ _ _ Hccw (Hk _ Ec))
      |exact (Forall_lookup_1 _ _ _ _ Hloc (Hk _ Ec))|done]. }
  unfold vc_conserves, consumeCredit in *. cbn in Hnew.
  destruct (Z.ltb_spec 0 (credits c)); lia.
Qed.

Lemma updateCredit_breaks_conservation_witness :
  ~ credit_conservation (updateCredit ring2 0 CLOCKWISE 0 false).
Proof.
  apply updateCredit_breaks_conservation; [|reflexivity].
  apply ring_ok_conserves, reachable_ok.
  apply (reach_new 2 2 1 true);
    [unfold is_int; lia|unfold is_u32; lia|reflexivity].
Defined.

(** ** The clock handler of the spike source *)

Section SourceClock.
Import SpikeSourceClock.
Implicit Types (s : SpikeSourceClock.t) (d : SpikeSource.SpikeData).

Local Abbreviation queue s := (SpikeSource.spike_queue (source s)).
Local Abbreviation ts := SpikeSource.timestamp.

Lemma take_min_spec (q : list SpikeSource.SpikeData) :
  match take_min q with
  | None => q = []
  | Some (m, rest) => q ≡ₚ m :: rest /\ Forall (fun d => ts m <= ts d) rest
  end.
Proof.
  induction q as [|d q IH]; [done|]. cbn [take_min].
  destruct (take_min q) as [[m rest]|].
  - destruct IH as [Hp Hmin].
    destruct (Z.leb_spec (ts d) (ts m)) as [Hle|Hgt].
    + split; [done|]. rewrite Hp. constructor; [done|].
      eapply Forall_impl; [exact Hmin|]. cbn. intros; lia.
    + split.
      * rewrite Hp. apply Permutation_swap.
      * constructor; [lia|done].
  - subst q. split; [done|constructor].
Qed.

Local Abbreviation nid := SpikeSource.neuron_id.
Local Abbreviation per_pe s :=
  (u32 (SpikeSource.neurons_per_core (source s) * 4)).
Local Abbreviation event s d :=
  (SpikeEvent.make (nid d) (nid d) (nid d / per_pe s) 1%Q (ts d)).

Lemma event_of_Some s d : per_pe s <> 0 -> event_of s d = Some (event s d).
Proof.
  intros Hn. unfold event_of. cbv zeta.
  by destruct (Z.eqb_spec (per_pe s) 0).
Qed.

Lemma event_of_None s d : per_pe s = 0 -> event_of s d = None.
Proof. intros Hz. unfold event_of. cbv zeta. by rewrite Hz. Qed.

(** With no event due the loop does nothing, whatever the fuel. *)
Lemma send_due_idle (fuel : nat) s :
  Forall (fun d => current_sim_time s < ts d) (queue s) ->
  send_due fuel s = Some s.
Proof.
  intros Hlate. destruct fuel as [|fuel]; [done|]. cbn [send_due].
  pose proof (take_min_spec (queue s)) as Hmin.
  destruct (take_min (queue s)) as [[m rest]|]; [|done].
  destruct Hmin as [Hperm _]. rewrite Hperm in Hlate.
  apply Forall_cons in Hlate as [Hm _].
  by destruct (Z.leb_spec (ts m) (current_sim_time s)); [lia|].
Qed.

(** With a due event and [neurons_per_pe = 0] the first iteration
    divides by zero. *)
Lemma send_due_trap (fuel : nat) s d :
  per_pe s = 0 -> (length (queue s) <= fuel)%nat ->
  d ∈ queue s -> ts d <= current_sim_time s ->
  send_due fuel s = None.
Proof.
  intros Hz Hlen Hin Hdue.
  destruct fuel as [|fuel].
  { destruct (queue s); [by apply elem_of_nil in Hin|cbn in Hlen; lia]. }
  cbn [send_due]. pose proof (take_min_spec (queue s)) as Hmin.
  destruct (take_min (queue s)) as [[m rest]|].
  2:{ rewrite Hmin in Hin. by apply elem_of_nil in Hin. }
  destruct Hmin as [Hperm Hleast].
  assert (Hm : ts m <= ts d).
  { rewrite Hperm in Hin. apply elem_of_cons in Hin as [->|Hin]; [lia|].
    by apply (proj1 (Forall_forall _ _) Hleast). }
  destruct (Z.leb_spec (ts m) (current_sim_time s)); [|lia].
  by rewrite event_of_None.
Qed.

Lemma send_due_spec (fuel : nat) :
  forall s, per_pe s <> 0 -> (length (queue s) <= fuel)%nat ->
    exists s' due,
      send_due fuel s = Some s' /\
      queue s ≡ₚ due ++ queue s' /\
      Forall (fun d => ts d <= current_sim_time s) due /\
      Forall (fun d => current_sim_time s < ts d) (queue s') /\
      StronglySorted (fun a b => ts a <= ts b) due /\
      sent s' = sent s
                ++ (if spike_output_link s then map (fun d => event s d) due
                    else [])
      /\ u64 (events_sent_count s')
         = u64 (events_sent_count s
                + (if spike_output_link s then Z.of_nat (length due) else 0))
      /\ spike_output_link s' = spike_output_link s /\
      data_loaded s' = data_loaded s /\
      finished_sending s' = finished_sending s /\
      current_sim_time s' = current_sim_time s.
Proof.
  assert (Hstop : forall s,
    Forall (fun d => current_sim_time s < ts d) (queue s) ->
    exists s' due,
      Some s = Some s' /\
      queue s ≡ₚ due ++ queue s' /\
      Forall (fun d => ts d <= current_sim_time s) due /\
      Forall (fun d => current_sim_time s < ts d) (queue s') /\
      StronglySorted (fun a b => ts a <= ts b) due /\
      sent s' = sent s
               ++ (if spike_output_link s then map (fun d => event s d) due
                   else [])
      /\ u64 (events_sent_count s')
         = u64 (events_sent_count s
                + (if spike_output_link s then Z.of_nat (length due) else 0))
      /\ spike_output_link s' = spike_output_link s /\
      data_loaded s' = data_loaded s /\
      finished_sending s' = finished_sending s /\
      current_sim_time s' = current_sim_time s).
  { intros s HF. exists s, []. cbn [app length map Z.of_nat].
    split; [done|]. split; [done|]. split; [constructor|]. split; [done|].
    split; [constructor|].
    split; [destruct (spike_output_link s); by rewrite app_nil_r|].
    split; [destruct (spike_output_link s); by rewrite Z.add_0_r|done]. }
  induction fuel as [|fuel IH]; intros s Hpe Hlen.
  - cbn [send_due]. apply Hstop.
    destruct (queue s); [constructor|cbn in Hlen; lia].
  - cbn [send_due]. pose proof (take_min_spec (queue s)) as Hmin.
    destruct (take_min (queue s)) as [[d rest]|].
    2:{ apply Hstop. rewrite Hmin. constructor. }
    destruct Hmin as [Hperm Hleast].
    destruct (Z.leb_spec (ts d) (current_sim_time s)) as [Hdue|Hlate].
    2:{ apply Hstop. rewrite Hperm. constructor; [done|].
        eapply Forall_impl; [exact Hleast|]. cbn. intros; lia. }
    rewrite (event_of_Some s d Hpe).
    set (s1 := mk (set_queue _ rest) _ _ _ _ _ _).
    assert (Hfields : queue s1 = rest /\
              current_sim_time s1 = current_sim_time s /\
              spike_output_link s1 = spike_output_link s /\
              data_loaded s1 = data_loaded s /\
              finished_sending s1 = finished_sending s /\
              sent s1 = sent s ++ (if spike_output_link s
                                   then [event s d] else []) /\
              events_sent_count s1
              = (if spike_output_link s
                 then u64 (events_sent_count s + 1)
                 else events_sent_count s) /\
              per_pe s1 = per_pe s).
    { subst s1. destruct (spike_output_link s) eqn:El; cbn;
        rewrite ?app_nil_r; repeat (split; [done|]); reflexivity. }
    destruct Hfields as (Hq1 & Hc1 & Hl1 & Hdl1 & Hf1 & Hsent1 & Hcnt1 & Hpe1).
    assert (Hlen1 : (length (queue s1) <= fuel)%nat).
    { apply Permutation_length in Hperm. cbn in Hperm. rewrite Hq1. lia. }
    destruct (IH s1) as (s' & due & Hrun & Hp & Hd & Hr & Hs & Hsent & Hcnt
                         & Hl & Hdl & Hf & Hc); [by rewrite Hpe1|done|].
    rewrite Hq1 in Hp. rewrite Hc1 in Hd, Hr, Hc.
    rewrite Hl1 in Hsent, Hcnt, Hl. rewrite Hpe1 in Hsent.
    exists s', (d :: due). split; [exact Hrun|].
    split; [|split; [|split; [|split]]].
    + rewrite Hperm. cbn. by constructor.
    + by constructor.
    + done.
    + constructor; [done|].
      assert (Hsub : Forall (fun x => ts d <= ts x) (due ++ queue s'))
        by (by rewrite <- Hp).
      by apply Forall_app in Hsub as [Hsub _].
    + split; [|split; [|by rewrite Hl, Hdl, Hf, Hc, Hdl1, Hf1]].
      * rewrite Hsent, Hsent1. destruct (spike_output_link s); cbn.
        -- by rewrite <- app_assoc.
        -- by rewrite !app_nil_r.
      * rewrite Hcnt, Hcnt1. destruct (spike_output_link s).
        -- unfold u64. rewrite Zplus_mod_idemp_l. f_equal.
           cbn [length]. lia.
        -- done.
Qed.

(** X26: A tick of a loaded source that has not finished.  Where the
    [uint32_t] product [neurons_per_core * 4] is not 0, the tick sends
    exactly the queued events whose time has come, in the order of their
    timestamps: the queue splits into the events sent, all at or before
    the current cycle, and the events kept, all after it; each event
    sent goes out as a spike from its neuron to itself on node
    [neuron_id / (4 * neurons_per_core)], a [uint32_t], with weight 1.
    Without an output link the due events leave the queue all the same
    and nothing is sent or counted.  The source is marked finished
    exactly when the queue is empty after the loop.  Where the product is
    0, which the constructor does not exclude, a tick with an event due
    divides by zero, with or without a link, and a tick with none due
    only sets the time (and marks an empty queue finished).  A source
    that is not loaded or has finished ignores the tick. *)
Lemma clockTick_sends_due_events s (current_cycle : Z) :
  (data_loaded s = false \/ finished_sending s = true ->
   clockTick s current_cycle = Some s) /\
  (data_loaded s = true -> finished_sending s = false ->
   (per_pe s = 0 ->
    ((exists d, d ∈ queue s /\ ts d <= current_cycle) ->
     clockTick s current_cycle = None) /\
    (Forall (fun d => current_cycle < ts d) (queue s) ->
     clockTick s current_cycle
     = Some (mk (source s) (spike_output_link s) true
               match queue s with [] => true | _ => false end
               current_cycle (events_sent_count s) (sent s)))) /\
   (per_pe s <> 0 ->
    Forall (fun d => is_u32 (nid d)) (queue s) ->
    exists s' due,
      clockTick s current_cycle = Some s' /\
      queue s ≡ₚ due ++ queue s' /\
      Forall (fun d => ts d <= current_cycle) due /\
      Forall (fun d => current_cycle < ts d) (queue s') /\
      StronglySorted (fun a b => ts a <= ts b) due /\
      sent s' = sent s
                ++ (if spike_output_link s then map (fun d => event s d) due
                    else [])
      /\ Forall (fun d => is_u32 (nid d / per_pe s)) due
      /\ u64 (events_sent_count s')
         = u64 (events_sent_count s
                + (if spike_output_link s then Z.of_nat (length due) else 0))
      /\ (finished_sending s' = true <-> queue s' = []) /\
      current_sim_time s' = current_cycle)).
Proof.
  unfold clockTick. split.
  - intros [-> | ->]; [done|]. by rewrite orb_true_r.
  - intros Hdl Hfs. rewrite Hdl, Hfs. cbn [negb orb]. cbv zeta.
    set (s0 := mk _ _ _ _ current_cycle _ _).
    split.
    + intros Hz. split.
      * intros (d & Hin & Hdue).
        by rewrite (send_due_trap _ s0 d Hz (le_n _) Hin Hdue).
      * intros Hlate. rewrite (send_due_idle _ s0 Hlate). subst s0. cbn.
        by destruct (queue s).
    + intros Hpe Hu32.
      destruct (send_due_spec (length (queue s0)) s0 Hpe (le_n _))
        as (s1 & due & Hrun & Hp & Hd & Hr & Hs & Hsent & Hcnt & Hl & Hdl1
            & Hf & Hc).
      rewrite Hrun.
      change (queue s0) with (queue s) in Hp.
      change (current_sim_time s0) with current_cycle in Hd, Hr, Hc.
      change (sent s0) with (sent s) in Hsent.
      change (spike_output_link s0) with (spike_output_link s) in Hsent, Hcnt.
      change (events_sent_count s0) with (events_sent_count s) in Hcnt.
      change (finished_sending s0) with false in Hf.
      change (per_pe s0) with (per_pe s) in Hsent.
      assert (Hnode : Forall (fun d => is_u32 (nid d / per_pe s)) due).
      { rewrite Hp in Hu32. apply Forall_app in Hu32 as [Hu32 _].
        eapply Forall_impl; [exact Hu32|]. intros d [Hd0 Hd1].
        assert (Hpos : 0 < per_pe s).
        { pose proof (Z.mod_pos_bound
                        (SpikeSource.neurons_per_core (source s) * 4)
                        (2 ^ 32) eq_refl) as Hb.
          unfold u32 in *. lia. }
        split; [by apply Z.div_pos|].
        apply Z.le_lt_trans with (nid d); [|done].
        apply Z.div_le_upper_bound; [done|]. nia. }
      eexists _, due. split; [reflexivity|].
      destruct (queue s1) as [|d q] eqn:Eq; cbn.
      * rewrite ?Eq. repeat (split; [done|]). exact Hc.
      * rewrite ?Eq. repeat (split; [done|]). split; [|exact Hc].
        rewrite Hf. split; intros; discriminate.
Qed.

End SourceClock.

(** [clock_source] at cycle 5: the events of neurons 3 and 20 are due and
    go to nodes 0 and 1; the event of neuron 7 stays. *)
Lemma clockTick_sends_due_events_witness :
  (fun s' => SpikeEvent.dest_node <$> SpikeSourceClock.sent s')
    <$> SpikeSourceClock.clockTick clock_source 5 = Some [0; 1] /\
  exists s' due,
    SpikeSourceClock.clockTick clock_source 5 = Some s' /\
    SpikeSource.spike_queue (SpikeSourceClock.source clock_source)
    ≡ₚ due ++ SpikeSource.spike_queue (SpikeSourceClock.source s').
Proof.
  split; [reflexivity|].
  assert (Hl : SpikeSourceClock.data_loaded clock_source = true)
    by reflexivity.
  assert (Hf : SpikeSourceClock.finished_sending clock_source = false)
    by reflexivity.
  destruct (proj2 (proj2 (clockTick_sends_due_events clock_source 5) Hl Hf))
    as (s' & due & Hrun & Hp & _).
  - by vm_compute.
  - repeat constructor; by vm_compute.
  - exists s', due. split; [exact Hrun|exact Hp].
Defined.

(** ** The spike wrapper *)

Lemma wrapper_serialize_bytes (s : SpikeEvent.t Z) :
  SpikeEventWrapper.serialize (Some s)
  = Some (Serializer.le_bytes 1 1
          ++ Serializer.le_bytes 4 (SpikeEvent.neuron_id s)
          ++ Serializer.le_bytes 4 (SpikeEvent.dest_neuron s)
          ++ Serializer.le_bytes 4 (SpikeEvent.dest_node s)
          ++ Serializer.le_bytes 8 (SpikeEvent.weight s)
          ++ Serializer.le_bytes 8 (SpikeEvent.timestamp s) ++ []).
Proof. reflexivity. Qed.

(** X27: Sending a wrapper through serialization gives what clone gives: a
    null wrapper stays null, and a wrapped spike comes back with its
    source neuron, destination neuron, destination node, weight and
    timestamp, rebuilt by the constructor and so with a hop count of
    zero. *)
Lemma wrapper_roundtrip_is_clone (w : SpikeEventWrapper.t) :
  (forall s, w = Some s -> SpikeEventSer.well_formed s) ->
  SpikeEventWrapper.serialize w ≫= SpikeEventWrapper.deserialize
  = Some (SpikeEventWrapper.clone w) /\
  (forall s, SpikeEventWrapper.clone w = Some s -> SpikeEvent.hop_count s = 0).
Proof.
  intros Hwf. split.
  - destruct w as [s|]; [|reflexivity].
    destruct (Hwf s eq_refl) as (H1 & H2 & _ & H4 & H5 & H6).
    unfold is_u32, is_u64 in *.
    rewrite wrapper_serialize_bytes. cbn [mbind option_bind].
    unfold SpikeEventWrapper.deserialize, SpikeEventWrapper.serialize_order,
      Serializer.ser_u32, Serializer.ser_u64, Serializer.ser_f64.
    rewrite ser_prim_unpack by (simpl; lia). cbn [mbind option_bind].
    cbn [Z.eqb negb Serializer.ser_mode].
    do 5 (rewrite ser_prim_unpack by (simpl; lia); cbn [mbind option_bind]).
    reflexivity.
  - intros s. destruct w as [s0|]; [|done]. by intros [= <-].
Qed.

Lemma wrapper_roundtrip_witness :
  SpikeEventWrapper.serialize (Some spike_with_hops)
    ≫= SpikeEventWrapper.deserialize
  = Some (Some (SpikeEvent.mk 7 100 0 5 2 0)).
Proof.
  refine (proj1 (wrapper_roundtrip_is_clone (Some spike_with_hops) _)).
  intros s [= <-].
  unfold SpikeEventSer.well_formed, is_u32, is_u64; simpl; lia.
Defined.

(** ** The two counts of sent spikes *)

(** X28: The retry on the space-available notification counts the spikes it
    gets out in the statistics but not in the NIC's own counters: after
    spaceAvailable [stat_spikes_sent] and [stat_packets_sent] have grown
    by the number of requests that went out, while [spikes_sent_count]
    and [packets_sent_count], which the final report prints, are
    unchanged. *)
Lemma spaceAvailable_counts_only_statistics {W N : Type}
    `{SnnNIC.SimpleNetwork W N} (sizeof_SpikePayload : Z)
    (float_of_double : W -> W) (nic : SnnNIC.t W N) (vn : Z) :
  let nic' := SnnNIC.spaceAvailable sizeof_SpikePayload float_of_double
                nic vn in
  exists out,
    SnnNIC.net_sent nic' = SnnNIC.net_sent nic ++ out /\
    SnnNIC.stat_spikes_sent nic'
    = match SnnNIC.network nic with
      | Some _ => u64 (SnnNIC.stat_spikes_sent nic + Z.of_nat (length out))
      | None => SnnNIC.stat_spikes_sent nic
      end /\
    SnnNIC.stat_packets_sent nic'
    = match SnnNIC.network nic with
      | Some _ => u64 (SnnNIC.stat_packets_sent nic + Z.of_nat (length out))
      | None => SnnNIC.stat_packets_sent nic
      end /\
    SnnNIC.spikes_sent_count nic' = SnnNIC.spikes_sent_count nic /\
    SnnNIC.packets_sent_count nic' = SnnNIC.packets_sent_count nic.
Proof.
  cbv zeta. unfold SnnNIC.spaceAvailable.
  destruct (SnnNIC.network nic) as [net|].
  - destruct (SnnNIC.drain _ _ nic vn net (SnnNIC.pending_spikes nic))
      as [[net' q'] out].
    exists out. cbn. done.
  - exists []. by rewrite app_nil_r.
Qed.
